(** * Progress orchestration of the download / encode / upload panel

    A shallow embedding of the job-progress core of [src/app.py] (the
    current program, lines 1-6081 of the file): the shared progress queue,
    the worker functions that narrate their progress into it, the task
    launcher, the server-push streaming endpoint and the stop endpoint.
    The older copy of the program that the file carries after its
    [__main__] block is not modelled.  Around that core the development
    covers the helpers for file names, paths and sizes, the upload
    history of Gofile, the alternate upload workers, the file routes
    that test, delete, upload or merge paths, the sign-in, the 4stream
    key settings, and the pinger of [src/ping.py].

    Conventions of the embedding.
    - A progress event is the Python dict pushed with [q.put]; its five
      optional keys are the fields of [msg].
    - Numbers that Python holds as floats (percentages, durations) are exact
      rationals ([Q]); float rounding is not modelled.
    - Text is ASCII: [str.strip], [str.upper] and the regular expressions
      are modelled on bytes.
    - The outside world (HTTP peers, the file system, child processes) is
      an explicit environment record per worker: each field is the outcome
      of one external call of the source, an exception or a value.
    - A worker is a computation in the monad [W]: it threads the server
      state and ends normally, by an early [return], or by an exception.
    - Where a function consults the file system itself, the file system
      is the set of the paths that exist, and paths are those of
      [posixpath]. *)

From Stdlib Require Import String Ascii List ZArith QArith Qminmax Qround
  Qabs Lia Lqa Bool.
From stdpp Require Import base option gmap strings pretty.
Import ListNotations.

(* ================================================================== *)
(** * Python text helpers *)
(* ================================================================== *)

Module PyStr.

(** [str.isspace] on one ASCII character. *)
Definition is_space (c : ascii) : bool :=
  let n := nat_of_ascii c in
  ((9 <=? n)%nat && (n <=? 13)%nat) || ((28 <=? n)%nat && (n <=? 32)%nat).

(** The class [\d] (and [[0-9]]) on ASCII. *)
Definition is_digit (c : ascii) : bool :=
  let n := nat_of_ascii c in (48 <=? n)%nat && (n <=? 57)%nat.

Definition digit_val (c : ascii) : Z := Z.of_nat (nat_of_ascii c) - 48.

Fixpoint lstrip (s : string) : string :=
  match s with
  | String c r => if is_space c then lstrip r else s
  | EmptyString => EmptyString
  end.

Definition rev (s : string) : string :=
  string_of_list_ascii (List.rev (list_ascii_of_string s)).

(** [s.strip()] *)
Definition strip (s : string) : string := rev (lstrip (rev (lstrip s))).

Definition upper_char (c : ascii) : ascii :=
  let n := nat_of_ascii c in
  if (97 <=? n)%nat && (n <=? 122)%nat then ascii_of_nat (n - 32) else c.

(** [s.upper()] *)
Fixpoint upper (s : string) : string :=
  match s with
  | String c r => String (upper_char c) (upper r)
  | EmptyString => EmptyString
  end.

(** [needle in hay] *)
Fixpoint contains (needle hay : string) : bool :=
  String.prefix needle hay ||
  match hay with
  | String _ r => contains needle r
  | EmptyString => false
  end.

(** [s.endswith(suffix)] *)
Definition endswith (s suffix : string) : bool :=
  String.prefix (rev suffix) (rev s).

(** The rest of [s] after the literal [p], when [s] starts with it. *)
Fixpoint drop_prefix (p s : string) : option string :=
  match p, s with
  | EmptyString, _ => Some s
  | String a p', String b s' =>
      if Ascii.eqb a b then drop_prefix p' s' else None
  | String _ _, EmptyString => None
  end.

(** The longest prefix of [s] in the class [f], and the rest. *)
Fixpoint span (f : ascii -> bool) (s : string) : string * string :=
  match s with
  | String c r =>
      if f c then let '(a, b) := span f r in (String c a, b)
      else (EmptyString, s)
  | EmptyString => (EmptyString, EmptyString)
  end.

(** One or more characters of the class [f] (a greedy [X+]). *)
Definition many1 (f : ascii -> bool) (s : string) : option (string * string) :=
  match span f s with
  | (EmptyString, _) => None
  | (tok, rest) => Some (tok, rest)
  end.

(** The value of a string of decimal digits. *)
Definition digits_val (s : string) : Z :=
  fold_left (fun acc c => 10 * acc + digit_val c)%Z (list_ascii_of_string s) 0%Z.

(** [int(s)] for the texts a form field carries: optional surrounding
    white space, an optional sign, then decimal digits.  [None] stands for
    the [ValueError] Python raises on anything else.  Underscores between
    digits and digits outside ASCII are not modelled. *)
Definition py_int (s : string) : option Z :=
  let t := strip s in
  let '(neg, body) :=
    match t with
    | String "-" r => (true, r)
    | String "+" r => (false, r)
    | _ => (false, t)
    end in
  match span is_digit body with
  | (String c ds, EmptyString) =>
      let v := digits_val (String c ds) in
      Some (if neg then (- v)%Z else v)
  | _ => None
  end.

(** [float(tok)] for a token of the class [[0-9.]+]: digits with at most
    one point and at least one digit; [None] is the [ValueError]. *)
Definition py_float (tok : string) : option Q :=
  let '(ip, r) := span is_digit tok in
  match r with
  | EmptyString =>
      match ip with
      | EmptyString => None
      | _ => Some (inject_Z (digits_val ip))
      end
  | String "." fp =>
      match span is_digit fp with
      | (fd, EmptyString) =>
          match ip, fd with
          | EmptyString, EmptyString => None
          | _, _ =>
              Some (inject_Z (digits_val ip)
                    + inject_Z (digits_val fd)
                      / inject_Z (10 ^ Z.of_nat (String.length fd)))%Q
          end
      | _ => None
      end
  | _ => None
  end.

(** [s.split(sep)[1]]: the text between the first and the second [sep];
    [None] is the [IndexError] when [sep] does not occur. *)
Fixpoint split_field1 (sep : ascii) (s : string) : option string :=
  match s with
  | String c r =>
      if Ascii.eqb c sep then Some (fst (span (fun x => negb (Ascii.eqb x sep)) r))
      else split_field1 sep r
  | EmptyString => None
  end.

End PyStr.

(* ================================================================== *)
(** * The regular expressions of the workers *)
(* ================================================================== *)

Module Re.
Import PyStr.

Definition two_digits (s : string) : option (Z * string) :=
  match s with
  | String a (String b r) =>
      if is_digit a && is_digit b
      then Some ((10 * digit_val a + digit_val b)%Z, r)
      else None
  | _ => None
  end.

Definition expect (c : ascii) (s : string) : option string :=
  match s with
  | String a r => if Ascii.eqb a c then Some r else None
  | EmptyString => None
  end.

(** [time=(\d{2}):(\d{2}):(\d{2})\.(\d{2})] anchored at the start of [s]:
    the four groups, already through [map(int, match.groups())]. *)
Definition match_time_here (s : string) : option (Z * Z * Z * Z) :=
  s0 ← drop_prefix "time=" s;
  '(h, s1) ← two_digits s0;
  s2 ← expect ":" s1;
  '(m, s3) ← two_digits s2;
  s4 ← expect ":" s3;
  '(sec, s5) ← two_digits s4;
  s6 ← expect "." s5;
  '(cs, _) ← two_digits s6;
  Some (h, m, sec, cs).

(** [re.search(r'time=(\d{2}):(\d{2}):(\d{2})\.(\d{2})', line)]: the
    leftmost match. *)
Fixpoint search_time (line : string) : option (Z * Z * Z * Z) :=
  match match_time_here line with
  | Some r => Some r
  | None =>
      match line with
      | String _ r => search_time r
      | EmptyString => None
      end
  end.

(** [\[download\]\s+([0-9.]+)%] anchored at the start of [s]: group 1. *)
Definition match_download_here (s : string) : option string :=
  s0 ← drop_prefix "[download]" s;
  '(_, s1) ← many1 is_space s0;
  '(tok, s2) ← many1 (fun c => is_digit c || Ascii.eqb c ".") s1;
  _ ← expect "%" s2;
  Some tok.

(** [re.search(r'\[download\]\s+([0-9.]+)%', line)] *)
Fixpoint search_download (line : string) : option string :=
  match match_download_here line with
  | Some r => Some r
  | None =>
      match line with
      | String _ r => search_download r
      | EmptyString => None
      end
  end.

(** [VMAF score: (\d+\.\d+)] anchored at the start of [s]: group 1. *)
Definition match_vmaf_here (s : string) : option string :=
  s0 ← drop_prefix "VMAF score: " s;
  '(a, s1) ← many1 is_digit s0;
  s2 ← expect "." s1;
  '(b, _) ← many1 is_digit s2;
  Some (a +:+ "." +:+ b).

(** [re.search(r'VMAF score: (\d+\.\d+)', line)] *)
Fixpoint search_vmaf (line : string) : option string :=
  match match_vmaf_here line with
  | Some r => Some r
  | None =>
      match line with
      | String _ r => search_vmaf r
      | EmptyString => None
      end
  end.

End Re.

(* ================================================================== *)
(** * Progress events *)
(* ================================================================== *)

(** The dict a worker pushes: every key is optional. *)
Record msg := Msg {
  stage : option string;
  percent : option Q;
  log : option string;
  error : option string;
  final_url : option string
}.

Definition empty_msg : msg := Msg None None None None None.

(** [{"stage": s}] *)
Definition ev_stage (s : string) : msg :=
  Msg (Some s) None None None None.
(** [{"stage": s, "percent": p}] *)
Definition ev_progress (s : string) (p : Q) : msg :=
  Msg (Some s) (Some p) None None None.
(** [{"log": l}] *)
Definition ev_log (l : string) : msg :=
  Msg None None (Some l) None None.
(** [{"error": e}] *)
Definition ev_error (e : string) : msg :=
  Msg None None None (Some e) None.
(** [{"log": l, "final_url": u}] *)
Definition ev_result (l u : string) : msg :=
  Msg None None (Some l) None (Some u).
(** [{"log": "DONE"}] *)
Definition DONE : msg := ev_log "DONE".

(** [msg.get("log") == "DONE"] *)
Definition is_done (m : msg) : bool :=
  match log m with
  | Some l => String.eqb l "DONE"
  | None => false
  end.

(** ["error" in msg] *)
Definition has_error (m : msg) : bool :=
  match error m with Some _ => true | None => false end.

(** The test that ends a stream: [msg.get("log") == "DONE" or "error" in msg]. *)
Definition is_terminal (m : msg) : bool := is_done m || has_error m.

Definition count_done (evs : list msg) : nat :=
  length (List.filter is_done evs).
Definition count_error (evs : list msg) : nat :=
  length (List.filter has_error evs).
Definition count_terminal (evs : list msg) : nat :=
  length (List.filter is_terminal evs).

(* ================================================================== *)
(** * Exceptions, server state and the worker monad *)
(* ================================================================== *)

(** The exception classes the handlers tell apart.  [Timeout] and
    [HTTPError] are subclasses of [RequestException]; [OtherException]
    is any other subclass of [Exception] ([ValueError], [OSError],
    [KeyError], [CalledProcessError], ...). *)
Inductive exn_class :=
| Timeout
| HTTPError (status_code : Z)
| RequestException
| OtherException.

Record exn := Exn { cls : exn_class; str : string }.

Definition is_Timeout (e : exn) : bool :=
  match cls e with Timeout => true | _ => false end.
Definition is_HTTPError (e : exn) : bool :=
  match cls e with HTTPError _ => true | _ => false end.
Definition is_RequestException (e : exn) : bool :=
  match cls e with OtherException => false | _ => true end.

(** What one external call answered. *)
Inductive answer (A : Type) :=
| Ok (a : A)
| Fail (e : exn).
Arguments Ok {A} a.
Arguments Fail {A} e.

(** A child process handle ([subprocess.Popen]): [returncode] is what
    [poll()] returns, [None] while the process runs. *)
Record popen := Popen { pid : nat; returncode : option Z }.

Inductive signal := SIGTERM | SIGKILL.

(** What the server asked of the operating system, oldest first. *)
Inductive os_action :=
| SendSignal (p : nat) (sig : signal)
| WaitExit (p : nat) (timeout : Z).

Inductive session_value :=
| SBool (b : bool)
| SStr (s : string).

(** The process-wide state: the module globals [progress_queue] and
    [current_process], the browser session, and two histories kept
    for the statements: every event ever pushed, every OS request. *)
Record state := State {
  progress_queue : list msg;
  pushed : list msg;
  current_process : option popen;
  session : gmap string session_value;
  os_log : list os_action
}.

Definition set_queue (q : list msg) (s : state) : state :=
  State q (pushed s) (current_process s) (session s) (os_log s).
Definition set_pushed (h : list msg) (s : state) : state :=
  State (progress_queue s) h (current_process s) (session s) (os_log s).
Definition set_current_process (p : option popen) (s : state) : state :=
  State (progress_queue s) (pushed s) p (session s) (os_log s).
Definition set_session (m : gmap string session_value) (s : state) : state :=
  State (progress_queue s) (pushed s) (current_process s) m (os_log s).
Definition add_os_action (a : os_action) (s : state) : state :=
  State (progress_queue s) (pushed s) (current_process s) (session s)
        (os_log s ++ [a]).

(** How a block of Python ends. *)
Inductive outcome (A : Type) :=
| Normal (a : A)
| Returned
| Raised (e : exn).
Arguments Normal {A} a.
Arguments Returned {A}.
Arguments Raised {A} e.

Definition W (A : Type) : Type := state -> outcome A * state.

#[export] Instance W_ret : MRet W := fun A a s => (Normal a, s).

#[export] Instance W_bind : MBind W := fun A B f m s =>
  match m s with
  | (Normal a, s') => f a s'
  | (Returned, s') => (Returned, s')
  | (Raised e, s') => (Raised e, s')
  end.

Definition pass : W unit := mret tt.

(** [raise e] *)
Definition raise {A} (e : exn) : W A := fun s => (Raised e, s).

(** [return] *)
Definition return_ {A} : W A := fun s => (Returned, s).

(** [q.put(m)] *)
Definition q_put (m : msg) : W unit := fun s =>
  (Normal tt,
   set_pushed (pushed s ++ [m]) (set_queue (progress_queue s ++ [m]) s)).

(** [while not q.empty(): q.get()] *)
Definition q_drain : W unit := fun s => (Normal tt, set_queue [] s).

(** [current_process = p] *)
Definition assign_current_process (p : option popen) : W unit := fun s =>
  (Normal tt, set_current_process p s).

(** The outcome of an external call enters the worker. *)
Definition ext {A} (r : answer A) : W A :=
  match r with
  | Ok a => mret a
  | Fail e => raise e
  end.

(** [try: body  except ...: handler]: [handler e] is [None] when no
    clause matches the exception. *)
Definition try_except {A} (body : W A) (handler : exn -> option (W A)) : W A :=
  fun s =>
    match body s with
    | (Raised e, s') =>
        match handler e with
        | Some h => h s'
        | None => (Raised e, s')
        end
    | r => r
    end.

(** [try: body  finally: fin]: [fin] always runs; when it ends normally
    the way [body] ended stands. *)
Definition try_finally {A} (body : W A) (fin : W unit) : W A :=
  fun s =>
    let '(r, s') := body s in
    match fin s' with
    | (Normal _, s'') => (r, s'')
    | (Returned, s'') => (Returned, s'')
    | (Raised e, s'') => (Raised e, s'')
    end.

(** A call of a function that returns nothing: an early [return] of the
    callee is its normal end for the caller. *)
Definition call (f : W unit) : W unit :=
  fun s =>
    match f s with
    | (Returned, s') => (Normal tt, s')
    | r => r
    end.

(** [for x in l: body x] (no [break]). *)
Fixpoint for_each {A} (l : list A) (body : A -> W unit) : W unit :=
  match l with
  | [] => pass
  | x :: r => body x;; for_each r body
  end.

(** [if c: body] *)
Definition when (c : bool) (body : W unit) : W unit :=
  if c then body else pass.

(** The events one run pushes, whatever was pushed before it. *)
Definition fresh (s : state) : state := set_pushed [] s.
Definition emitted {A} (w : W A) (s : state) : list msg :=
  pushed (snd (w (fresh s))).
Definition ending {A} (w : W A) (s : state) : outcome A :=
  fst (w (fresh s)).

Definition initial_state : state := State [] [] None ∅ [].

(* ================================================================== *)
(** * Upload workers *)
(* ================================================================== *)

(** ** Pixeldrain *)

(** The parsed reply of the Pixeldrain API: the truth of
    [result.get("success")], and the texts of [result.get("id")] and
    [result.get('message', 'Unknown')]. *)
Record pixeldrain_reply := PixeldrainReply {
  pd_success : bool;
  pd_id : string;
  pd_message : string
}.

(** [pd_open]: [open(file_path, 'rb')].  [pd_post]: [requests.post],
    [raise_for_status] and [response.json()]. *)
Record pixeldrain_env := PixeldrainEnv {
  pd_open : answer unit;
  pd_post : answer pixeldrain_reply
}.

Definition upload_to_pixeldrain (env : pixeldrain_env)
    (file_path filename : string) : W unit :=
  try_finally
    (try_except
       (q_put (ev_progress ("Uploading '" +:+ filename +:+ "' to Pixeldrain...") 10);;
        ext (pd_open env);;
        q_put (ev_progress "Sending data..." 50);;
        result ← ext (pd_post env);
        if pd_success result then
          let pixeldrain_url := "https://pixeldrain.com/u/" +:+ pd_id result in
          q_put (ev_progress "✅ Pixeldrain Upload Complete!" 100);;
          q_put (ev_result ("Success! Link: " +:+ pixeldrain_url) pixeldrain_url)
        else
          q_put (ev_error ("Pixeldrain API error: " +:+ pd_message result)))
       (fun e => Some (q_put (ev_error ("Pixeldrain upload failed: " +:+ str e)))))
    (q_put DONE).

(** ** 4stream *)

(** The reply of [/api/upload/server]: whether
    [server_data.get("status") != 200 or not server_data.get("result")]
    is false, and the text of [server_data.get('msg', 'Unknown error')]. *)
Record fourstream_server := FourstreamServer {
  fs_server_ok : bool;
  fs_server_msg : string
}.

(** The reply of the upload: whether
    [upload_result.get("status") == 200 and upload_result.get("files")]
    holds, the file code, and [upload_result.get('msg', 'Unknown error')]. *)
Record fourstream_upload := FourstreamUpload {
  fs_upload_ok : bool;
  fs_filecode : string;
  fs_upload_msg : string
}.

(** [UP4STREAM_API_KEY] is the module constant; [fs_get_server] is the
    request for an upload server up to [server_response.json()];
    [fs_post] is [os.path.getsize], [open], the POST, [raise_for_status],
    [response.json()] and the reading of the file code. *)
Record fourstream_env := FourstreamEnv {
  UP4STREAM_API_KEY : string;
  fs_get_server : answer fourstream_server;
  fs_post : answer fourstream_upload
}.

Definition truthy_str (s : string) : bool :=
  match s with EmptyString => false | _ => true end.

Definition upload_to_4stream (env : fourstream_env)
    (file_path filename : string) : W unit :=
  try_finally
    (try_except
       (when (negb (truthy_str (UP4STREAM_API_KEY env)))
          (q_put (ev_error "4stream API key not configured");;
           q_put DONE;;
           return_);;
        q_put (ev_progress "Getting upload server..." 10);;
        server_data ← ext (fs_get_server env);
        when (negb (fs_server_ok server_data))
          (q_put (ev_error ("Failed to get upload server: "
                            +:+ fs_server_msg server_data));;
           q_put DONE;;
           return_);;
        q_put (ev_progress "Got upload server, uploading file..." 30);;
        upload_result ← ext (fs_post env);
        if fs_upload_ok upload_result then
          let file_url :=
            "https://up4stream.com/" +:+ fs_filecode upload_result +:+ ".html" in
          q_put (ev_progress "✅ 4stream Upload Complete!" 100);;
          q_put (ev_result ("Success! File uploaded to 4stream: " +:+ filename)
                           file_url)
        else
          q_put (ev_error ("Upload failed: " +:+ fs_upload_msg upload_result)))
       (fun e =>
          if is_Timeout e then
            Some (q_put (ev_error
              "Upload timeout - file may be too large or connection is slow"))
          else if is_RequestException e then
            Some (q_put (ev_error ("Upload request failed: " +:+ str e)))
          else
            Some (q_put (ev_error ("4stream upload failed: " +:+ str e)))))
    (q_put DONE).

(** ** Gofile *)

(** The reply of [/servers]: whether the status is ["ok"] with a
    non-empty server list, the text of
    [server_data.get('status', 'No servers available')], and the reading
    of [server_data["data"]["servers"][0]["name"]]. *)
Record gofile_server := GofileServer {
  gf_server_ok : bool;
  gf_server_status : string;
  gf_server_name : answer string
}.

(** What the success branch reads from the upload reply: the download
    page, and the file id with the direct link built from it when both
    [real_server] and [file_id_rec] are truthy. *)
Record gofile_file := GofileFile {
  gf_download_page : string;
  gf_captured : option (string * string)
}.

(** The upload reply: [json.dumps(upload_result)], whether its status is
    ["ok"], the text of [upload_result.get('status', 'Unknown error')]
    and the reading of the success branch. *)
Record gofile_upload := GofileUpload {
  gf_raw : string;
  gf_upload_ok : bool;
  gf_upload_status : string;
  gf_file : answer gofile_file
}.

Record gofile_env := GofileEnv {
  GOFILE_API_TOKEN : string;
  gf_get_server : answer gofile_server;
  gf_post : answer gofile_upload
}.

Definition upload_to_gofile (env : gofile_env)
    (file_path filename : string) : W unit :=
  try_finally
    (try_except
       (when (negb (truthy_str (GOFILE_API_TOKEN env)))
          (q_put (ev_error "Gofile API token not configured");;
           q_put DONE;;
           return_);;
        q_put (ev_progress "Getting Gofile upload server..." 10);;
        server_data ← ext (gf_get_server env);
        when (negb (gf_server_ok server_data))
          (q_put (ev_error ("Failed to get upload server: "
                            +:+ gf_server_status server_data));;
           q_put DONE;;
           return_);;
        upload_server ← ext (gf_server_name server_data);
        q_put (ev_progress ("Got server '" +:+ upload_server
                            +:+ "', uploading file...") 30);;
        upload_result ← ext (gf_post env);
        q_put (ev_log ("Gofile Raw Result: " +:+ gf_raw upload_result));;
        if gf_upload_ok upload_result then
          file ← ext (gf_file upload_result);
          match gf_captured file with
          | Some (file_id_rec, direct_link) =>
              q_put (ev_log ("Captured File ID: " +:+ file_id_rec));;
              q_put (ev_log ("Constructed Gofile link: " +:+ direct_link))
          | None => pass
          end;;
          q_put (ev_progress "✅ Gofile Upload Complete!" 100);;
          q_put (ev_result ("Success! File uploaded to Gofile: " +:+ filename)
                           (gf_download_page file))
        else
          q_put (ev_error ("Upload failed: " +:+ gf_upload_status upload_result)))
       (fun e =>
          if is_Timeout e then
            Some (q_put (ev_error
              "Upload timeout - file may be too large or connection is slow"))
          else if is_RequestException e then
            Some (q_put (ev_error ("Upload request failed: " +:+ str e)))
          else
            Some (q_put (ev_error ("Gofile upload failed: " +:+ str e)))))
    (q_put DONE).

(** ** Remote file straight to Pixeldrain *)

(** [du_get]: [requests.get(url, stream=True)] and [raise_for_status],
    giving the file name the worker identifies; [du_post]: the POST to
    Pixeldrain up to [response.json()]. *)
Record direct_upload_env := DirectUploadEnv {
  du_get : answer string;
  du_post : answer pixeldrain_reply
}.

Definition upload_file_directly_to_pixeldrain (env : direct_upload_env)
    (url : string) : W unit :=
  try_finally
    (try_except
       (q_drain;;
        q_put (ev_progress "Starting direct remote upload..." 0);;
        filename ← ext (du_get env);
        q_put (ev_log ("Identified filename: '" +:+ filename +:+ "'"));;
        result ← ext (du_post env);
        if pd_success result then
          let pixeldrain_url := "https://pixeldrain.com/u/" +:+ pd_id result in
          q_put (Msg (Some "✅ Upload complete!") (Some 100%Q) None None
                     (Some pixeldrain_url))
        else
          q_put (ev_error ("Pixeldrain API error: " +:+ pd_message result)))
       (fun e => Some (q_put (ev_error ("Direct remote upload failed: " +:+ str e)))))
    (q_put DONE).

(* ================================================================== *)
(** * Files and child processes *)
(* ================================================================== *)

Module Path.
Import PyStr.

(** [s.split(sep)] *)
Fixpoint split (sep : ascii) (s : string) : list string :=
  match s with
  | EmptyString => [EmptyString]
  | String c r =>
      if Ascii.eqb c sep then EmptyString :: split sep r
      else
        match split sep r with
        | p :: ps => String c p :: ps
        | [] => [String c EmptyString]
        end
  end.

(** [os.path.basename(p)] *)
Definition basename (p : string) : string := List.last (split "/" p) EmptyString.

Definition lower_char (c : ascii) : ascii :=
  let n := nat_of_ascii c in
  if (65 <=? n)%nat && (n <=? 90)%nat then ascii_of_nat (n + 32) else c.

Fixpoint lower (s : string) : string :=
  match s with
  | String c r => String (lower_char c) (lower r)
  | EmptyString => EmptyString
  end.

Definition is_dot (c : ascii) : bool := Ascii.eqb c ".".

(** [os.path.splitext(name)[1]] for a name without directory part: the
    text from the last dot on, or nothing when only dots come before it. *)
Definition extension (name : string) : string :=
  let '(rev_ext, rest) := span (fun c => negb (is_dot c)) (rev name) in
  match rest with
  | String _ before =>
      if forallb is_dot (list_ascii_of_string before) then EmptyString
      else String "." (rev rev_ext)
  | EmptyString => EmptyString
  end.

Definition video_extensions : list string :=
  [".mp4"; ".avi"; ".mov"; ".mkv"; ".wmv"; ".flv"; ".webm"; ".m4v";
   ".3gp"; ".mpg"; ".mpeg"; ".ts"; ".vob"].

Definition audio_extensions : list string :=
  [".mp3"; ".wav"; ".flac"; ".aac"; ".ogg"; ".wma"; ".m4a"; ".opus"].

Definition mem (x : string) (l : list string) : bool :=
  existsb (String.eqb x) l.

Definition is_media_file (file_path : string) : bool :=
  let ext := lower (extension (basename file_path)) in
  mem ext video_extensions || mem ext audio_extensions.

End Path.

(** A spawned child: the lines its merged output yields ([None] when the
    handle has no [stdout]) and the exit code [wait()] returns. *)
Record child := Child {
  child_pid : nat;
  stdout : option (list string);
  exit_code : Z
}.

(** The handle of a child that is running. *)
Definition running (c : child) : popen := Popen (child_pid c) None.

(** [str()] of a [subprocess.CalledProcessError]. *)
Definition CalledProcessError (returncode : Z) (command : string) : exn :=
  Exn OtherException
      (if (returncode <? 0)%Z
       then "Command '" +:+ command +:+ "' died with signal "
            +:+ pretty (- returncode)%Z +:+ "."
       else "Command '" +:+ command +:+ "' returned non-zero exit status "
            +:+ pretty returncode +:+ ".").

Definition ValueError (text : string) : exn := Exn OtherException text.

Definition run_command_with_progress (spawn : answer child)
    (command stage : string) : W unit :=
  process ← ext spawn;
  lines ← match stdout process with
          | Some l => mret l
          | None => raise (Exn OtherException "Process stdout is None")
          end;
  for_each lines (fun line =>
    q_put (ev_log (PyStr.strip line));;
    match Re.search_download line with
    | Some tok =>
        match PyStr.py_float tok with
        | Some p => q_put (ev_progress stage p)
        | None => raise (ValueError ("could not convert string to float: '"
                                     +:+ tok +:+ "'"))
        end
    | None => pass
    end);;
  if negb (exit_code process =? 0)%Z
  then raise (CalledProcessError (exit_code process) command)
  else pass.

(* ================================================================== *)
(** * The encode worker *)
(* ================================================================== *)

(** The arguments of [encode_file] (the queue apart).  A form field that
    is absent is the empty text here. *)
Record encode_args := EncodeArgs {
  input_path : string;
  output_filename : string;
  codec : string;
  preset : string;
  pass_mode : string;
  bitrate : string;
  crf : string;
  audio_bitrate : string;
  fps : string;
  scale : string;
  force_stereo : bool;
  aq_mode : string;
  variance_boost : string;
  tiles : string;
  enable_vmaf : bool;
  upload_pixeldrain : bool;
  upload_4stream : bool;
  upload_gofile : bool
}.

(** What the world answers to one run of [encode_file].
    - [ee_prepare]: the statements before the [try] (safe file name,
      unique output path, [os.makedirs]); the output path and its base
      name [safe_output].
    - [ee_ffprobe_duration]: the probe of [get_media_duration], after the
      exceptions that function catches itself have become [0].
    - [ee_copy]: [shutil.copy2].  [ee_pass1]: the first pass,
      [subprocess.run(..., check=True)].
    - [ee_audio_channels]: [get_audio_channels(input_path)].
    - [ee_popen]: [subprocess.Popen(ffmpeg_cmd, ...)]. *)
Record encode_env := EncodeEnv {
  ee_prepare : answer (string * string);
  ee_ffprobe_duration : answer Q;
  ee_copy : answer unit;
  ee_pass1 : answer unit;
  ee_audio_channels : answer Z;
  ee_popen : answer child;
  ee_pixeldrain : pixeldrain_env;
  ee_4stream : fourstream_env;
  ee_gofile : gofile_env
}.

Definition get_media_duration (probe : answer Q) (file_path : string) : W Q :=
  if negb (Path.is_media_file file_path) then mret 0%Q else ext probe.

(** [int(s)] inside a worker. *)
Definition int_ (s : string) : W Z :=
  match PyStr.py_int s with
  | Some z => mret z
  | None => raise (ValueError ("invalid literal for int() with base 10: '"
                               +:+ s +:+ "'"))
  end.

(** [s.replace(pat, '')] for a non-empty [pat]: [skip] characters of a
    match are still to be dropped. *)
Fixpoint remove_all_from (skip : nat) (pat s : string) : string :=
  match s with
  | EmptyString => EmptyString
  | String c r =>
      match skip with
      | S k => remove_all_from k pat r
      | O =>
          if String.prefix pat s
          then remove_all_from (String.length pat - 1) pat r
          else String c (remove_all_from 0 pat r)
      end
  end.

Definition remove_all (pat s : string) : string := remove_all_from 0 pat s.

(** Whether [rows_str, cols_str = tiles.split('x')] followed by the two
    [int(...)] raises [ValueError]. *)
Definition tiles_unparsable (tiles : string) : bool :=
  match Path.split "x" tiles with
  | [rows_str; cols_str] =>
      match PyStr.py_int rows_str, PyStr.py_int cols_str with
      | Some _, Some _ => false
      | _, _ => true
      end
  | _ => true
  end.

(** [x < y] on rationals. *)
Definition Qltb (x y : Q) : bool := negb (Qle_bool y x).

(** The time-based percentage of one output line:
    [min(100, ((h*3600 + m*60 + s + ms/100) / duration) * 100)]. *)
Definition time_percent (h m s ms : Z) (duration : Q) : Q :=
  Qmin 100
       (((inject_Z (h * 3600 + m * 60 + s) + inject_Z ms / 100) / duration)
        * 100)%Q.

(** The body of the loop over the encoder's output lines. *)
Definition encode_line (stage_msg : string) (duration : Q) (vmaf : bool)
    (line : string) : W unit :=
  q_put (ev_log (PyStr.strip line));;
  when (Qltb 0 duration)
    (match Re.search_time line with
     | Some (h, m, s, ms) =>
         q_put (ev_progress stage_msg (time_percent h m s ms duration))
     | None => pass
     end;;
     when vmaf
       (match Re.search_vmaf line with
        | Some score => q_put (ev_log ("VMAF Score: " +:+ score))
        | None => pass
        end)).

(** The statements of [encode_file] that only build the command line are
    kept for what they can raise and push, not for the list they build. *)
Definition encode_file (env : encode_env) (a : encode_args) : W unit :=
  '(output_path, safe_output) ← ext (ee_prepare env);
  try_finally
    (try_except
       (q_drain;;
        q_put (ev_progress "Initializing encoding..." 0);;
        when (negb (Path.is_media_file (input_path a)))
          (q_put (ev_error "File type cannot be encoded.");; return_);;
        duration ← get_media_duration (ee_ffprobe_duration env) (input_path a);
        (if String.eqb (codec a) "none" then
           ext (ee_copy env);;
           q_put (ev_progress "✅ Copied!" 100)
         else
           let stage_msg := "Encoding to " +:+ PyStr.upper (codec a) +:+ "..." in
           q_put (ev_progress stage_msg 0);;
           let base_codec := remove_all "_copy_audio" (codec a) in
           (if String.eqb (codec a) "copy_video" then pass
            else
              if String.eqb (pass_mode a) "2-pass" then
                bitrate_val ←
                  (if truthy_str (bitrate a) && truthy_str (PyStr.strip (bitrate a))
                   then int_ (bitrate a) else mret 0%Z);
                when (bitrate_val <? 100)%Z
                  (q_put (ev_error "Bitrate required for 2-pass.");; return_);;
                ext (ee_pass1 env)
              else
                (if truthy_str (crf a) then int_ (crf a);; pass else pass));;
           (if PyStr.endswith (codec a) "_copy_audio" then pass
            else
              (if truthy_str (audio_bitrate a)
               then int_ (audio_bitrate a);; pass else pass);;
              (if force_stereo a then pass
               else ext (ee_audio_channels env);; pass));;
           when (String.eqb base_codec "av1"
                 && negb (String.eqb (codec a) "copy_video"))
             (when (truthy_str (tiles a) && PyStr.contains "x" (tiles a)
                    && tiles_unparsable (tiles a))
                (q_put (ev_log ("Warning: Could not parse tiles '"
                                +:+ tiles a +:+ "'. Ignoring."))));;
           process ← ext (ee_popen env);
           assign_current_process (Some (running process));;
           lines ← match stdout process with
                   | Some l => mret l
                   | None => raise (Exn OtherException "Process stdout is None")
                   end;
           for_each lines (encode_line stage_msg duration (enable_vmaf a));;
           (if negb (exit_code process =? 0)%Z then
              q_put (ev_error "Encoding process terminated.");;
              assign_current_process None;;
              return_
            else pass);;
           assign_current_process None;;
           q_put (Msg (Some "✅ Done!") (Some 100%Q)
                      (Some (PyStr.upper (codec a) +:+ " encoding complete."))
                      None None));;
        (if upload_pixeldrain a then
           call (upload_to_pixeldrain (ee_pixeldrain env) output_path safe_output)
         else if upload_4stream a then
           call (upload_to_4stream (ee_4stream env) output_path safe_output)
         else pass);;
        when (upload_gofile a)
          (call (upload_to_gofile (ee_gofile env) output_path safe_output)))
       (fun e => Some (q_put (ev_error (str e)))))
    (assign_current_process None;;
     when (negb (upload_pixeldrain a || upload_4stream a || upload_gofile a))
       (q_put DONE)).

(* ================================================================== *)
(** * The direct download worker *)
(* ================================================================== *)

(** One HTTP response as the worker uses it.
    - [saved_as]: the names the worker derives for the file
      ([final_path], [safe_name]) from the headers, the URL and the
      files already present.
    - [open_file]: [os.makedirs] and [open(final_path, 'wb')].
    - [chunks]: the lengths of the chunks [iter_content] yields and the
      worker writes; [body_error]: the exception that ends the transfer
      after them, if any. *)
Record http_response := HttpResponse {
  status_code : Z;
  location : option string;
  response_url : string;
  content_length : option string;
  saved_as : string * string;
  open_file : answer unit;
  chunks : list nat;
  body_error : option exn
}.

(** [response.ok], which is also [bool(response)]. *)
Definition ok (r : http_response) : bool :=
  negb ((400 <=? status_code r)%Z && (status_code r <? 600)%Z).

(** [response.raise_for_status()] *)
Definition raise_for_status (r : http_response) : W unit :=
  if ok r then pass
  else raise (Exn (HTTPError (status_code r))
                  (pretty (status_code r) +:+ " Error for url: "
                   +:+ response_url r)).

(** The reply of [https://api.gofile.io/accounts]: its status and the
    reading of [token_resp.json().get("data", {}).get("token")] (the
    empty text when there is none). *)
Record token_reply := TokenReply {
  token_status : Z;
  token_value : answer string
}.

Record direct_env := DirectEnv {
  df_token : answer token_reply;
  df_get : nat -> answer http_response;
  df_fallback_get : nat -> answer http_response;
  df_pixeldrain : pixeldrain_env;
  df_gofile : gofile_env
}.

Definition fallback_credentials : list (string * string) :=
  [("admin", "1234"); ("admin", "oga123456");
   ("admin", "Oga123456"); ("admin", "Oga123456?!")].

(** [(downloaded_size / total_size) * 100] *)
Definition download_percent (downloaded_size total_size : Z) : Q :=
  ((inject_Z downloaded_size / inject_Z total_size) * 100)%Q.

(** [for chunk in response.iter_content(chunk_size=8192): ...] *)
Fixpoint save_chunks (total_size downloaded_size : Z) (l : list nat) : W unit :=
  match l with
  | [] => pass
  | n :: rest =>
      let downloaded_size := (downloaded_size + Z.of_nat n)%Z in
      when (0 <? total_size)%Z
        (q_put (ev_progress "Downloading..."
                            (download_percent downloaded_size total_size)));;
      save_chunks total_size downloaded_size rest
  end.

(** The block the source writes out twice, "Download immediately while
    response is open": it gives the names under which the file is saved. *)
Definition save_response (r : http_response) : W (string * string) :=
  let '(final_path, safe_name) := saved_as r in
  total_size ← match content_length r with
               | Some s => int_ s
               | None => mret 0%Z
               end;
  ext (open_file r);;
  save_chunks total_size 0 (chunks r);;
  match body_error r with
  | Some e => raise e
  | None => pass
  end;;
  mret (final_path, safe_name).

Definition is_redirect (status : Z) : bool :=
  existsb (Z.eqb status) [301; 302; 303; 307; 308]%Z.

(** [for jump in range(5): ...], [remaining] iterations from [jump] on;
    the result is the variable [response] after the loop. *)
Fixpoint redirect_loop (env : direct_env) (remaining jump : nat)
    (current_url : string) (response : option http_response)
    : W (option http_response) :=
  match remaining with
  | O => mret response
  | S k =>
      host ← match nth_error (Path.split "/" current_url) 2 with
             | Some h => mret h
             | None => raise (Exn OtherException "list index out of range")
             end;
      q_put (ev_log ("Connecting to " +:+ host +:+ "..."));;
      r ← ext (df_get env jump);
      if is_redirect (status_code r) then
        match location r with
        | Some loc =>
            if truthy_str loc then
              when (PyStr.contains "gofile.io/d/" loc
                    && negb (PyStr.contains "/download/" loc))
                (q_put (ev_log
                   "⚠️ Block detected. Retrying with landing page referer..."));;
              let next :=
                if String.prefix "http" loc then loc
                else "https://gofile.io" +:+ loc in
              redirect_loop env k (S jump) next (Some r)
            else mret (Some r)
        | None => mret (Some r)
        end
      else mret (Some r)
  end.

(** [for idx, (fallback_user, fallback_pass) in enumerate(..., 1): ...]:
    the names of the saved file when one credential worked ([break]),
    [None] when the list is exhausted. *)
Fixpoint try_fallbacks (env : direct_env) (creds : list (string * string))
    (idx : nat) : W (option (string * string)) :=
  match creds with
  | [] => mret None
  | (fallback_user, fallback_pass) :: rest =>
      r ← try_except
            (q_put (ev_log ("Access denied. Trying fallback credential "
                            +:+ pretty idx +:+ "/"
                            +:+ pretty (length fallback_credentials) +:+ ": "
                            +:+ fallback_user +:+ ":" +:+ fallback_pass
                            +:+ "..."));;
             response ← ext (df_fallback_get env idx);
             raise_for_status response;;
             q_put (ev_log ("✅ Authenticated successfully with "
                            +:+ fallback_user +:+ ":" +:+ fallback_pass));;
             names ← save_response response;
             mret (Some names))
            (fun e2 =>
               match cls e2 with
               | HTTPError st =>
                   Some (if (st =? 401)%Z then mret None else raise e2)
               | _ => None
               end);
      match r with
      | Some names => mret (Some names)
      | None => try_fallbacks env rest (S idx)
      end
  end.

Definition download_file_directly (env : direct_env) (url : string)
    (upload_pixeldrain_direct upload_gofile_direct : bool)
    (username password : string) : W unit :=
  try_finally
    (try_except
       (q_drain;;
        q_put (ev_progress "Starting direct download..." 0);;
        when (truthy_str username || truthy_str password)
          (q_put (ev_log ("Using authentication: username=" +:+ username)));;
        saved ←
          try_except
            (when (PyStr.contains "gofile.io" url)
               (try_except
                  (q_put (ev_log "Fetching Gofile security tokens...");;
                   token_resp ← ext (df_token env);
                   when (token_status token_resp =? 200)%Z
                     (guest_token ← ext (token_value token_resp);
                      when (truthy_str guest_token)
                        (q_put (ev_log ("✅ Got Gofile guest token: "
                                        +:+ String.substring 0 5 guest_token
                                        +:+ "...")))))
                  (fun te =>
                     Some (q_put (ev_log
                       ("Note: Failed to get Gofile guest token: " +:+ str te)))));;
             response ← redirect_loop env 5 0 url None;
             match response with
             | Some r =>
                 if ok r then
                   raise_for_status r;;
                   when (PyStr.contains "gofile.io/d/" (response_url r)
                         && negb (PyStr.contains "/download/" (response_url r)))
                     (raise (ValueError
                        "Gofile redirected to landing page. Direct download blocked."));;
                   names ← save_response r;
                   mret (Some names)
                 else mret None
             | None => mret None
             end)
            (fun e =>
               match cls e with
               | HTTPError st =>
                   Some
                     (if (st =? 401)%Z
                         && negb (truthy_str username || truthy_str password)
                      then
                        r ← try_fallbacks env fallback_credentials 1;
                        match r with
                        | Some names => mret (Some names)
                        | None => raise e
                        end
                      else raise e)
               | _ => None
               end);
        q_put (ev_progress "✅ Download complete!" 100);;
        let usable :=
          match saved with
          | Some (final_path, safe_name) =>
              truthy_str final_path && truthy_str safe_name
          | None => false
          end in
        let '(final_path, safe_name) :=
          match saved with
          | Some names => names
          | None => (EmptyString, EmptyString)
          end in
        when (upload_pixeldrain_direct && usable)
          (call (upload_to_pixeldrain (df_pixeldrain env) final_path safe_name));;
        when (upload_gofile_direct && usable)
          (call (upload_to_gofile (df_gofile env) final_path safe_name)))
       (fun e =>
          match cls e with
          | HTTPError st =>
              if (st =? 401)%Z then
                Some (q_put (ev_error
                  "Authentication failed (401). All credential options failed. Please check the URL and provide correct credentials."))
              else
                Some (q_put (ev_error ("Direct download failed: " +:+ str e)))
          | _ => Some (q_put (ev_error ("Direct download failed: " +:+ str e)))
          end))
    (when (negb (upload_pixeldrain_direct || upload_gofile_direct))
       (q_put DONE)).

(* ================================================================== *)
(** * Download-and-convert, manual merge and file merge workers *)
(* ================================================================== *)

(** What the world answers to one run of [download_and_convert].
    - [dc_prepare]: the statements before the [try]; the final path.
    - [dc_command]: the text of the yt-dlp command line.
    - [dc_found]: the first file [os.listdir] shows with the temporary
      name ([actual_tmp_path]), if any.
    - [dc_mkv]: the unique [.mkv] path handed to the encoder.
    - [dc_exists]: [os.path.exists(final_file_to_upload)]. *)
Record convert_env := ConvertEnv {
  dc_prepare : answer string;
  dc_command : string;
  dc_ytdlp : answer child;
  dc_found : answer (option string);
  dc_rename : answer unit;
  dc_mkv : string;
  dc_encode : encode_env;
  dc_exists : bool;
  dc_pixeldrain : pixeldrain_env;
  dc_gofile : gofile_env
}.

Definition download_and_convert (env : convert_env)
    (url video_id audio_id filename codec preset pass_mode bitrate crf
     audio_bitrate fps scale : string) (force_stereo is_muxed : bool)
    (upload_pixeldrain upload_gofile : bool)
    (aq_mode variance_boost tiles : string) (enable_vmaf use_cookies : bool)
    : W unit :=
  final_path ← ext (dc_prepare env);
  try_finally
    (try_except
       (q_drain;;
        q_put (ev_progress "Initializing download..." 0);;
        call (run_command_with_progress (dc_ytdlp env) (dc_command env)
                "Downloading with yt-dlp...");;
        q_put (ev_progress "Download Complete" 100);;
        found ← ext (dc_found env);
        actual_tmp_path ←
          match found with
          | Some f => mret f
          | None => raise (Exn OtherException
                             "yt-dlp did not create expected file.")
          end;
        (if String.eqb codec "none" then
           ext (dc_rename env);;
           q_put (Msg (Some "✅ Done!") None
                      (Some "File saved without encoding.") None None)
         else
           call (encode_file (dc_encode env)
                   (EncodeArgs actual_tmp_path (Path.basename (dc_mkv env))
                      codec preset pass_mode bitrate crf audio_bitrate fps
                      scale force_stereo aq_mode variance_boost tiles
                      enable_vmaf false false false)));;
        let final_file_to_upload :=
          if String.eqb codec "none" then final_path
          else if truthy_str (dc_mkv env) then dc_mkv env else final_path in
        when (upload_pixeldrain && dc_exists env)
          (call (upload_to_pixeldrain (dc_pixeldrain env) final_file_to_upload
                   (Path.basename final_file_to_upload)));;
        when (upload_gofile && dc_exists env)
          (call (upload_to_gofile (dc_gofile env) final_file_to_upload
                   (Path.basename final_file_to_upload))))
       (fun e => Some (q_put (ev_error (str e)))))
    (when (negb (upload_pixeldrain || upload_gofile)) (q_put DONE)).

(** What the world answers to one run of [manual_merge_worker]:
    [mm_prepare] is the statements before the [try] (the final path),
    [mm_exists] is [os.path.exists(final_path)] after the download. *)
Record merge_env := MergeEnv {
  mm_prepare : answer string;
  mm_command : string;
  mm_ytdlp : answer child;
  mm_exists : bool;
  mm_pixeldrain : pixeldrain_env;
  mm_4stream : fourstream_env;
  mm_gofile : gofile_env
}.

Definition manual_merge_worker (env : merge_env)
    (url video_id audio_id filename : string)
    (upload_pixeldrain upload_4stream upload_gofile : bool) : W unit :=
  final_path ← ext (mm_prepare env);
  try_finally
    (try_except
       (q_drain;;
        q_put (ev_progress "Initializing manual download..." 0);;
        call (run_command_with_progress (mm_ytdlp env) (mm_command env)
                "Downloading & Merging with yt-dlp...");;
        q_put (ev_progress "✅ Download Complete!" 100);;
        when (upload_pixeldrain && mm_exists env)
          (call (upload_to_pixeldrain (mm_pixeldrain env) final_path
                   (Path.basename final_path)));;
        when (upload_4stream && mm_exists env)
          (call (upload_to_4stream (mm_4stream env) final_path
                   (Path.basename final_path)));;
        when (upload_gofile && mm_exists env)
          (call (upload_to_gofile (mm_gofile env) final_path
                   (Path.basename final_path))))
       (fun e => Some (q_put (ev_error (str e)))))
    (when (negb (upload_pixeldrain || upload_4stream || upload_gofile))
       (q_put DONE)).

(** What the world answers to one run of [ffmpeg_merge_with_progress]:
    writing the list file, spawning the copy merge, whether the output
    exists after it, and the re-encode ([subprocess.run]). *)
Record concat_env := ConcatEnv {
  fm_write_list : answer unit;
  fm_copy : answer child;
  fm_output_exists : bool;
  fm_reencode : answer unit
}.

(** The inner function [run(cmd)]: the exit code of the child. *)
Definition concat_run (spawn : answer child) : W Z :=
  process ← ext spawn;
  for_each (match stdout process with Some l => l | None => [] end)
    (fun line =>
       when (PyStr.contains "out_time_ms" line)
         (match PyStr.split_field1 "=" line with
          | Some field =>
              match PyStr.py_int field with
              | Some _ => q_put (ev_stage "Merging…")
              | None => pass
              end
          | None => pass
          end));;
  mret (exit_code process).

Definition ffmpeg_merge_with_progress (env : concat_env)
    (files : list string) (output_path : string) : W unit :=
  ext (fm_write_list env);;
  ret ← concat_run (fm_copy env);
  when (negb (ret =? 0)%Z || negb (fm_output_exists env))
    (q_put (ev_stage "Re-encoding for compatibility…");;
     ext (fm_reencode env));;
  q_put DONE.

(* ================================================================== *)
(** * Task launcher, streaming endpoint, stop endpoint *)
(* ================================================================== *)

(** A worker invocation: the target of a thread with its arguments and
    the answers the world will give it. *)
Inductive task :=
| UploadToPixeldrain (env : pixeldrain_env) (file_path filename : string)
| UploadTo4stream (env : fourstream_env) (file_path filename : string)
| UploadToGofile (env : gofile_env) (file_path filename : string)
| UploadFileDirectlyToPixeldrain (env : direct_upload_env) (url : string)
| EncodeFile (env : encode_env) (a : encode_args)
| DownloadFileDirectly (env : direct_env) (url : string)
    (upload_pixeldrain_direct upload_gofile_direct : bool)
    (username password : string)
| DownloadAndConvert (env : convert_env)
    (url video_id audio_id filename codec preset pass_mode bitrate crf
     audio_bitrate fps scale : string) (force_stereo is_muxed : bool)
    (upload_pixeldrain upload_gofile : bool)
    (aq_mode variance_boost tiles : string) (enable_vmaf use_cookies : bool)
| ManualMergeWorker (env : merge_env) (url video_id audio_id filename : string)
    (upload_pixeldrain upload_4stream upload_gofile : bool)
| FfmpegMergeWithProgress (env : concat_env) (files : list string)
    (output_path : string).

Definition run_task (t : task) : W unit :=
  match t with
  | UploadToPixeldrain env f n => upload_to_pixeldrain env f n
  | UploadTo4stream env f n => upload_to_4stream env f n
  | UploadToGofile env f n => upload_to_gofile env f n
  | UploadFileDirectlyToPixeldrain env u => upload_file_directly_to_pixeldrain env u
  | EncodeFile env a => encode_file env a
  | DownloadFileDirectly env u p g user pw =>
      download_file_directly env u p g user pw
  | DownloadAndConvert env u v a f c pr pm b cr ab fp sc fs im up ug aq vb ti ev uc =>
      download_and_convert env u v a f c pr pm b cr ab fp sc fs im up ug aq vb
        ti ev uc
  | ManualMergeWorker env u v a f p s g => manual_merge_worker env u v a f p s g
  | FfmpegMergeWithProgress env fs o => ffmpeg_merge_with_progress env fs o
  end.

(** The thread of a task, run to its end: how it ended is lost with the
    thread. *)
Definition thread (t : task) (s : state) : state := snd (run_task t s).

(** [start_task(target, args)] *)
Definition start_task (t : task) (s : state) : state :=
  thread t (set_session (<["task_active" := SBool true]> (session s)) s).

(** One message of the event stream: the text
    [f"data: {json.dumps(msg)}\n\n"]. *)
Inductive frame := Data (m : msg).

(** What the reader of the queue will find: each event with the seconds
    that pass, once the reader waits for it, until it is there. *)
Definition feed := list (nat * msg).

(** [progress_queue.get(timeout=t)]: [None] is [queue.Empty]. *)
Definition queue_get (timeout : nat) (f : feed) : option (msg * feed) :=
  match f with
  | (delay, m) :: rest =>
      if (delay <? timeout)%nat then Some (m, rest) else None
  | [] => None
  end.

(** How many more frames the client reads before it closes the
    connection ([None]: it stays). *)
Definition closes_now (client_reads : option nat) : bool :=
  match client_reads with
  | Some n => (n <=? 1)%nat
  | None => false
  end.

(** The generator of [progress_stream]: the frames it yields and what it
    leaves unread.  A client that closes the connection raises
    [GeneratorExit] at the [yield]. *)
Fixpoint generate (client_reads : option nat) (f : feed) : list frame * feed :=
  match f with
  | [] => ([], [])
  | (delay, m) :: rest =>
      if (delay <? 30)%nat then
        if is_terminal m || closes_now client_reads then ([Data m], rest)
        else
          let '(out, unread) := generate (Nat.pred <$> client_reads) rest in
          (Data m :: out, unread)
      else ([], f)
  end.

(** Events that already sit in the queue are there at once. *)
Definition queued (q : list msg) : feed := map (pair 0%nat) q.

(** [GET /progress] once the workers have stopped pushing. *)
Definition progress_stream (s : state) : list frame * state :=
  let '(out, unread) := generate None (queued (progress_queue s)) in
  (out, set_queue (map snd unread) s).

(** [jsonify({"status": ..., "message": ...}), code] *)
Record reply := Reply {
  reply_status : string;
  reply_message : string;
  http_code : Z
}.

(** [kill_result]: [current_process.kill()];
    [wait_result]: [current_process.wait(timeout=2)]. *)
Record stop_env := StopEnv {
  kill_result : answer unit;
  wait_result : answer unit
}.

(** One request to the operating system about a child. *)
Definition os_call (a : os_action) (r : answer unit) : W unit := fun s =>
  match r with
  | Ok _ => (Normal tt, add_os_action a s)
  | Fail e => (Raised e, add_os_action a s)
  end.

(** [session.pop('task_active', None)] *)
Definition session_pop (key : string) : W unit := fun s =>
  (Normal tt, set_session (delete key (session s)) s).

(** [POST /stop_encode].  The bookkeeping [session.modified = True] of the
    web framework is not modelled. *)
Definition stop_encode (env : stop_env) (s : state) : reply * state :=
  match current_process s with
  | Some p =>
      match returncode p with
      | None =>
          let body :=
            try_finally
              (try_except
                 (os_call (SendSignal (pid p) SIGKILL) (kill_result env);;
                  os_call (WaitExit (pid p) 2) (wait_result env))
                 (fun e => Some pass))
              (assign_current_process None;;
               session_pop "task_active") in
          (Reply "success" "Encoding process stopped." 200, snd (body s))
      | Some _ =>
          (Reply "error" "No active encoding process to stop." 400, s)
      end
  | None => (Reply "error" "No active encoding process to stop." 400, s)
  end.

(** [POST /stop_process] *)
Definition stop_process (env : stop_env) (s : state) : reply * state :=
  stop_encode env s.

(* ================================================================== *)
(** * Statements about runs *)
(* ================================================================== *)

Definition is_raised {A} (r : outcome A) : bool :=
  match r with Raised _ => true | _ => false end.

(** What a run may change: it appends [evs] to the history of pushes,
    the queue afterwards is an end part of the queue before followed by
    [evs] (events are only put at the back or dropped from the front),
    and the session and the OS requests are left alone. *)
Definition extends_by (s s' : state) (evs : list msg) : Prop :=
  pushed s' = pushed s ++ evs /\
  progress_queue s' `suffix_of` progress_queue s ++ evs /\
  session s' = session s /\ os_log s' = os_log s.

(** [w] always pushes a sequence of events that, with the way it ends,
    satisfies [P]. *)
Definition behaves {A} (P : outcome A -> list msg -> Prop) (w : W A) : Prop :=
  forall s, exists evs, extends_by s (snd (w s)) evs /\ P (fst (w s)) evs.

(** No error event unless the block ends by [return], and then one at most. *)
Definition safe_post {A} (r : outcome A) (evs : list msg) : Prop :=
  match r with
  | Returned => (count_error evs <= 1)%nat
  | _ => count_error evs = 0%nat
  end.

(** At most one error event, and none when the block raises. *)
Definition tail_post {A} (r : outcome A) (evs : list msg) : Prop :=
  (count_error evs <= 1)%nat /\ (is_raised r = true -> count_error evs = 0%nat).

(** At most one error event and no exception left. *)
Definition settled_post {A} (r : outcome A) (evs : list msg) : Prop :=
  (count_error evs <= 1)%nat /\ is_raised r = false.

(** Exactly one event, an error, and a normal end: an [except] clause. *)
Definition reports_post {A} (r : outcome A) (evs : list msg) : Prop :=
  (exists m, evs = [m] /\ has_error m = true) /\ (exists a, r = Normal a).

(** Nothing pushed, normal end. *)
Definition inert_post {A} (r : outcome A) (evs : list msg) : Prop :=
  evs = [] /\ exists a, r = Normal a.

(** The stream discipline of a finished worker: the last event pushed is
    the [DONE] sentinel, at most one error event came before it, and no
    exception escapes. *)
Definition closed_post {A} (r : outcome A) (evs : list msg) : Prop :=
  last evs = Some DONE /\ (count_error evs <= 1)%nat /\ is_raised r = false.

Definition Safe {A} (w : W A) : Prop := behaves safe_post w.
Definition Tail {A} (w : W A) : Prop := behaves tail_post w.
Definition Settled {A} (w : W A) : Prop := behaves settled_post w.
Definition Reports {A} (w : W A) : Prop := behaves reports_post w.
Definition Inert {A} (w : W A) : Prop := behaves inert_post w.
Definition Closed {A} (w : W A) : Prop := behaves closed_post w.

(** A task that is not chained to an upload: an upload worker itself, or a
    primary worker whose upload flags are all off. *)
Definition unchained (t : task) : bool :=
  match t with
  | UploadToPixeldrain _ _ _ | UploadTo4stream _ _ _ | UploadToGofile _ _ _
  | UploadFileDirectlyToPixeldrain _ _ => true
  | EncodeFile _ a =>
      negb (upload_pixeldrain a || upload_4stream a || upload_gofile a)
  | DownloadFileDirectly _ _ p g _ _ => negb (p || g)
  | DownloadAndConvert _ _ _ _ _ _ _ _ _ _ _ _ _ _ _ p g _ _ _ _ _ =>
      negb (p || g)
  | ManualMergeWorker _ _ _ _ _ p f g => negb (p || f || g)
  | FfmpegMergeWithProgress _ _ _ => true
  end.

Definition is_ok {A} (r : answer A) : bool :=
  match r with Ok _ => true | Fail _ => false end.

(** The task reaches its [try] block: the statements before it do not
    raise.  [ffmpeg_merge_with_progress] has no [try] block. *)
Definition reaches_try (t : task) : bool :=
  match t with
  | EncodeFile env _ => is_ok (ee_prepare env)
  | DownloadAndConvert env _ _ _ _ _ _ _ _ _ _ _ _ _ _ _ _ _ _ _ _ _ =>
      is_ok (dc_prepare env)
  | ManualMergeWorker env _ _ _ _ _ _ _ => is_ok (mm_prepare env)
  | FfmpegMergeWithProgress _ _ _ => false
  | _ => true
  end.

(** No error event at all. *)
Definition quiet_post {A} (r : outcome A) (evs : list msg) : Prop :=
  count_error evs = 0%nat.
Definition Quiet {A} (w : W A) : Prop := behaves quiet_post w.

(** The block ends by [return] and pushes no error event. *)
Definition leaves_post {A} (r : outcome A) (evs : list msg) : Prop :=
  r = Returned /\ count_error evs = 0%nat.
Definition Leaves {A} (w : W A) : Prop := behaves leaves_post w.

(** A [finally] block that pushes the sentinel and nothing else. *)
Definition sentinel_post (r : outcome unit) (evs : list msg) : Prop :=
  r = Normal tt /\ evs = [DONE].

(** No [DONE] sentinel among the events. *)
Definition mute_post {A} (r : outcome A) (evs : list msg) : Prop :=
  count_done evs = 0%nat.
Definition Mute {A} (w : W A) : Prop := behaves mute_post w.

(** Exactly one [DONE] sentinel among the events. *)
Definition once_post {A} (r : outcome A) (evs : list msg) : Prop :=
  count_done evs = 1%nat.

(** Any run that only appends to the history of pushes. *)
Definition framed_post {A} (r : outcome A) (evs : list msg) : Prop := True.
Definition Framed {A} (w : W A) : Prop := behaves framed_post w.

(** The events carried by the frames of a stream. *)
Definition events (out : list frame) : list msg :=
  map (fun fr => match fr with Data m => m end) out.

(** No line of a child's output is, once stripped, the text of the
    sentinel. *)
Definition no_done_line (c : answer child) : bool :=
  match c with
  | Ok p =>
      match stdout p with
      | Some lines =>
          forallb (fun l => negb (String.eqb (PyStr.strip l) "DONE")) lines
      | None => true
      end
  | Fail _ => true
  end.

(** The task pushes the sentinel from one place only: it takes no branch
    of [upload_to_4stream] or [upload_to_gofile] that pushes [DONE] before
    its [return], it does not run [encode_file] inside
    [download_and_convert], and no line of a child's output reads [DONE]. *)
Definition single_sentinel (t : task) : bool :=
  match t with
  | UploadToPixeldrain _ _ _ | UploadFileDirectlyToPixeldrain _ _ => true
  | UploadTo4stream env _ _ =>
      truthy_str (UP4STREAM_API_KEY env)
      && match fs_get_server env with
         | Ok sd => fs_server_ok sd
         | Fail _ => true
         end
  | UploadToGofile env _ _ =>
      truthy_str (GOFILE_API_TOKEN env)
      && match gf_get_server env with
         | Ok sd => gf_server_ok sd
         | Fail _ => true
         end
  | EncodeFile env _ => no_done_line (ee_popen env)
  | DownloadFileDirectly _ _ _ _ _ _ => true
  | DownloadAndConvert env _ _ _ _ c _ _ _ _ _ _ _ _ _ _ _ _ _ _ _ _ =>
      String.eqb c "none" && no_done_line (dc_ytdlp env)
  | ManualMergeWorker env _ _ _ _ _ _ _ => no_done_line (mm_ytdlp env)
  | FfmpegMergeWithProgress _ _ _ => false
  end.

(** No exception is left at the end of the run. *)
Definition calm_post {A} (r : outcome A) (evs : list msg) : Prop :=
  is_raised r = false.
Definition Calm {A} (w : W A) : Prop := behaves calm_post w.

(** After the run the queue holds only events the run itself pushed. *)
Definition Drained {A} (w : W A) : Prop :=
  forall s, exists evs,
    extends_by s (snd (w s)) evs /\ progress_queue (snd (w s)) `suffix_of` evs.

(** The task begins with [while not q.empty(): q.get()]. *)
Definition drains_first (t : task) : bool :=
  match t with
  | UploadToPixeldrain _ _ _ | UploadTo4stream _ _ _ | UploadToGofile _ _ _
  | FfmpegMergeWithProgress _ _ _ => false
  | _ => true
  end.

(* ================================================================== *)
(** * The numeric policy in the words of the specification *)
(* ================================================================== *)

(** The media time a token [time=HH:MM:SS.cc] stands for, in seconds:
    [3600*HH + 60*MM + SS + cc/100]. *)
Definition elapsed_media_time (HH MM SS cc : Z) : Q :=
  (3600 * inject_Z HH + 60 * inject_Z MM + inject_Z SS + inject_Z cc / 100)%Q.

(** [min(100, elapsed_media_time / total_duration * 100)] *)
Definition spec_time_percent (HH MM SS cc : Z) (total_duration : Q) : Q :=
  Qmin 100 (elapsed_media_time HH MM SS cc / total_duration * 100)%Q.

(* ================================================================== *)
(** * Scenarios *)
(* ================================================================== *)

Module Scenario.

(** Pixeldrain accepts the file. *)
Definition pixeldrain_up : pixeldrain_env :=
  PixeldrainEnv (Ok tt) (Ok (PixeldrainReply true "abc" "")).

(** The POST to Pixeldrain fails with a connection error. *)
Definition pixeldrain_down : pixeldrain_env :=
  PixeldrainEnv (Ok tt)
    (Fail (Exn RequestException "Connection aborted.")).

Definition fourstream_up : fourstream_env :=
  FourstreamEnv "2296uwbr9c715uy3qa8a" (Ok (FourstreamServer true ""))
    (Ok (FourstreamUpload true "fc1" "")).

(** [UP4STREAM_API_KEY] is empty (the environment variable held [key=]). *)
Definition fourstream_no_key : fourstream_env :=
  FourstreamEnv "" (Ok (FourstreamServer true ""))
    (Ok (FourstreamUpload true "fc1" "")).

Definition gofile_up : gofile_env :=
  GofileEnv "token" (Ok (GofileServer true "ok" (Ok "store1")))
    (Ok (GofileUpload "{...}" true "ok"
           (Ok (GofileFile "https://gofile.io/d/x"
                  (Some ("id1",
                         "https://store1.gofile.io/download/web/id1/out.mkv")))))).

(** An encoder that is never spawned: the codec is [none]. *)
Definition copy_env : encode_env :=
  EncodeEnv (Ok ("downloads/out.mkv", "out.mkv")) (Ok 10%Q) (Ok tt) (Ok tt)
    (Ok 2%Z) (Ok (Child 7 (Some []) 0)) pixeldrain_up fourstream_up gofile_up.

(** [encode_file] with codec [none] and both the Pixeldrain and the Gofile
    upload requested. *)
Definition copy_two_uploads : encode_args :=
  EncodeArgs "downloads/in.mp4" "out.mkv" "none" "7" "1-pass" "" "45" "32"
    "" "" true "1" "1" "2x2" false true false true.

(** The same with no upload requested, on a file that is not media. *)
Definition encode_text_file : encode_args :=
  EncodeArgs "downloads/notes.txt" "out.mkv" "av1" "7" "1-pass" "" "45" "32"
    "" "" true "1" "1" "2x2" false false false false.

(** The encoder binary is missing: [subprocess.Popen] raises
    [FileNotFoundError]. *)
Definition no_ffmpeg : concat_env :=
  ConcatEnv (Ok tt)
    (Fail (Exn OtherException "[Errno 2] No such file or directory: 'ffmpeg'"))
    false (Ok tt).

Definition merge_inputs : list string :=
  ["downloads/a.mp4"; "downloads/b.mp4"].

(** A response whose [content-length] is 40 (the length of the compressed
    body) and whose content, once decoded, is one chunk of 80 bytes. *)
Definition long_body : http_response :=
  HttpResponse 200 None "http://files.example/f.bin" (Some "40")
    ("downloads/f.bin", "f.bin") (Ok tt) [80%nat] None.

Definition long_body_env : direct_env :=
  DirectEnv (Fail (Exn OtherException "unused"))
    (fun _ => Ok long_body) (fun _ => Ok long_body)
    pixeldrain_up gofile_up.

Definition long_download : task :=
  DownloadFileDirectly long_body_env "http://files.example/f.bin"
    false false "" "".

(** A child that is still running, registered as [current_process]. *)
Definition live_process : popen := Popen 4242 None.

(** A child that has already exited with code 0. *)
Definition dead_process : popen := Popen 4242 (Some 0%Z).

Definition kill_works : stop_env := StopEnv (Ok tt) (Ok tt).

(** Ten output lines, one per second of a ten-second encode. *)
Definition ten_seconds : list string :=
  ["time=00:00:01.00"; "time=00:00:02.00"; "time=00:00:03.00";
   "time=00:00:04.00"; "time=00:00:05.00"; "time=00:00:06.00";
   "time=00:00:07.00"; "time=00:00:08.00"; "time=00:00:09.00";
   "time=00:00:10.00"].

(** An encoder whose child prints one progress line and exits with 1. *)
Definition failing_encoder : encode_env :=
  EncodeEnv (Ok ("downloads/out.mkv", "out.mkv")) (Ok 10%Q) (Ok tt) (Ok tt)
    (Ok 2%Z) (Ok (Child 7 (Some ["time=00:00:01.00"]) 1))
    pixeldrain_up fourstream_up gofile_up.

(** [encode_file] to AV1 with no upload requested. *)
Definition encode_av1 : encode_args :=
  EncodeArgs "downloads/in.mp4" "out.mkv" "av1" "7" "1-pass" "" "45" "32"
    "" "" true "1" "1" "2x2" false false false false.

(** A yt-dlp run that succeeds but leaves no file under the expected
    final path. *)
Definition merge_without_file : merge_env :=
  MergeEnv (Ok "downloads/v.mkv") "yt-dlp"
    (Ok (Child 9 (Some ["[download] 100% of 1.00MiB"]) 0)) false
    pixeldrain_up fourstream_up gofile_up.

(** A download followed by an encode to AV1 that succeeds. *)
Definition convert_av1 : convert_env :=
  ConvertEnv (Ok "downloads/v.mkv") "yt-dlp"
    (Ok (Child 9 (Some ["[download] 100% of 1.00MiB"]) 0))
    (Ok (Some "downloads/v.part.mkv")) (Ok tt) "downloads/v.mkv"
    (EncodeEnv (Ok ("downloads/v.mkv", "v.mkv")) (Ok 10%Q) (Ok tt) (Ok tt)
       (Ok 2%Z) (Ok (Child 7 (Some ["time=00:00:10.00"]) 0))
       pixeldrain_up fourstream_up gofile_up)
    true pixeldrain_up gofile_up.

End Scenario.

(* ================================================================== *)
(** * File names *)
(* ================================================================== *)

Module Names.
Import PyStr.

(** The character class of the first substitution of
    [get_safe_filename]: backslash, star, question mark, colon, double
    quote, the two angle brackets, bar. *)
Definition is_reserved (c : ascii) : bool :=
  existsb (Ascii.eqb c) ["\"; "*"; "?"; ":"; "034"; "<"; ">"; "|"]%char.

(** [re.sub] of that class by an underscore. *)
Fixpoint replace_reserved (part : string) : string :=
  match part with
  | String c r =>
      String (if is_reserved c then "_"%char else c) (replace_reserved r)
  | EmptyString => EmptyString
  end.

(** [re.sub(r'\s+', ' ', part)]; [in_run] tells that the character before
    was white space, already replaced. *)
Fixpoint squeeze (in_run : bool) (part : string) : string :=
  match part with
  | String c r =>
      if is_space c then
        if in_run then squeeze true r else String " " (squeeze true r)
      else String c (squeeze false r)
  | EmptyString => EmptyString
  end.

Definition get_safe_filename (name : string) : string :=
  let parts := Path.split "/" name in
  let safe_parts := map replace_reserved parts in
  let safe_parts := map (fun part => strip (squeeze false part)) safe_parts in
  String.concat "/" safe_parts.

(** Every character of [s] is in the class [f]. *)
Fixpoint every (f : ascii -> bool) (s : string) : bool :=
  match s with
  | String c r => f c && every f r
  | EmptyString => true
  end.

(** A character that is neither reserved nor white space. *)
Definition plain_char (c : ascii) : bool :=
  negb (is_reserved c) && negb (is_space c).

(** [s.rstrip()], by recursion from the left; [PyStr.strip] is [lstrip]
    followed by it (lemma [strip_split]). *)
Fixpoint rstrip (s : string) : string :=
  match s with
  | String c r =>
      match rstrip r with
      | EmptyString => if is_space c then EmptyString else String c EmptyString
      | r' => String c r'
      end
  | EmptyString => EmptyString
  end.

(** White space occurs in [s] only as single blanks; [after_space] tells
    that the character before [s] was white space. *)
Fixpoint spaced (after_space : bool) (s : string) : bool :=
  match s with
  | String c r =>
      if is_space c then negb after_space && Ascii.eqb c " " && spaced true r
      else spaced false r
  | EmptyString => true
  end.

(** [s] does not begin with white space. *)
Definition starts_clean (s : string) : bool :=
  match s with
  | String c _ => negb (is_space c)
  | EmptyString => true
  end.

(** What the two substitutions and the strip make of one component. *)
Definition safe_part (part : string) : string :=
  strip (squeeze false (replace_reserved part)).

End Names.

(* ================================================================== *)
(** * Paths *)
(* ================================================================== *)

(** The functions of [os.path] the program calls, as [posixpath] defines
    them. *)
Module OsPath.
Import PyStr Names.

Definition is_sep (c : ascii) : bool := Ascii.eqb c "/".

(** [os.path.join(a, b)] *)
Definition join (a b : string) : string :=
  if String.prefix "/" b then b
  else if negb (truthy_str a) || endswith a "/" then a +:+ b
  else a +:+ "/" +:+ b.

(** [head.rstrip('/')], on the reversed text. *)
Fixpoint drop_seps (s : string) : string :=
  match s with
  | String c r => if is_sep c then drop_seps r else s
  | EmptyString => EmptyString
  end.

(** [os.path.split(p)]: the text up to the last slash, without its
    trailing slashes unless it is slashes only, and the text after it. *)
Definition split (p : string) : string * string :=
  let '(rtail, rhead) := span (fun c => negb (is_sep c)) (rev p) in
  let head :=
    if every is_sep rhead then rev rhead else rev (drop_seps rhead) in
  (head, rev rtail).

(** [os.path.dirname(p)] *)
Definition dirname (p : string) : string := fst (split p).

(** [os.path.splitext(p)] *)
Definition splitext (p : string) : string * string :=
  let ext := Path.extension (Path.basename p) in
  (String.substring 0 (String.length p - String.length ext) p, ext).

(** One round of the loop of [normpath] over the components;
    [new_comps] is kept with its last component first. *)
Definition normpath_step (initial_slashes : nat) (new_comps : list string)
    (comp : string) : list string :=
  if String.eqb comp EmptyString || String.eqb comp "." then new_comps
  else if negb (String.eqb comp "..")
          || ((initial_slashes =? 0)%nat
              && match new_comps with [] => true | _ => false end)
          || match new_comps with
             | last :: _ => String.eqb last ".."
             | [] => false
             end
       then comp :: new_comps
       else match new_comps with
            | _ :: rest => rest
            | [] => []
            end.

Fixpoint slashes (n : nat) : string :=
  match n with
  | O => EmptyString
  | S k => String "/" (slashes k)
  end.

(** [os.path.normpath(path)] *)
Definition normpath (path : string) : string :=
  if String.eqb path EmptyString then "."
  else
    let initial_slashes :=
      if String.prefix "/" path then
        if String.prefix "//" path && negb (String.prefix "///" path)
        then 2%nat else 1%nat
      else 0%nat in
    let comps := Path.split "/" path in
    let new_comps :=
      List.rev (fold_left (normpath_step initial_slashes) comps []) in
    let path := slashes initial_slashes +:+ String.concat "/" new_comps in
    if String.eqb path EmptyString then "." else path.

(** [os.path.abspath(path)] in the working directory [cwd]. *)
Definition abspath (cwd path : string) : string :=
  normpath (if String.prefix "/" path then path else join cwd path).

(** A directory name: not empty, neither [.] nor [..], without slash. *)
Definition component (d : string) : bool :=
  negb (String.eqb d EmptyString) && negb (String.eqb d ".")
  && negb (String.eqb d "..")
  && every (fun c => negb (is_sep c)) d.

(** The absolute path whose components are [dirs]. *)
Definition rooted (dirs : list string) : string :=
  "/" +:+ String.concat "/" dirs.

End OsPath.

(* ================================================================== *)
(** * Unique file names and readable sizes *)
(* ================================================================== *)

Module Files.

(** [os.path.exists(p)]; [fs] holds the paths for which it is true. *)
Definition path_exists (fs : gset string) (p : string) : bool :=
  bool_decide (p ∈ fs).

(** [os.path.join(directory, f"{base}_{counter}{ext}")] *)
Definition numbered (directory base ext : string) (counter : nat) : string :=
  OsPath.join directory (base +:+ "_" +:+ pretty counter +:+ ext).

(** The [while] loop of [get_unique_filepath] from [counter] on; [None]
    when it is still running after [fuel] tests. *)
Fixpoint first_free (fuel : nat) (fs : gset string)
    (directory base ext : string) (counter : nat) : option string :=
  match fuel with
  | O => None
  | S k =>
      let new_filepath := numbered directory base ext counter in
      if path_exists fs new_filepath
      then first_free k fs directory base ext (S counter)
      else Some new_filepath
  end.

Definition get_unique_filepath (fuel : nat) (fs : gset string)
    (target_path : string) : option string :=
  if negb (path_exists fs target_path) then Some target_path
  else
    let '(directory, filename) := OsPath.split target_path in
    let '(base, ext) := OsPath.splitext filename in
    first_free fuel fs directory base ext 1.

(** The nearest integer, a tie going to the even neighbour. *)
Definition round_half_even (q : Q) : Z :=
  let f := Qfloor q in
  match (q - inject_Z f ?= 1 # 2)%Q with
  | Lt => f
  | Gt => (f + 1)%Z
  | Eq => if Z.even f then f else (f + 1)%Z
  end.

(** [f"{x:.2f}"] on an exact rational.  It is what Python prints for
    every value [human_size] computes from an integer below [2^53]:
    dividing a float by 1024 is exact. *)
Definition format_2f (x : Q) : string :=
  let h := round_half_even (Qabs x * 100) in
  let cents := (h mod 100)%Z in
  (if Qltb x 0 then "-" else EmptyString)
  +:+ pretty (h / 100)%Z +:+ "."
  +:+ (if (cents <? 10)%Z then "0" else EmptyString) +:+ pretty cents.

Definition power_labels : list string := ["B"; "KiB"; "MiB"; "GiB"; "TiB"].

(** [while size_bytes >= power and n < len(power_labels) - 1: ...]; the
    second test ends the loop after four rounds at the latest. *)
Fixpoint human_size_loop (rounds : nat) (size_bytes : Q) (n : nat) : Q * nat :=
  match rounds with
  | O => (size_bytes, n)
  | S k =>
      if Qle_bool 1024 size_bytes && (n <? length power_labels - 1)%nat
      then human_size_loop k (size_bytes / 1024) (S n)
      else (size_bytes, n)
  end.

(** [human_size(size_bytes)] on [None], on a value that is no number (for
    both stands [None]) and on a finite number. *)
Definition human_size (size_bytes : option Q) : string :=
  match size_bytes with
  | None => "0 B"
  | Some x =>
      if Qeq_bool x 0 then "0 B"
      else
        let '(v, n) := human_size_loop 4 x 0 in
        format_2f v +:+ " " +:+ nth n power_labels EmptyString
  end.

End Files.

(* ================================================================== *)
(** * The upload history of Gofile *)
(* ================================================================== *)

Module History.

Set Warnings "-register-all".

(** A JSON value as [json.load] gives it; an object keeps its keys in
    the order of the file. *)
Inductive json :=
| JNull
| JBool (b : bool)
| JNum (z : Z)
| JStr (s : string)
| JArr (items : list json)
| JObj (fields : list (string * json)).

Set Warnings "register-all".

(** [d.get(key)] *)
Fixpoint dict_get (key : string) (fields : list (string * json)) : json :=
  match fields with
  | [] => JNull
  | (k, v) :: rest => if String.eqb k key then v else dict_get key rest
  end.

(** What is at [GOFILE_HISTORY_FILE]: nothing, a file that [open] or
    [json.load] rejects, or a JSON document. *)
Inductive history_file :=
| Missing
| Unreadable
| Holds (j : json).

(** [gh_time]: [int(time.time())]; [gh_open_w]: opening the file for
    writing.  A failure while the new list is being written is not
    modelled. *)
Record history_env := HistoryEnv {
  gh_time : Z;
  gh_open_w : answer unit
}.

(** [any(item.get("link") == download_page for item in history)]: an item
    that is no object has no [get], which raises [AttributeError] if the
    scan reaches it. *)
Fixpoint any_link (download_page : string) (history : list json) : answer bool :=
  match history with
  | [] => Ok false
  | JObj d :: rest =>
      match dict_get "link" d with
      | JStr l =>
          if String.eqb l download_page then Ok true
          else any_link download_page rest
      | _ => any_link download_page rest
      end
  | _ :: _ => Fail (Exn OtherException "object has no attribute 'get'")
  end.

Definition history_entry (env : history_env) (filename download_page : string)
    (size : Z) (file_id direct_link : option string) : json :=
  JObj [("name", JStr filename);
        ("link", JStr download_page);
        ("id", JStr (match file_id with
                     | Some i => if truthy_str i then i
                                 else Path.basename download_page
                     | None => Path.basename download_page
                     end));
        ("direct_link", match direct_link with
                        | Some l => JStr l
                        | None => JNull
                        end);
        ("size", JNum size);
        ("createTime", JNum (gh_time env));
        ("type", JStr "file")].

(** [save_to_gofile_history]: the file afterwards.  Every exception is
    caught and printed, so the file is then as it was; a document that
    is no list raises one before anything is written. *)
Definition save_to_gofile_history (env : history_env) (file : history_file)
    (filename download_page : string) (size : Z)
    (file_id direct_link : option string) : history_file :=
  let save (history : list json) :=
    match any_link download_page history with
    | Ok false =>
        match gh_open_w env with
        | Ok _ =>
            Holds (JArr (firstn 100
              (history_entry env filename download_page size file_id direct_link
               :: history)))
        | Fail _ => file
        end
    | Ok true => file
    | Fail _ => file
    end in
  match file with
  | Missing => save []
  | Unreadable => file
  | Holds (JArr history) => save history
  | Holds _ => file
  end.

(** The link of an item that is an object with a text under [link]. *)
Definition link_of (item : json) : option string :=
  match item with
  | JObj d => match dict_get "link" d with JStr l => Some l | _ => None end
  | _ => None
  end.

(** A history as the function itself writes it: at most 100 records,
    each an object with a link, no link twice. *)
Definition orderly (file : history_file) : Prop :=
  match file with
  | Missing => True
  | Holds (JArr history) =>
      (length history <= 100)%nat /\
      exists links, mapM link_of history = Some links /\ NoDup links
  | _ => False
  end.

End History.

(* ================================================================== *)
(** * The alternate upload workers *)
(* ================================================================== *)

(** The callers pass [progress_queue] for [q]; [api_key] only enters
    the request, which [pd_post] stands for. *)
Definition upload_to_pixeldrain_alt (env : pixeldrain_env)
    (file_path filename api_key : string) : W unit :=
  try_finally
    (try_except
       (q_put (ev_progress ("Uploading '" +:+ filename +:+ "' to Pixeldrain 2...") 10);;
        ext (pd_open env);;
        q_put (ev_progress "Sending data..." 50);;
        result ← ext (pd_post env);
        if pd_success result then
          let pixeldrain_url := "https://pixeldrain.com/u/" +:+ pd_id result in
          q_put (ev_progress "✅ Pixeldrain 2 Upload Complete!" 100);;
          q_put (ev_result ("Success! Link: " +:+ pixeldrain_url) pixeldrain_url)
        else
          q_put (ev_error ("Pixeldrain 2 API error: " +:+ pd_message result)))
       (fun e => Some (q_put (ev_error ("Pixeldrain 2 upload failed: " +:+ str e)))))
    (q_put DONE).

(** The answers of the world to [upload_to_4stream_alt], as those of
    [fourstream_env]; the key is an argument of that function. *)
Record fourstream_alt_env := FourstreamAltEnv {
  fsa_get_server : answer fourstream_server;
  fsa_post : answer fourstream_upload
}.

Definition upload_to_4stream_alt (env : fourstream_alt_env)
    (file_path filename api_key : string) : W unit :=
  try_finally
    (try_except
       (when (negb (truthy_str api_key))
          (q_put (ev_error "4stream 2 API key not configured");;
           q_put DONE;;
           return_);;
        q_put (ev_progress "Getting upload server..." 10);;
        server_data ← ext (fsa_get_server env);
        when (negb (fs_server_ok server_data))
          (q_put (ev_error ("Failed to get upload server: "
                            +:+ fs_server_msg server_data));;
           q_put DONE;;
           return_);;
        q_put (ev_progress "Got upload server, uploading file..." 30);;
        upload_result ← ext (fsa_post env);
        if fs_upload_ok upload_result then
          let file_url :=
            "https://up4stream.com/" +:+ fs_filecode upload_result +:+ ".html" in
          q_put (ev_progress "✅ 4stream 2 Upload Complete!" 100);;
          q_put (ev_result ("Success! File uploaded to 4stream 2: " +:+ filename)
                           file_url)
        else
          q_put (ev_error ("Upload failed: " +:+ fs_upload_msg upload_result)))
       (fun e =>
          if is_Timeout e then
            Some (q_put (ev_error
              "Upload timeout - file may be too large or connection is slow"))
          else if is_RequestException e then
            Some (q_put (ev_error ("Upload request failed: " +:+ str e)))
          else
            Some (q_put (ev_error ("4stream 2 upload failed: " +:+ str e)))))
    (q_put DONE).

(* ================================================================== *)
(** * File routes *)
(* ================================================================== *)

Module Routes.
Import Files.

(** Where the file routes run: [os.getcwd()], which is also the
    directory the program was started in, the paths for which
    [os.path.exists] holds and those for which [os.path.isdir] holds. *)
Record site := Site {
  getcwd : string;
  disk : gset string;
  folders : gset string
}.

Definition DOWNLOAD_FOLDER (st : site) : string :=
  OsPath.join (getcwd st) "downloads".

(** [os.path.abspath(full_path).startswith(os.path.abspath(DOWNLOAD_FOLDER))],
    the test the file routes write out before they touch a path. *)
Definition under_download_folder (st : site) (full_path : string) : bool :=
  String.prefix (OsPath.abspath (getcwd st) (DOWNLOAD_FOLDER st))
                (OsPath.abspath (getcwd st) full_path).

(** [os.path.isfile(p)] *)
Definition path_isfile (st : site) (p : string) : bool :=
  path_exists (disk st) p && negb (bool_decide (p ∈ folders st)).

(** The thread of [POST /batch_upload_pixeldrain]: each selected path
    comes with the answers the world gives to its upload. *)
Definition batch_upload_worker (st : site)
    (files : list (string * pixeldrain_env)) : W unit :=
  for_each files (fun '(filepath, env) =>
    let full_path := OsPath.join (DOWNLOAD_FOLDER st) filepath in
    if negb (under_download_folder st full_path) then pass
    else if negb (path_exists (disk st) full_path) then pass
    else
      let filename := Path.basename filepath in
      q_put (ev_log ("Uploading: " +:+ filename));;
      try_except
        (call (upload_to_pixeldrain env full_path filename))
        (fun e => Some (q_put (ev_error ("Error uploading " +:+ filename
                                          +:+ ": " +:+ str e))))).

(** The selected paths that pass the two tests of that loop. *)
Definition uploadable (st : site) (filepath : string) : bool :=
  let full_path := OsPath.join (DOWNLOAD_FOLDER st) filepath in
  under_download_folder st full_path && path_exists (disk st) full_path.

(** The state after [evs] were put into the queue. *)
Definition push_all (evs : list msg) (s : state) : state :=
  set_pushed (pushed s ++ evs) (set_queue (progress_queue s ++ evs) s).

(** What a file route asks of the operating system: [shutil.rmtree] or
    [os.remove]. *)
Inductive disk_request :=
| Rmtree (path : string)
| Remove (path : string).

(** The answer of [POST /delete/<filepath>]: the message it flashes, what
    it asked of the disk, the text it leaves under the session key
    [last_deleted_file], and the folder whose listing it redirects to. *)
Record deletion := Deletion {
  del_flash : option (string * string);
  del_request : option disk_request;
  del_session : option string;
  del_redirect : string
}.

(** [removal] is what [shutil.rmtree] or [os.remove] answers. *)
Definition delete_file (st : site) (removal : answer unit)
    (filepath : string) : deletion :=
  let full_path := OsPath.join (DOWNLOAD_FOLDER st) filepath in
  let current_path := OsPath.dirname filepath in
  if negb (under_download_folder st full_path) then
    Deletion (Some ("Invalid path specified.", "error")) None None current_path
  else if path_exists (disk st) full_path then
    let isdir := bool_decide (full_path ∈ folders st) in
    let request := if isdir then Rmtree full_path else Remove full_path in
    match removal with
    | Ok _ =>
        Deletion None (Some request)
          (Some (if isdir then filepath +:+ "/" else filepath)) current_path
    | Fail e =>
        Deletion (Some ("Error deleting item: " +:+ str e, "error"))
          (Some request) None current_path
    end
  else Deletion (Some ("Item not found.", "error")) None None current_path.

(** The answer of [POST /merge_files]: [jsonify({"error": ...}), 400] or
    [jsonify({"started": True})]. *)
Inductive merge_reply :=
| MergeRefused (error : string) (code : Z)
| MergeStarted.

(** [files] is [data.get("files", [])] and [output] the result of
    [secure_filename(data.get("output", "merged.mp4"))]; the warning the
    route logs for a skipped input is not modelled.  The route starts
    the thread itself, without [start_task], so it does not set the
    session key [task_active]; the thread is run to its end, as the
    threads of [start_task] are. *)
Definition merge_files_route (st : site) (env : concat_env)
    (files : list string) (output : string) (s : state) : merge_reply * state :=
  if (length files <? 2)%nat then
    (MergeRefused "Select at least 2 files" 400, s)
  else
    let valid_files :=
      List.filter (path_isfile st)
        (map (OsPath.join (DOWNLOAD_FOLDER st)) files) in
    if (length valid_files <? 2)%nat then
      (MergeRefused "Invalid file selection" 400, s)
    else
      (MergeStarted,
       thread (FfmpegMergeWithProgress env valid_files
                 (OsPath.join (DOWNLOAD_FOLDER st) output)) s).

(** The answer of [POST /upload_direct]: the message [No file selected]
    with the redirect to the index, the exception of [file.save] (it
    leaves the view), or the page of the upload that was started, with
    its title. *)
Inductive upload_answer :=
| UploadNoFile
| UploadFailed (e : exn)
| UploadStarted (operation_title : string).

(** The answer, the path [file.save] wrote if it did, and the state of
    the server afterwards. *)
Record upload_result := UploadResult {
  ur_answer : upload_answer;
  ur_saved : option string;
  ur_state : state
}.

(** [file] is the file name of [request.files['file']], as the client
    sent it ([None] when the form has no such field); [save] is what
    [file.save(save_path)] answers and [env] what the upload of the
    saved file meets.  The result is [None] when the search of
    [get_unique_filepath] is still running after [fuel] tests. *)
Definition upload_direct (fuel : nat) (st : site) (env : pixeldrain_env)
    (file : option string) (save : answer unit) (s : state)
    : option upload_result :=
  match file with
  | Some file_filename =>
      if truthy_str file_filename then
        let filename := Names.get_safe_filename file_filename in
        match get_unique_filepath fuel (disk st)
                (OsPath.join (DOWNLOAD_FOLDER st) filename) with
        | Some save_path =>
            match save with
            | Ok _ =>
                Some (UploadResult
                        (UploadStarted ("Uploading: " +:+ filename))
                        (Some save_path)
                        (start_task
                           (UploadToPixeldrain env save_path
                              (Path.basename save_path)) s))
            | Fail e => Some (UploadResult (UploadFailed e) None s)
            end
        | None => None
        end
      else Some (UploadResult UploadNoFile None s)
  | None => Some (UploadResult UploadNoFile None s)
  end.

End Routes.

(* ================================================================== *)
(** * The merge of files, followed on the disk *)
(* ================================================================== *)

Module MergeFiles.
Import Files.

(** The two commands [ffmpeg_merge_with_progress] can launch; both read
    their inputs from the list file. *)
Inductive command := CmdCopy | CmdReencode.

(** What the world answers to one merge, where the files are concerned.
    - [md_open_list]: opening the list file for writing.
    - [md_copy]: [subprocess.Popen(cmd_copy, ...)].
    - [md_copy_writes]: whether the copy merge leaves a file at
      [output_path].
    - [md_remove]: [os.remove(list_file)]. *)
Record disk_env := DiskEnv {
  md_open_list : answer unit;
  md_copy : answer child;
  md_copy_writes : bool;
  md_remove : answer unit
}.

(** The end of the merge as the disk sees it: the exception that left
    the function, if any, the files that exist then, and each command
    launched with the files that existed when it started. *)
Record merged := Merged {
  mg_raised : option exn;
  mg_disk : gset string;
  mg_launched : list (command * gset string)
}.

(** [ffmpeg_merge_with_progress] followed on the disk; [list_file] is
    [os.path.join(DOWNLOAD_FOLDER, "merge_list.txt")].  The inner
    function [run] removes the list file once the copy merge has ended. *)
Definition ffmpeg_merge_on_disk (env : disk_env) (list_file output_path : string)
    (disk : gset string) : merged :=
  match md_open_list env with
  | Fail e => Merged (Some e) disk []
  | Ok _ =>
      let disk := {[list_file]} ∪ disk in
      match md_copy env with
      | Fail e => Merged (Some e) disk []
      | Ok process =>
          let launched := [(CmdCopy, disk)] in
          let disk :=
            if md_copy_writes env then {[output_path]} ∪ disk else disk in
          let ret := exit_code process in
          let removed :=
            if path_exists disk list_file
            then match md_remove env with
                 | Ok _ => Ok (disk ∖ {[list_file]})
                 | Fail e => Fail e
                 end
            else Ok disk in
          match removed with
          | Fail e => Merged (Some e) disk launched
          | Ok disk =>
              if negb (ret =? 0)%Z || negb (path_exists disk output_path)
              then Merged None disk (launched ++ [(CmdReencode, disk)])
              else Merged None disk launched
          end
      end
  end.

End MergeFiles.

(* ================================================================== *)
(** * Signing in and out *)
(* ================================================================== *)

Module Web.

(** The session cookie and the messages flashed and not yet shown (the
    web framework keeps them in the session, so [session.clear()] drops
    them as well). *)
Record browser := Browser {
  cookies : gmap string session_value;
  flashes : list (string * string)
}.

Record request := Request {
  method : string;
  form_username : option string;
  form_password : option string;
  args_next : option string;
  url : string
}.

(** [url_for(endpoint, **values)], or a text used as a URL as it is. *)
Inductive location :=
| UrlFor (endpoint : string) (values : list (string * string))
| Url (text : string).

(** [redirect(...)], or a rendered page with the flashed messages it
    shows. *)
Inductive response :=
| Redirect (target : location)
| Render (page : string) (shown : list (string * string)).

Definition ADMIN_USERNAME : string := "admin".

(** The truth value of [session.get(key)]. *)
Definition session_truthy (v : option session_value) : bool :=
  match v with
  | Some (SBool b) => b
  | Some (SStr s) => truthy_str s
  | None => false
  end.

Definition handler := request -> browser -> response * browser.

(** The decorator [login_required]. *)
Definition login_required (f : handler) : handler := fun r b =>
  if negb (session_truthy (cookies b !! "authenticated"))
  then (Redirect (UrlFor "login" [("next", url r)]), b)
  else f r b.

(** [/login]; [session.permanent = True] stores the key [_permanent]. *)
Definition login (APP_PASSWORD : string) : handler := fun r b =>
  if String.eqb (method r) "POST" then
    if bool_decide (form_username r = Some ADMIN_USERNAME)
       && bool_decide (form_password r = Some APP_PASSWORD)
    then
      (Redirect (match args_next r with
                 | Some next_page =>
                     if truthy_str next_page then Url next_page
                     else UrlFor "index" []
                 | None => UrlFor "index" []
                 end),
       Browser (<["_permanent" := SBool true]>
                  (<["authenticated" := SBool true]> (cookies b)))
               (flashes b))
    else
      (Render "login"
         (flashes b ++ [("❌ Invalid username or password", "error")]),
       Browser (cookies b) [])
  else (Render "login" (flashes b), Browser (cookies b) []).

(** [/logout] *)
Definition logout : handler := fun r b =>
  (Redirect (UrlFor "login" []),
   Browser ∅ [("✅ You have been logged out", "info")]).

End Web.

(* ================================================================== *)
(** * Settings read at start-up *)
(* ================================================================== *)

Module Config.

(** [s.split(sep)] for a separator of one character or more: the pieces
    between the occurrences found from the left; [skip] characters of an
    occurrence are still to be passed over. *)
Fixpoint split_from (skip : nat) (sep s : string) : list string :=
  match s with
  | EmptyString => [EmptyString]
  | String c r =>
      match skip with
      | S k => split_from k sep r
      | O =>
          if String.prefix sep s
          then EmptyString :: split_from (String.length sep - 1) sep r
          else
            match split_from 0 sep r with
            | p :: ps => String c p :: ps
            | [] => [String c EmptyString]
            end
      end
  end.

(** The statements that set a 4stream key: the variable of the
    environment ([None] when it is not set) or the built-in key, then
    the text after the last [key=] if there is one. *)
Definition api_key_from (variable : option string) (built_in : string) : string :=
  let _api_key_raw :=
    match variable with
    | Some v => if truthy_str v then v else built_in
    | None => built_in
    end in
  if PyStr.contains "key=" _api_key_raw
  then List.last (split_from 0 "key=" _api_key_raw) EmptyString
  else _api_key_raw.

Definition UP4STREAM_API_KEY (variable : option string) : string :=
  api_key_from variable "2296uwbr9c715uy3qa8a".

Definition UP4STREAM_API_KEY_ALT (variable : option string) : string :=
  api_key_from variable "2295agj14qkpmobx282y".

End Config.

(* ================================================================== *)
(** * The pinger ([src/ping.py]) *)
(* ================================================================== *)

Module Ping.

(** What the pinger does that can be seen: a line on the standard output
    or a pause. *)
Inductive action :=
| Print (line : string)
| Sleep (seconds : Z).

(** [PORT = os.environ.get("PORT", 9000)] inside the f-string. *)
Definition APP_URL (port : option string) : string :=
  "http://localhost:" +:+ match port with Some p => p | None => "9000" end.

(** One round of the loop: [get] is what [requests.get] answers (the
    status code), [now] is [time.ctime()].  An exception that is no
    [RequestException] leaves the loop. *)
Definition ping_once (app_url : string) (get : answer Z) (now : string)
    : option exn * list action :=
  match get with
  | Ok status_code =>
      (None,
       [Print (if (status_code =? 200)%Z
               then "Ping to " +:+ app_url +:+ "/health successful at " +:+ now
               else "Ping to " +:+ app_url
                    +:+ "/health failed with status code "
                    +:+ pretty status_code +:+ " at " +:+ now);
        Sleep 300])
  | Fail e =>
      if is_RequestException e
      then (None, [Print ("An error occurred: " +:+ str e +:+ " at " +:+ now);
                   Sleep 300])
      else (Some e, [])
  end.

(** The rounds [first], [first + 1], ... of [while True], [rounds] of
    them at most. *)
Fixpoint ping_loop (app_url : string) (net : nat -> answer Z)
    (clock : nat -> string) (first rounds : nat) : option exn * list action :=
  match rounds with
  | O => (None, [])
  | S k =>
      match ping_once app_url (net first) (clock first) with
      | (None, done) =>
          let '(e, more) := ping_loop app_url net clock (S first) k in
          (e, done ++ more)
      | (Some e, done) => (Some e, done)
      end
  end.

(** [ping_app()] watched for [rounds] rounds: the exception that ended
    it, if any, and what it did. *)
Definition ping_app (port : option string) (net : nat -> answer Z)
    (clock : nat -> string) (rounds : nat) : option exn * list action :=
  let app_url := APP_URL port in
  let '(e, done) := ping_loop app_url net clock 0 rounds in
  (e, Print ("Starting ping service for " +:+ app_url) :: done).

Definition is_print (a : action) : bool :=
  match a with Print _ => true | Sleep _ => false end.

(** The seconds slept in all. *)
Definition slept (l : list action) : Z :=
  fold_right (fun a t => match a with Sleep n => (n + t)%Z | Print _ => t end)
             0%Z l.

(** [get] is a reply, or a failure of the request itself. *)
Definition reachable_or_request_error (get : answer Z) : bool :=
  match get with
  | Ok _ => true
  | Fail e => is_RequestException e
  end.

End Ping.

(* ================================================================== *)
(** * Runs that cannot be told apart *)
(* ================================================================== *)

Definition same_run {A} (w w' : W A) : Prop := forall s, w s = w' s.

(** The answers of the world that differ from [env] only in what the
    fallback credentials meet. *)
Definition with_fallback_get (env : direct_env)
    (fallback : nat -> answer http_response) : direct_env :=
  DirectEnv (df_token env) (df_get env) fallback
    (df_pixeldrain env) (df_gofile env).

(** The answers of the world that differ from [env] only in the replies
    of the redirect chain. *)
Definition with_get (env : direct_env) (get : nat -> answer http_response)
    : direct_env :=
  DirectEnv (df_token env) get (df_fallback_get env)
    (df_pixeldrain env) (df_gofile env).

(* ================================================================== *)
(** * Sample surroundings *)
(* ================================================================== *)

Module Sample.
Import Routes.

(** The program runs in [/home/runner/app]; next to its [downloads]
    folder lies [downloads_old]. *)
Definition home : list string := ["home"; "runner"; "app"].

Definition old_copy : string :=
  "/home/runner/app/downloads/../downloads_old".

Definition server : site :=
  Site "/home/runner/app"
       {[ "/home/runner/app/downloads/a.mp4";
          "/home/runner/app/downloads/b.mp4";
          "/etc/hostname"; "/etc/hosts";
          old_copy ]}
       {[ old_copy ]}.

(** Two files of the folder, both accepted by Pixeldrain. *)
Definition two_files : list (string * pixeldrain_env) :=
  [("a.mp4", Scenario.pixeldrain_up); ("b.mp4", Scenario.pixeldrain_up)].

(** A copy merge that fails: the child exits with 1 and writes nothing. *)
Definition failing_copy : MergeFiles.disk_env :=
  MergeFiles.DiskEnv (Ok tt) (Ok (Child 11 (Some []) 1)) false (Ok tt).

(** A sign-in with the right password. *)
Definition sign_in : Web.request :=
  Web.Request "POST" (Some "admin") (Some "1234") None "/login".

Definition visit : Web.request :=
  Web.Request "GET" None None None "/files/".

Definition nobody : Web.browser := Web.Browser ∅ [].

(** The server answers 200, then the connection is refused. *)
Definition flaky (i : nat) : answer Z :=
  match i with
  | O => Ok 200%Z
  | _ => Fail (Exn RequestException "Connection refused")
  end.

(** A download behind a password the user supplies. *)
Definition guarded_env : direct_env :=
  DirectEnv (Fail (Exn OtherException "unused"))
    (fun _ => Ok (HttpResponse 401 None "http://files.example/f.bin" None
                    ("downloads/f.bin", "f.bin") (Ok tt) [] None))
    (fun _ => Ok Scenario.long_body)
    Scenario.pixeldrain_up Scenario.gofile_up.

End Sample.

(* ================================================================== *)
(** * Rules for reasoning about runs *)
(* ================================================================== *)

Lemma count_error_app (l1 l2 : list msg) :
  count_error (l1 ++ l2) = (count_error l1 + count_error l2)%nat.
Proof. unfold count_error. now rewrite List.filter_app, length_app. Qed.

Lemma count_done_app (l1 l2 : list msg) :
  count_done (l1 ++ l2) = (count_done l1 + count_done l2)%nat.
Proof. unfold count_done. now rewrite List.filter_app, length_app. Qed.

Lemma extends_by_refl (s : state) : extends_by s s [].
Proof. unfold extends_by. now rewrite !app_nil_r. Qed.

Lemma extends_by_trans (s1 s2 s3 : state) (e1 e2 : list msg) :
  extends_by s1 s2 e1 -> extends_by s2 s3 e2 -> extends_by s1 s3 (e1 ++ e2).
Proof.
  unfold extends_by. intros (H1 & Q1 & H2 & H3) (H4 & Q2 & H5 & H6).
  rewrite H4, H1, H5, H2, H6, H3, !app_assoc. repeat split; auto.
  etrans; [exact Q2|]. now apply suffix_app.
Qed.

Lemma behaves_weaken {A} (P Q : outcome A -> list msg -> Prop) (w : W A) :
  (forall r evs, P r evs -> Q r evs) -> behaves P w -> behaves Q w.
Proof.
  intros HPQ Hw s. destruct (Hw s) as (evs & Hext & HP). eauto.
Qed.

Lemma behaves_ret {A} (P : outcome A -> list msg -> Prop) (a : A) :
  P (Normal a) [] -> behaves P (mret a).
Proof. intros HP s. exists []. split; [apply extends_by_refl | exact HP]. Qed.

Lemma behaves_raise {A} (P : outcome A -> list msg -> Prop) (e : exn) :
  P (Raised e) [] -> behaves P (raise e).
Proof. intros HP s. exists []. split; [apply extends_by_refl | exact HP]. Qed.

Lemma behaves_return {A} (P : outcome A -> list msg -> Prop) :
  P Returned [] -> behaves P return_.
Proof. intros HP s. exists []. split; [apply extends_by_refl | exact HP]. Qed.

Lemma behaves_put (P : outcome unit -> list msg -> Prop) (m : msg) :
  P (Normal tt) [m] -> behaves P (q_put m).
Proof. intros HP s. exists [m]. split; [now unfold extends_by | exact HP]. Qed.

Lemma behaves_drain (P : outcome unit -> list msg -> Prop) :
  P (Normal tt) [] -> behaves P q_drain.
Proof.
  intros HP s. exists []. split; [|exact HP].
  unfold extends_by; simpl. rewrite !app_nil_r. repeat split.
  apply suffix_nil.
Qed.

Lemma behaves_assign (P : outcome unit -> list msg -> Prop) (p : option popen) :
  P (Normal tt) [] -> behaves P (assign_current_process p).
Proof.
  intros HP s. exists []. split; [|exact HP].
  unfold extends_by; simpl. now rewrite !app_nil_r.
Qed.

Lemma behaves_ext {A} (P : outcome A -> list msg -> Prop) (r : answer A) :
  (forall a, P (Normal a) []) -> (forall e, P (Raised e) []) ->
  behaves P (ext r).
Proof.
  intros H1 H2. destruct r; [apply behaves_ret | apply behaves_raise]; auto.
Qed.

Lemma behaves_bind {A B} (P1 : outcome A -> list msg -> Prop)
    (P2 P : outcome B -> list msg -> Prop) (w : W A) (f : A -> W B) :
  behaves P1 w ->
  (forall a, behaves P2 (f a)) ->
  (forall a e1 r e2, P1 (Normal a) e1 -> P2 r e2 -> P r (e1 ++ e2)) ->
  (forall e1, P1 Returned e1 -> P Returned e1) ->
  (forall x e1, P1 (Raised x) e1 -> P (Raised x) e1) ->
  behaves P (w ≫= f).
Proof.
  intros Hw Hf Hn Hr Hx s. unfold mbind, W_bind.
  destruct (Hw s) as (e1 & Hext1 & HP1).
  destruct (w s) as [[a | | x] s1]; simpl in *.
  - destruct (Hf a s1) as (e2 & Hext2 & HP2).
    exists (e1 ++ e2). split; [eapply extends_by_trans; eauto | eauto].
  - exists e1. eauto.
  - exists e1. eauto.
Qed.

Lemma behaves_call (P Q : outcome unit -> list msg -> Prop) (w : W unit) :
  behaves P w ->
  (forall evs, P (Normal tt) evs -> Q (Normal tt) evs) ->
  (forall evs, P Returned evs -> Q (Normal tt) evs) ->
  (forall x evs, P (Raised x) evs -> Q (Raised x) evs) ->
  behaves Q (call w).
Proof.
  intros Hw Hn Hr Hx s. unfold call.
  destruct (Hw s) as (evs & Hext & HP). exists evs.
  destruct (w s) as [[[] | | x] s1]; simpl in *; auto.
Qed.

Lemma behaves_try_except {A} (P H Q : outcome A -> list msg -> Prop)
    (body : W A) (handler : exn -> option (W A)) :
  behaves P body ->
  (forall e h, handler e = Some h -> behaves H h) ->
  (forall a evs, P (Normal a) evs -> Q (Normal a) evs) ->
  (forall evs, P Returned evs -> Q Returned evs) ->
  (forall x evs, handler x = None -> P (Raised x) evs -> Q (Raised x) evs) ->
  (forall x e1 r e2, P (Raised x) e1 -> H r e2 -> Q r (e1 ++ e2)) ->
  behaves Q (try_except body handler).
Proof.
  intros Hb Hh Hn Hr Hx Hc s. unfold try_except.
  destruct (Hb s) as (e1 & Hext1 & HP1).
  destruct (body s) as [[a | | x] s1]; simpl in *.
  - exists e1. auto.
  - exists e1. auto.
  - destruct (handler x) as [h|] eqn:E.
    + destruct (Hh x h E s1) as (e2 & Hext2 & HP2).
      exists (e1 ++ e2). split; [eapply extends_by_trans; eauto | eauto].
    + exists e1. split; [assumption | now apply Hx].
Qed.

Lemma behaves_try_finally {A} (P Q : outcome A -> list msg -> Prop)
    (F : outcome unit -> list msg -> Prop) (body : W A) (fin : W unit) :
  behaves P body ->
  behaves F fin ->
  (forall r e1 e2, P r e1 -> F (Normal tt) e2 -> Q r (e1 ++ e2)) ->
  (forall r e1 e2, P r e1 -> F Returned e2 -> Q Returned (e1 ++ e2)) ->
  (forall r x e1 e2, P r e1 -> F (Raised x) e2 -> Q (Raised x) (e1 ++ e2)) ->
  behaves Q (try_finally body fin).
Proof.
  intros Hb Hf Hn Hr Hx s. unfold try_finally.
  destruct (Hb s) as (e1 & Hext1 & HP1).
  destruct (body s) as [r s1]; simpl in *.
  destruct (Hf s1) as (e2 & Hext2 & HP2).
  destruct (fin s1) as [[[] | | x] s2]; simpl in *;
    (exists (e1 ++ e2); split; [eapply extends_by_trans; eauto | eauto]).
Qed.

Lemma behaves_for_each {A} (P : outcome unit -> list msg -> Prop)
    (l : list A) (body : A -> W unit) :
  P (Normal tt) [] ->
  (forall x, behaves P (body x)) ->
  (forall e1 r e2, P (Normal tt) e1 -> P r e2 -> P r (e1 ++ e2)) ->
  behaves P (for_each l body).
Proof.
  intros H0 Hb Hc. induction l as [|x l IH]; simpl.
  - now apply behaves_ret.
  - eapply behaves_bind with (P1 := P) (P2 := P); eauto.
    intros []; eauto.
Qed.

(** ** The error discipline of the workers *)

Lemma count_error_one (m : msg) :
  count_error [m] = if has_error m then 1%nat else 0%nat.
Proof. unfold count_error. simpl. now destruct (has_error m). Qed.

Ltac post :=
  unfold safe_post, tail_post, settled_post, quiet_post, inert_post,
         reports_post, closed_post, leaves_post, sentinel_post, mute_post,
         framed_post in *.

Lemma Quiet_bind {A B} (w : W A) (f : A -> W B) :
  Quiet w -> (forall a, Quiet (f a)) -> Quiet (w ≫= f).
Proof.
  intros Hw Hf. eapply behaves_bind; eauto; post; intros; auto.
  rewrite count_error_app. lia.
Qed.

Lemma Safe_bind {A B} (w : W A) (f : A -> W B) :
  Safe w -> (forall a, Safe (f a)) -> Safe (w ≫= f).
Proof.
  intros Hw Hf. eapply behaves_bind; eauto; post; intros; auto.
  rewrite count_error_app. destruct r; lia.
Qed.

Lemma Tail_bind {A B} (w : W A) (f : A -> W B) :
  Safe w -> (forall a, Tail (f a)) -> Tail (w ≫= f).
Proof.
  intros Hw Hf. eapply behaves_bind; eauto; post; simpl; intros.
  - rewrite count_error_app. destruct H0 as [H0 H1]. split; [lia|].
    intros Hr. specialize (H1 Hr). lia.
  - split; [lia | discriminate].
  - split; [lia | auto].
Qed.

Lemma Tail_then_inert {A B} (w : W A) (f : A -> W B) :
  Tail w -> (forall a, Inert (f a)) -> Tail (w ≫= f).
Proof.
  intros Hw Hf. eapply behaves_bind; eauto; post; simpl; intros; auto.
  destruct H0 as (-> & b & ->). rewrite app_nil_r. destruct H. split; auto.
Qed.

Lemma Safe_Tail {A} (w : W A) : Safe w -> Tail w.
Proof.
  apply behaves_weaken. intros r evs. post. destruct r; simpl; intros; split; auto; try lia; discriminate.
Qed.

Lemma Closed_Tail {A} (w : W A) : Closed w -> Tail w.
Proof.
  apply behaves_weaken. intros r evs. post. intros (H0 & H1 & H2). split; auto. congruence.
Qed.

Lemma Tail_call (w : W unit) : Tail w -> Tail (call w).
Proof.
  intros H. eapply behaves_call; eauto; post; simpl; intros; auto.
Qed.

Lemma Quiet_call_Safe (w : W unit) : Quiet w -> Safe (call w).
Proof.
  intros H. eapply behaves_call; eauto; post; simpl; intros; auto.
Qed.

Lemma Settled_try_except {A} (body : W A) (handler : exn -> option (W A)) :
  Tail body ->
  (forall e, exists h, handler e = Some h /\ Reports h) ->
  Settled (try_except body handler).
Proof.
  intros Hb Hh.
  eapply behaves_try_except with (P := tail_post) (H := reports_post); eauto.
  - intros e h E. destruct (Hh e) as (h' & E' & Hr).
    rewrite E in E'. injection E' as <-. exact Hr.
  - post; simpl; intros a evs [H _]. auto.
  - post; simpl; intros evs [H _]. auto.
  - intros x evs E. destruct (Hh x) as (h' & E' & _). congruence.
  - post; simpl. intros x e1 r e2 [_ H0] ((m & -> & Hm) & (a & ->)).
    rewrite count_error_app, H0, count_error_one, Hm; auto.
Qed.

Lemma Safe_try_except {A} (body : W A) (handler : exn -> option (W A)) :
  Safe body ->
  (forall e h, handler e = Some h -> Safe h) ->
  Safe (try_except body handler).
Proof.
  intros Hb Hh.
  eapply behaves_try_except with (P := safe_post) (H := safe_post); eauto.
  post; simpl. intros x e1 r e2 H1 H2. rewrite count_error_app, H1. destruct r; simpl; auto.
Qed.

Lemma Closed_try_finally {A} (body : W A) (fin : W unit) :
  Settled body ->
  behaves sentinel_post fin ->
  Closed (try_finally body fin).
Proof.
  intros Hb Hf.
  eapply behaves_try_finally with (P := settled_post) (F := sentinel_post); eauto;
    unfold sentinel_post; post; simpl.
  - intros r e1 e2 [H1 H2] [_ ->]. rewrite last_snoc, count_error_app. simpl.
    repeat split; auto. unfold count_error at 2. simpl. lia.
  - intros r e1 e2 _ [H _]. discriminate.
  - intros r x e1 e2 _ [H _]. discriminate.
Qed.

Lemma Safe_ret {A} (a : A) : Safe (mret a).
Proof. now apply behaves_ret. Qed.
Lemma Safe_pass : Safe pass.
Proof. apply Safe_ret. Qed.
Lemma Safe_raise {A} (e : exn) : Safe (@raise A e).
Proof. now apply behaves_raise. Qed.
Lemma Safe_return {A} : Safe (@return_ A).
Proof. apply behaves_return. post. simpl. unfold count_error; simpl; lia. Qed.
Lemma Safe_put (m : msg) : has_error m = false -> Safe (q_put m).
Proof. intros H. apply behaves_put. post. now rewrite count_error_one, H. Qed.
Lemma Safe_drain : Safe q_drain.
Proof. now apply behaves_drain. Qed.
Lemma Safe_assign (p : option popen) : Safe (assign_current_process p).
Proof. now apply behaves_assign. Qed.
Lemma Safe_ext {A} (r : answer A) : Safe (ext r).
Proof. now apply behaves_ext. Qed.
Lemma Safe_int (s : string) : Safe (int_ s).
Proof. unfold int_. destruct (PyStr.py_int s); [apply Safe_ret | apply Safe_raise]. Qed.

Lemma Leaves_return {A} : Leaves (@return_ A).
Proof. now apply behaves_return. Qed.

Lemma Safe_error_then {A} (m : msg) (w : W A) :
  Leaves w -> Safe (q_put m;; w).
Proof.
  intros Hw. eapply behaves_bind with (P1 := fun r evs => r = Normal tt /\ evs = [m]); eauto.
  - now apply behaves_put.
  - unfold leaves_post; post; simpl. intros _ e1 r e2 [_ ->] [-> H].
    rewrite count_error_app, H, count_error_one. destruct (has_error m); lia.
  - intros e1 [H _]. discriminate.
  - intros x e1 [H _]. discriminate.
Qed.

Lemma Leaves_put {A} (m : msg) (w : W A) :
  has_error m = false -> Leaves w -> Leaves (q_put m;; w).
Proof.
  intros Hm Hw. eapply behaves_bind with (P1 := fun r evs => r = Normal tt /\ evs = [m]); eauto.
  - now apply behaves_put.
  - unfold leaves_post; simpl. intros _ e1 r e2 [_ ->] [-> H]. split; auto.
    rewrite count_error_app, H, count_error_one, Hm. lia.
  - intros e1 [H _]. discriminate.
  - intros x e1 [H _]. discriminate.
Qed.

Lemma Leaves_assign {A} (p : option popen) (w : W A) :
  Leaves w -> Leaves (assign_current_process p;; w).
Proof.
  intros Hw. eapply behaves_bind with (P1 := fun r evs => r = Normal tt /\ evs = []); eauto.
  - now apply behaves_assign.
  - unfold leaves_post; simpl. intros _ e1 r e2 [_ ->] [-> H]. split; auto.
  - intros e1 [H _]. discriminate.
  - intros x e1 [H _]. discriminate.
Qed.

Ltac leaves_tac :=
  first [ apply Leaves_return
        | apply Leaves_put; [reflexivity | leaves_tac]
        | apply Leaves_assign; leaves_tac ].

Ltac safe_tac :=
  first
    [ apply Safe_pass | apply Safe_ret | apply Safe_raise | apply Safe_return
    | apply Safe_put; reflexivity
    | apply Safe_drain | apply Safe_assign | apply Safe_ext | apply Safe_int
    | apply Safe_error_then; leaves_tac
    | apply Safe_bind; [safe_tac | intros; safe_tac]
    | match goal with
      | |- Safe (when ?c _) => destruct c; simpl; safe_tac
      | |- Safe (if ?c then _ else _) => destruct c; safe_tac
      | |- Safe (match ?x with _ => _ end) => destruct x; safe_tac
      end ].

Lemma Tail_put (m : msg) : Tail (q_put m).
Proof.
  apply behaves_put. post. rewrite count_error_one. simpl.
  destruct (has_error m); split; auto; discriminate.
Qed.

Ltac tail_tac :=
  first
    [ apply Safe_Tail; safe_tac
    | apply Tail_put
    | apply Tail_bind; [safe_tac | intros; tail_tac]
    | match goal with
      | |- Tail (when ?c _) => destruct c; simpl; tail_tac
      | |- Tail (if ?c then _ else _) => destruct c; tail_tac
      | |- Tail (match ?x with _ => _ end) => destruct x; tail_tac
      end ].

Lemma Reports_put_error (text : string) : Reports (q_put (ev_error text)).
Proof. apply behaves_put. post. split; eauto. Qed.

Lemma sentinel_put_DONE : behaves sentinel_post (q_put DONE).
Proof. apply behaves_put. now unfold sentinel_post. Qed.

Lemma upload_to_pixeldrain_Closed env file_path filename :
  Closed (upload_to_pixeldrain env file_path filename).
Proof.
  unfold upload_to_pixeldrain.
  apply Closed_try_finally; [|apply sentinel_put_DONE].
  apply Settled_try_except.
  - tail_tac.
  - intros e. eexists. split; [reflexivity | apply Reports_put_error].
Qed.

Ltac handler_tac :=
  let e := fresh "e" in
  intros e;
  repeat match goal with
         | |- context [if ?c then _ else _] => destruct c
         | |- context [match cls ?e with _ => _ end] => destruct (cls e)
         end;
  eexists; (split; [reflexivity | apply Reports_put_error]).

Lemma upload_to_4stream_Closed env file_path filename :
  Closed (upload_to_4stream env file_path filename).
Proof.
  unfold upload_to_4stream.
  apply Closed_try_finally; [|apply sentinel_put_DONE].
  apply Settled_try_except.
  - tail_tac.
  - handler_tac.
Qed.

Lemma upload_to_gofile_Closed env file_path filename :
  Closed (upload_to_gofile env file_path filename).
Proof.
  unfold upload_to_gofile.
  apply Closed_try_finally; [|apply sentinel_put_DONE].
  apply Settled_try_except.
  - tail_tac.
  - handler_tac.
Qed.

Lemma upload_file_directly_to_pixeldrain_Closed env url :
  Closed (upload_file_directly_to_pixeldrain env url).
Proof.
  unfold upload_file_directly_to_pixeldrain.
  apply Closed_try_finally; [|apply sentinel_put_DONE].
  apply Settled_try_except.
  - tail_tac.
  - handler_tac.
Qed.

Lemma behaves_bind_ok {A B} (P : outcome B -> list msg -> Prop) (a : A)
    (f : A -> W B) :
  behaves P (f a) -> behaves P (ext (Ok a) ≫= f).
Proof. intros H s. exact (H s). Qed.

Lemma Safe_for_each {A} (l : list A) (body : A -> W unit) :
  (forall x, Safe (body x)) -> Safe (for_each l body).
Proof.
  intros Hb. apply behaves_for_each; auto; post.
  - reflexivity.
  - intros e1 r e2 H1 H2. rewrite count_error_app, H1. exact H2.
Qed.

Lemma Safe_encode_line stage_msg duration vmaf line :
  Safe (encode_line stage_msg duration vmaf line).
Proof. unfold encode_line. safe_tac. Qed.

Lemma Safe_get_media_duration probe file_path :
  Safe (get_media_duration probe file_path).
Proof. unfold get_media_duration. safe_tac. Qed.

Lemma sentinel_encode_finally :
  behaves sentinel_post
    (assign_current_process None;; when (negb (false || false || false)) (q_put DONE)).
Proof.
  eapply behaves_bind with (P1 := inert_post) (P2 := sentinel_post).
  - apply behaves_assign. post. eauto.
  - intros. apply behaves_put. now post.
  - post. intros _ e1 r e2 [-> _] H. exact H.
  - post. intros e1 [_ [a H]]. discriminate.
  - post. intros x e1 [_ [a H]]. discriminate.
Qed.

Ltac safe_body_tac :=
  first
    [ apply Safe_pass | apply Safe_ret | apply Safe_raise | apply Safe_return
    | apply Safe_put; reflexivity
    | apply Safe_drain | apply Safe_assign | apply Safe_ext | apply Safe_int
    | apply Safe_get_media_duration
    | apply Safe_for_each; intros; apply Safe_encode_line
    | apply Safe_error_then; leaves_tac
    | apply Safe_bind; [safe_body_tac | intros; safe_body_tac]
    | match goal with
      | |- Safe (when ?c _) => destruct c; simpl; safe_body_tac
      | |- Safe (if ?c then _ else _) => destruct c; safe_body_tac
      | |- Safe (match ?x with _ => _ end) => destruct x; safe_body_tac
      end ].

Lemma encode_file_Closed env a :
  unchained (EncodeFile env a) = true ->
  reaches_try (EncodeFile env a) = true ->
  Closed (encode_file env a).
Proof.
  destruct a; simpl. intros Hf Hp.
  apply negb_true_iff in Hf. apply orb_false_iff in Hf as [Hf Hg].
  apply orb_false_iff in Hf as [Hf Hs]. subst.
  unfold encode_file. destruct (ee_prepare env) as [[output_path safe_output]|]; [|discriminate].
  apply behaves_bind_ok. cbn [upload_pixeldrain upload_4stream upload_gofile].
  apply Closed_try_finally; [|apply sentinel_encode_finally].
  apply Settled_try_except.
  - apply Safe_Tail. cbn -[encode_line]. safe_body_tac.
  - handler_tac.
Qed.

Lemma Quiet_ret {A} (a : A) : Quiet (mret a).
Proof. now apply behaves_ret. Qed.
Lemma Quiet_raise {A} (e : exn) : Quiet (@raise A e).
Proof. now apply behaves_raise. Qed.
Lemma Quiet_put (m : msg) : has_error m = false -> Quiet (q_put m).
Proof. intros H. apply behaves_put. post. now rewrite count_error_one, H. Qed.
Lemma Quiet_ext {A} (r : answer A) : Quiet (ext r).
Proof. now apply behaves_ext. Qed.
Lemma Quiet_for_each {A} (l : list A) (body : A -> W unit) :
  (forall x, Quiet (body x)) -> Quiet (for_each l body).
Proof.
  intros Hb. apply behaves_for_each; auto; post.
  - reflexivity.
  - intros e1 r e2 H1 H2. rewrite count_error_app, H1. exact H2.
Qed.

Ltac quiet_tac :=
  first
    [ apply Quiet_ret | apply Quiet_raise | apply Quiet_put; reflexivity
    | apply Quiet_ext
    | apply Quiet_for_each; intros; quiet_tac
    | apply Quiet_bind; [quiet_tac | intros; quiet_tac]
    | match goal with
      | |- Quiet (if ?c then _ else _) => destruct c; quiet_tac
      | |- Quiet (match ?x with _ => _ end) => destruct x; quiet_tac
      end ].

Lemma Quiet_run_command_with_progress spawn command stage :
  Quiet (run_command_with_progress spawn command stage).
Proof. unfold run_command_with_progress. quiet_tac. Qed.

Lemma Safe_run_command_call spawn command stage :
  Safe (call (run_command_with_progress spawn command stage)).
Proof. apply Quiet_call_Safe, Quiet_run_command_with_progress. Qed.

Lemma Safe_raise_for_status r : Safe (raise_for_status r).
Proof. unfold raise_for_status. safe_tac. Qed.

Lemma Safe_save_chunks total_size downloaded_size l :
  Safe (save_chunks total_size downloaded_size l).
Proof.
  revert downloaded_size. induction l as [|n l IH]; intros d; simpl.
  - apply Safe_pass.
  - apply Safe_bind; [safe_tac | intros; apply IH].
Qed.

Lemma Safe_save_response r : Safe (save_response r).
Proof.
  unfold save_response. destruct (saved_as r).
  apply Safe_bind; [safe_tac | intros].
  apply Safe_bind; [safe_tac | intros].
  apply Safe_bind; [apply Safe_save_chunks | intros].
  safe_tac.
Qed.

Lemma Safe_redirect_loop env remaining jump current_url response :
  Safe (redirect_loop env remaining jump current_url response).
Proof.
  revert jump current_url response.
  induction remaining as [|k IH]; intros jump current_url response; simpl.
  - apply Safe_ret.
  - apply Safe_bind; [safe_tac | intros].
    apply Safe_bind; [safe_tac | intros].
    apply Safe_bind; [safe_tac | intros r].
    destruct (is_redirect (status_code r)); [|apply Safe_ret].
    destruct (location r) as [loc|]; [|apply Safe_ret].
    destruct (truthy_str loc); [|apply Safe_ret].
    apply Safe_bind; [safe_tac | intros; apply IH].
Qed.

Lemma Safe_try_fallbacks env creds idx : Safe (try_fallbacks env creds idx).
Proof.
  revert idx. induction creds as [|[u p] creds IH]; intros idx; simpl.
  - apply Safe_ret.
  - apply Safe_bind.
    + apply Safe_try_except.
      * apply Safe_bind; [safe_tac | intros].
        apply Safe_bind; [safe_tac | intros].
        apply Safe_bind; [apply Safe_raise_for_status | intros].
        apply Safe_bind; [safe_tac | intros].
        apply Safe_bind; [apply Safe_save_response | intros]. apply Safe_ret.
      * intros e h. destruct (cls e); try discriminate.
        intros [= <-]. safe_tac.
    + intros [names|]; [apply Safe_ret | apply IH].
Qed.

Lemma sentinel_when_DONE :
  behaves sentinel_post (when (negb (false || false)) (q_put DONE)).
Proof. apply sentinel_put_DONE. Qed.

Lemma sentinel_when_DONE3 :
  behaves sentinel_post (when (negb (false || false || false)) (q_put DONE)).
Proof. apply sentinel_put_DONE. Qed.

Lemma download_file_directly_Closed env url username password :
  Closed (download_file_directly env url false false username password).
Proof.
  unfold download_file_directly.
  generalize fallback_credentials as creds. intros creds.
  apply Closed_try_finally; [|apply sentinel_when_DONE].
  apply Settled_try_except.
  - apply Safe_Tail.
    apply Safe_bind; [safe_tac | intros].
    apply Safe_bind; [safe_tac | intros].
    apply Safe_bind; [safe_tac | intros].
    apply Safe_bind.
    + apply Safe_try_except.
      * apply Safe_bind.
        { destruct (PyStr.contains "gofile.io" url); simpl; [|apply Safe_pass].
          apply Safe_try_except; [safe_tac|]. intros e h [= <-]. safe_tac. }
        intros. apply Safe_bind; [apply Safe_redirect_loop | intros [r|]]; [|apply Safe_ret].
        destruct (ok r); [|apply Safe_ret].
        apply Safe_bind; [apply Safe_raise_for_status | intros].
        apply Safe_bind; [safe_tac | intros].
        apply Safe_bind; [apply Safe_save_response | intros]. apply Safe_ret.
      * intros e h. destruct (cls e); try discriminate. intros [= <-].
        match goal with |- Safe (if ?c then _ else _) => destruct c end; [|apply Safe_raise].
        apply Safe_bind; [apply Safe_try_fallbacks | intros [names|]]; safe_tac.
    + intros saved. apply Safe_bind; [safe_tac | intros].
      destruct saved as [[fp sn]|]; simpl; safe_tac.
  - handler_tac.
Qed.

Lemma manual_merge_worker_Closed env url video_id audio_id filename :
  is_ok (mm_prepare env) = true ->
  Closed (manual_merge_worker env url video_id audio_id filename false false false).
Proof.
  intros Hp. unfold manual_merge_worker.
  destruct (mm_prepare env) as [final_path|]; [|discriminate].
  apply behaves_bind_ok.
  apply Closed_try_finally; [|apply sentinel_when_DONE3].
  apply Settled_try_except.
  - apply Safe_Tail.
    apply Safe_bind; [safe_tac | intros].
    apply Safe_bind; [safe_tac | intros].
    apply Safe_bind; [apply Safe_run_command_call | intros].
    simpl. safe_tac.
  - handler_tac.
Qed.

Lemma encode_file_Tail env a :
  unchained (EncodeFile env a) = true -> Tail (encode_file env a).
Proof.
  intros Hu. destruct (ee_prepare env) as [x|e] eqn:E.
  - apply Closed_Tail, encode_file_Closed; auto. simpl. now rewrite E.
  - unfold encode_file. rewrite E. apply Safe_Tail.
    intros s. exists []. split; [apply extends_by_refl | reflexivity].
Qed.

Lemma Inert_pass : Inert pass.
Proof. apply behaves_ret. post. eauto. Qed.

Lemma download_and_convert_Closed env url video_id audio_id filename codec
    preset pass_mode bitrate crf audio_bitrate fps scale force_stereo is_muxed
    aq_mode variance_boost tiles enable_vmaf use_cookies :
  is_ok (dc_prepare env) = true ->
  Closed (download_and_convert env url video_id audio_id filename codec preset
            pass_mode bitrate crf audio_bitrate fps scale force_stereo is_muxed
            false false aq_mode variance_boost tiles enable_vmaf use_cookies).
Proof.
  intros Hp. unfold download_and_convert.
  destruct (dc_prepare env) as [final_path|]; [|discriminate].
  apply behaves_bind_ok.
  apply Closed_try_finally; [|apply sentinel_when_DONE].
  apply Settled_try_except.
  - apply Tail_bind; [safe_tac | intros].
    apply Tail_bind; [safe_tac | intros].
    apply Tail_bind; [apply Safe_run_command_call | intros].
    apply Tail_bind; [safe_tac | intros].
    apply Tail_bind; [safe_tac | intros found].
    apply Tail_bind; [safe_tac | intros actual_tmp_path].
    destruct (String.eqb codec "none").
    + apply Safe_Tail. simpl. safe_tac.
    + apply Tail_then_inert.
      * apply Tail_call, encode_file_Tail. reflexivity.
      * intros. simpl. eapply behaves_bind with (P1 := inert_post) (P2 := inert_post);
          try (intros; apply Inert_pass); post.
        -- intros _ e1 r e2 [-> _] [-> H]. auto.
        -- intros e1 [_ [b H]]. discriminate.
        -- intros x e1 [_ [b H]]. discriminate.
  - handler_tac.
Qed.

Theorem unchained_tasks_Closed (t : task) :
  unchained t = true -> reaches_try t = true -> Closed (run_task t).
Proof.
  destruct t; simpl; intros Hu Hr.
  - apply upload_to_pixeldrain_Closed.
  - apply upload_to_4stream_Closed.
  - apply upload_to_gofile_Closed.
  - apply upload_file_directly_to_pixeldrain_Closed.
  - now apply encode_file_Closed.
  - apply negb_true_iff, orb_false_iff in Hu as [-> ->].
    apply download_file_directly_Closed.
  - apply negb_true_iff, orb_false_iff in Hu as [-> ->].
    now apply download_and_convert_Closed.
  - apply negb_true_iff, orb_false_iff in Hu as [Hu ->].
    apply orb_false_iff in Hu as [-> ->].
    now apply manual_merge_worker_Closed.
  - discriminate.
Qed.

(** ** Every run only appends to the history *)

Lemma behaves_Framed {A} (P : outcome A -> list msg -> Prop) (w : W A) :
  behaves P w -> Framed w.
Proof. apply behaves_weaken. now post. Qed.

Lemma Framed_bind {A B} (w : W A) (f : A -> W B) :
  Framed w -> (forall a, Framed (f a)) -> Framed (w ≫= f).
Proof. intros Hw Hf. eapply behaves_bind; eauto; now post. Qed.

Lemma Framed_try_except {A} (body : W A) (handler : exn -> option (W A)) :
  Framed body -> (forall e h, handler e = Some h -> Framed h) ->
  Framed (try_except body handler).
Proof. intros Hb Hh. eapply behaves_try_except; eauto; now post. Qed.

Lemma Framed_try_finally {A} (body : W A) (fin : W unit) :
  Framed body -> Framed fin -> Framed (try_finally body fin).
Proof. intros Hb Hf. eapply behaves_try_finally; eauto; now post. Qed.

Lemma Framed_call (w : W unit) : Framed w -> Framed (call w).
Proof. intros Hw. eapply behaves_call; eauto; now post. Qed.

Lemma Framed_put (m : msg) : Framed (q_put m).
Proof. apply behaves_put. now post. Qed.

Ltac framed_tac :=
  first
    [ apply Framed_put
    | apply (behaves_Framed safe_post);
      solve [ apply Safe_pass | apply Safe_ret | apply Safe_raise
            | apply Safe_return | apply Safe_drain | apply Safe_assign
            | apply Safe_ext | apply Safe_int | apply Safe_get_media_duration
            | apply Safe_for_each; intros; apply Safe_encode_line
            | apply Safe_run_command_call | apply Safe_raise_for_status
            | apply Safe_save_response | apply Safe_redirect_loop
            | apply Safe_try_fallbacks ]
    | apply (behaves_Framed closed_post);
      solve [ apply upload_to_pixeldrain_Closed | apply upload_to_4stream_Closed
            | apply upload_to_gofile_Closed ]
    | apply Framed_call; framed_tac
    | apply Framed_bind; [framed_tac | intros; framed_tac]
    | apply Framed_try_finally; [framed_tac | framed_tac]
    | apply Framed_try_except;
      [ framed_tac
      | let e := fresh "e" in
        let h := fresh "h" in
        let E := fresh "E" in
        intros e h; cbv beta;
        repeat match goal with
               | |- match ?x with _ => _ end = _ -> _ => destruct x
               | |- (if ?c then _ else _) = _ -> _ => destruct c
               end;
        intros E; first [discriminate E | injection E as <-; framed_tac] ]
    | match goal with
      | |- Framed (when ?c _) => destruct c; simpl; framed_tac
      | |- Framed (if ?c then _ else _) => destruct c; framed_tac
      | |- Framed (match ?x with _ => _ end) => destruct x; framed_tac
      | |- Framed (let '(_, _) := ?x in _) => destruct x; framed_tac
      end ].

Lemma Framed_encode_file env a : Framed (encode_file env a).
Proof. unfold encode_file. framed_tac. Qed.

Lemma Framed_download_file_directly env url p g username password :
  Framed (download_file_directly env url p g username password).
Proof.
  unfold download_file_directly. generalize fallback_credentials as creds.
  intros creds. framed_tac.
Qed.

Lemma Framed_manual_merge_worker env url video_id audio_id filename p f g :
  Framed (manual_merge_worker env url video_id audio_id filename p f g).
Proof. unfold manual_merge_worker. framed_tac. Qed.

Lemma Framed_download_and_convert env url video_id audio_id filename codec
    preset pass_mode bitrate crf audio_bitrate fps scale force_stereo is_muxed
    p g aq_mode variance_boost tiles enable_vmaf use_cookies :
  Framed (download_and_convert env url video_id audio_id filename codec preset
            pass_mode bitrate crf audio_bitrate fps scale force_stereo is_muxed
            p g aq_mode variance_boost tiles enable_vmaf use_cookies).
Proof.
  unfold download_and_convert.
  apply Framed_bind; [framed_tac | intros final_path].
  apply Framed_try_finally; [|framed_tac].
  apply Framed_try_except; [|intros e h [= <-]; framed_tac].
  do 6 (apply Framed_bind; [framed_tac | intros]).
  apply Framed_bind.
  - destruct (String.eqb codec "none"); [framed_tac|].
    apply Framed_call, Framed_encode_file.
  - intros. framed_tac.
Qed.

Lemma Quiet_concat_run spawn : Quiet (concat_run spawn).
Proof.
  unfold concat_run.
  apply Quiet_bind; [quiet_tac | intros process].
  apply Quiet_bind; [|intros; quiet_tac].
  apply Quiet_for_each. intros line.
  destruct (PyStr.contains "out_time_ms" line); simpl; [|apply Quiet_ret].
  destruct (PyStr.split_field1 "=" line) as [field|]; [|apply Quiet_ret].
  destruct (PyStr.py_int field); [quiet_tac | apply Quiet_ret].
Qed.

Lemma Framed_ffmpeg_merge_with_progress env files output_path :
  Framed (ffmpeg_merge_with_progress env files output_path).
Proof.
  unfold ffmpeg_merge_with_progress.
  apply Framed_bind; [framed_tac | intros].
  apply Framed_bind; [apply (behaves_Framed quiet_post), Quiet_concat_run | intros].
  framed_tac.
Qed.

Lemma Framed_run_task (t : task) : Framed (run_task t).
Proof.
  destruct t; simpl.
  - apply (behaves_Framed closed_post), upload_to_pixeldrain_Closed.
  - apply (behaves_Framed closed_post), upload_to_4stream_Closed.
  - apply (behaves_Framed closed_post), upload_to_gofile_Closed.
  - apply (behaves_Framed closed_post), upload_file_directly_to_pixeldrain_Closed.
  - apply Framed_encode_file.
  - apply Framed_download_file_directly.
  - apply Framed_download_and_convert.
  - apply Framed_manual_merge_worker.
  - apply Framed_ffmpeg_merge_with_progress.
Qed.

Lemma thread_keeps_session (t : task) (s : state) :
  session (thread t s) = session s.
Proof.
  unfold thread. destruct (Framed_run_task t s) as (evs & (_ & _ & H & _) & _).
  exact H.
Qed.

(** ** One sentinel *)

Lemma count_done_one (m : msg) :
  count_done [m] = if is_done m then 1%nat else 0%nat.
Proof. unfold count_done. simpl. now destruct (is_done m). Qed.

Lemma Mute_ret {A} (a : A) : Mute (mret a).
Proof. now apply behaves_ret. Qed.
Lemma Mute_raise {A} (e : exn) : Mute (@raise A e).
Proof. now apply behaves_raise. Qed.
Lemma Mute_return {A} : Mute (@return_ A).
Proof. now apply behaves_return. Qed.
Lemma Mute_put (m : msg) : is_done m = false -> Mute (q_put m).
Proof. intros H. apply behaves_put. post. now rewrite count_done_one, H. Qed.
Lemma Mute_drain : Mute q_drain.
Proof. now apply behaves_drain. Qed.
Lemma Mute_assign (p : option popen) : Mute (assign_current_process p).
Proof. now apply behaves_assign. Qed.
Lemma Mute_ext {A} (r : answer A) : Mute (ext r).
Proof. now apply behaves_ext. Qed.
Lemma Mute_int (s : string) : Mute (int_ s).
Proof. unfold int_. destruct (PyStr.py_int s); [apply Mute_ret | apply Mute_raise]. Qed.

Lemma Mute_bind {A B} (w : W A) (f : A -> W B) :
  Mute w -> (forall a, Mute (f a)) -> Mute (w ≫= f).
Proof.
  intros Hw Hf. eapply behaves_bind; eauto; post; intros; auto.
  rewrite count_done_app. lia.
Qed.

Lemma Mute_call (w : W unit) : Mute w -> Mute (call w).
Proof. intros H. eapply behaves_call; eauto. Qed.

Lemma Mute_try_except {A} (body : W A) (handler : exn -> option (W A)) :
  Mute body -> (forall e h, handler e = Some h -> Mute h) ->
  Mute (try_except body handler).
Proof.
  intros Hb Hh. eapply behaves_try_except; eauto; post; intros; auto.
  rewrite count_done_app. lia.
Qed.

Lemma Once_try_finally {A} (body : W A) (fin : W unit) :
  Mute body -> behaves sentinel_post fin ->
  behaves once_post (try_finally body fin).
Proof.
  intros Hb Hf.
  eapply behaves_try_finally with (P := mute_post) (F := sentinel_post); eauto;
    unfold once_post; post.
  - intros r e1 e2 H1 [_ ->]. rewrite count_done_app, H1. reflexivity.
  - intros r e1 e2 _ [H _]. discriminate.
  - intros r x e1 e2 _ [H _]. discriminate.
Qed.

Lemma length_append (a b : string) :
  String.length (a +:+ b) = (String.length a + String.length b)%nat.
Proof. induction a as [|c a IH]; simpl; auto. Qed.

Lemma is_done_encoding_complete st p (c : string) e u :
  is_done (Msg st p (Some (c +:+ " encoding complete.")) e u) = false.
Proof.
  unfold is_done. simpl. apply String.eqb_neq. intros H.
  apply (f_equal String.length) in H. rewrite length_append in H. simpl in H. lia.
Qed.

Lemma Mute_for_each {A} (l : list A) (body : A -> W unit) :
  Forall (fun x => Mute (body x)) l -> Mute (for_each l body).
Proof.
  induction 1 as [|x l Hx Hl IH]; simpl.
  - apply Mute_ret.
  - apply Mute_bind; auto.
Qed.

Ltac mute_tac :=
  first
    [ apply Mute_ret | apply Mute_raise | apply Mute_return
    | apply Mute_put; first [reflexivity | apply is_done_encoding_complete]
    | apply Mute_drain | apply Mute_assign | apply Mute_ext | apply Mute_int
    | apply Mute_call; mute_tac
    | apply Mute_bind; [mute_tac | intros; mute_tac]
    | apply Mute_try_except;
      [ mute_tac
      | let e := fresh "e" in
        let h := fresh "h" in
        let E := fresh "E" in
        intros e h; cbv beta;
        repeat match goal with
               | |- match ?x with _ => _ end = _ -> _ => destruct x
               | |- (if ?c then _ else _) = _ -> _ => destruct c
               end;
        intros E; first [discriminate E | injection E as <-; mute_tac] ]
    | match goal with
      | |- Mute (when ?c _) => destruct c; simpl; mute_tac
      | |- Mute (if ?c then _ else _) => destruct c; mute_tac
      | |- Mute (match ?x with _ => _ end) => destruct x; mute_tac
      end
    | assumption ].

Lemma Mute_get_media_duration probe file_path :
  Mute (get_media_duration probe file_path).
Proof. unfold get_media_duration. mute_tac. Qed.

Lemma Mute_encode_line stage_msg duration vmaf line :
  String.eqb (PyStr.strip line) "DONE" = false ->
  Mute (encode_line stage_msg duration vmaf line).
Proof.
  intros H. unfold encode_line.
  apply Mute_bind; [apply Mute_put; exact H | intros]. mute_tac.
Qed.

Lemma behaves_bind_fail {A B} (P : outcome B -> list msg -> Prop) (e : exn)
    (f : A -> W B) :
  behaves P (raise e) -> behaves P (ext (Fail e) ≫= f).
Proof. intros H s. exact (H s). Qed.

Lemma Mute_run_command_with_progress spawn command stage :
  no_done_line spawn = true ->
  Mute (run_command_with_progress spawn command stage).
Proof.
  intros H. unfold run_command_with_progress.
  destruct spawn as [process|e];
    [apply behaves_bind_ok | apply behaves_bind_fail, Mute_raise].
  simpl in H. destruct (stdout process) as [lines|]; [|mute_tac].
  apply (behaves_bind_ok mute_post lines).
  apply Mute_bind; [|intros; mute_tac].
  apply Mute_for_each. apply List.Forall_forall. intros line Hin.
  rewrite forallb_forall in H. specialize (H line Hin).
  apply negb_true_iff in H.
  apply Mute_bind; [apply Mute_put; exact H | intros]. mute_tac.
Qed.

Lemma Mute_encode_lines stage_msg duration vmaf lines :
  forallb (fun l => negb (String.eqb (PyStr.strip l) "DONE")) lines = true ->
  Mute (for_each lines (encode_line stage_msg duration vmaf)).
Proof.
  intros H. apply Mute_for_each. apply List.Forall_forall. intros line Hin.
  rewrite forallb_forall in H. specialize (H line Hin).
  apply negb_true_iff in H. now apply Mute_encode_line.
Qed.

Lemma Mute_raise_for_status r : Mute (raise_for_status r).
Proof. unfold raise_for_status. mute_tac. Qed.

Lemma Mute_save_chunks total_size downloaded_size l :
  Mute (save_chunks total_size downloaded_size l).
Proof.
  revert downloaded_size. induction l as [|n l IH]; intros d; simpl.
  - apply Mute_ret.
  - apply Mute_bind; [mute_tac | intros; apply IH].
Qed.

Lemma Mute_save_response r : Mute (save_response r).
Proof.
  unfold save_response. destruct (saved_as r).
  apply Mute_bind; [mute_tac | intros].
  apply Mute_bind; [mute_tac | intros].
  apply Mute_bind; [apply Mute_save_chunks | intros].
  mute_tac.
Qed.

Lemma Mute_redirect_loop env remaining jump current_url response :
  Mute (redirect_loop env remaining jump current_url response).
Proof.
  revert jump current_url response.
  induction remaining as [|k IH]; intros jump current_url response; simpl.
  - apply Mute_ret.
  - apply Mute_bind; [mute_tac | intros].
    apply Mute_bind; [mute_tac | intros].
    apply Mute_bind; [mute_tac | intros r].
    destruct (is_redirect (status_code r)); [|apply Mute_ret].
    destruct (location r) as [loc|]; [|apply Mute_ret].
    destruct (truthy_str loc); [|apply Mute_ret].
    apply Mute_bind; [mute_tac | intros; apply IH].
Qed.

Lemma Mute_try_fallbacks env creds idx : Mute (try_fallbacks env creds idx).
Proof.
  revert idx. induction creds as [|[u p] creds IH]; intros idx; simpl.
  - apply Mute_ret.
  - apply Mute_bind.
    + apply Mute_try_except.
      * apply Mute_bind; [mute_tac | intros].
        apply Mute_bind; [mute_tac | intros].
        apply Mute_bind; [apply Mute_raise_for_status | intros].
        apply Mute_bind; [mute_tac | intros].
        apply Mute_bind; [apply Mute_save_response | intros]. apply Mute_ret.
      * intros e h. destruct (cls e); try discriminate.
        intros [= <-]. mute_tac.
    + intros [names|]; [apply Mute_ret | apply IH].
Qed.

Lemma upload_to_pixeldrain_Once env file_path filename :
  behaves once_post (upload_to_pixeldrain env file_path filename).
Proof.
  unfold upload_to_pixeldrain.
  apply Once_try_finally; [mute_tac | apply sentinel_put_DONE].
Qed.

Lemma upload_file_directly_to_pixeldrain_Once env url :
  behaves once_post (upload_file_directly_to_pixeldrain env url).
Proof.
  unfold upload_file_directly_to_pixeldrain.
  apply Once_try_finally; [mute_tac | apply sentinel_put_DONE].
Qed.

Ltac mute_handler :=
  let e := fresh "e" in
  let h := fresh "h" in
  intros e h; cbv beta;
  repeat match goal with
         | |- match ?x with _ => _ end = _ -> _ => destruct x
         | |- (if ?c then _ else _) = _ -> _ => destruct c
         end;
  intros [= <-]; mute_tac.

Lemma upload_to_4stream_Once env file_path filename :
  single_sentinel (UploadTo4stream env file_path filename) = true ->
  behaves once_post (upload_to_4stream env file_path filename).
Proof.
  destruct env as [key srv post]. simpl. intros H.
  apply andb_true_iff in H as [Hk Hs].
  unfold upload_to_4stream. cbn [UP4STREAM_API_KEY fs_get_server fs_post].
  rewrite Hk. simpl negb. cbn [when].
  apply Once_try_finally; [|apply sentinel_put_DONE].
  apply Mute_try_except; [|mute_handler].
  apply Mute_bind; [mute_tac | intros].
  apply Mute_bind; [mute_tac | intros].
  destruct srv as [[sok smsg]|e];
    [apply behaves_bind_ok | apply behaves_bind_fail, Mute_raise].
  simpl in Hs. subst sok. cbn [fs_server_ok negb when]. mute_tac.
Qed.

Lemma upload_to_gofile_Once env file_path filename :
  single_sentinel (UploadToGofile env file_path filename) = true ->
  behaves once_post (upload_to_gofile env file_path filename).
Proof.
  destruct env as [key srv post]. simpl. intros H.
  apply andb_true_iff in H as [Hk Hs].
  unfold upload_to_gofile. cbn [GOFILE_API_TOKEN gf_get_server gf_post].
  rewrite Hk. simpl negb. cbn [when].
  apply Once_try_finally; [|apply sentinel_put_DONE].
  apply Mute_try_except; [|mute_handler].
  apply Mute_bind; [mute_tac | intros].
  apply Mute_bind; [mute_tac | intros].
  destruct srv as [[sok sst sname]|e];
    [apply behaves_bind_ok | apply behaves_bind_fail, Mute_raise].
  simpl in Hs. subst sok. cbn [gf_server_ok negb when]. mute_tac.
Qed.

Lemma encode_file_Once env a :
  unchained (EncodeFile env a) = true ->
  reaches_try (EncodeFile env a) = true ->
  single_sentinel (EncodeFile env a) = true ->
  behaves once_post (encode_file env a).
Proof.
  destruct a as [a_in a_out a_codec a_preset a_pass a_bitrate a_crf a_ab
                 a_fps a_scale a_fs a_aq a_vb a_tiles a_vmaf a_up a_u4 a_ug].
  simpl. intros Hf Hp Hl.
  apply negb_true_iff in Hf. apply orb_false_iff in Hf as [Hf Hg].
  apply orb_false_iff in Hf as [Hf Hs]. subst.
  unfold encode_file.
  destruct (ee_prepare env) as [[output_path safe_output]|]; [|discriminate].
  apply behaves_bind_ok. cbn [upload_pixeldrain upload_4stream upload_gofile].
  apply Once_try_finally; [|apply sentinel_encode_finally].
  apply Mute_try_except; [|mute_handler].
  cbn [input_path codec pass_mode bitrate crf audio_bitrate force_stereo tiles
       enable_vmaf].
  apply Mute_bind; [mute_tac | intros].
  apply Mute_bind; [mute_tac | intros].
  apply Mute_bind; [mute_tac | intros].
  apply Mute_bind; [apply Mute_get_media_duration | intros duration].
  apply Mute_bind; [|intros; simpl; mute_tac].
  destruct (String.eqb a_codec "none"); [mute_tac|].
  apply Mute_bind; [mute_tac | intros].
  apply Mute_bind; [mute_tac | intros].
  apply Mute_bind; [mute_tac | intros].
  apply Mute_bind; [mute_tac | intros].
  destruct (ee_popen env) as [process|e];
    [apply behaves_bind_ok | apply behaves_bind_fail, Mute_raise].
  apply Mute_bind; [mute_tac | intros].
  simpl in Hl. destruct (stdout process) as [lines|]; [|mute_tac].
  apply (behaves_bind_ok mute_post lines).
  apply Mute_bind; [now apply Mute_encode_lines | intros].
  mute_tac.
Qed.

Lemma download_file_directly_Once env url username password :
  behaves once_post (download_file_directly env url false false username password).
Proof.
  unfold download_file_directly.
  generalize fallback_credentials as creds. intros creds.
  apply Once_try_finally; [|apply sentinel_when_DONE].
  apply Mute_try_except; [|mute_handler].
  apply Mute_bind; [mute_tac | intros].
  apply Mute_bind; [mute_tac | intros].
  apply Mute_bind; [mute_tac | intros].
  apply Mute_bind.
  - apply Mute_try_except.
    + apply Mute_bind; [mute_tac | intros].
      apply Mute_bind; [apply Mute_redirect_loop | intros [r|]]; [|apply Mute_ret].
      destruct (ok r); [|apply Mute_ret].
      apply Mute_bind; [apply Mute_raise_for_status | intros].
      apply Mute_bind; [mute_tac | intros].
      apply Mute_bind; [apply Mute_save_response | intros]. apply Mute_ret.
    + intros e h. destruct (cls e); try discriminate. intros [= <-].
      match goal with |- Mute (if ?c then _ else _) => destruct c end;
        [|apply Mute_raise].
      apply Mute_bind; [apply Mute_try_fallbacks | intros [names|]]; mute_tac.
  - intros saved. apply Mute_bind; [mute_tac | intros].
    destruct saved as [[fp sn]|]; simpl; mute_tac.
Qed.

Lemma manual_merge_worker_Once env url video_id audio_id filename :
  is_ok (mm_prepare env) = true ->
  no_done_line (mm_ytdlp env) = true ->
  behaves once_post
    (manual_merge_worker env url video_id audio_id filename false false false).
Proof.
  intros Hp Hl. unfold manual_merge_worker.
  destruct (mm_prepare env) as [final_path|]; [|discriminate].
  apply behaves_bind_ok.
  apply Once_try_finally; [|apply sentinel_when_DONE3].
  apply Mute_try_except; [|mute_handler].
  apply Mute_bind; [mute_tac | intros].
  apply Mute_bind; [mute_tac | intros].
  apply Mute_bind;
    [now apply Mute_call, Mute_run_command_with_progress | intros].
  simpl. mute_tac.
Qed.

Lemma download_and_convert_Once env url video_id audio_id filename
    preset pass_mode bitrate crf audio_bitrate fps scale force_stereo is_muxed
    aq_mode variance_boost tiles enable_vmaf use_cookies :
  is_ok (dc_prepare env) = true ->
  no_done_line (dc_ytdlp env) = true ->
  behaves once_post
    (download_and_convert env url video_id audio_id filename "none" preset
       pass_mode bitrate crf audio_bitrate fps scale force_stereo is_muxed
       false false aq_mode variance_boost tiles enable_vmaf use_cookies).
Proof.
  intros Hp Hl. unfold download_and_convert.
  destruct (dc_prepare env) as [final_path|]; [|discriminate].
  apply behaves_bind_ok.
  apply Once_try_finally; [|apply sentinel_when_DONE].
  apply Mute_try_except; [|mute_handler].
  apply Mute_bind; [mute_tac | intros].
  apply Mute_bind; [mute_tac | intros].
  apply Mute_bind;
    [now apply Mute_call, Mute_run_command_with_progress | intros].
  simpl. mute_tac.
Qed.

Theorem single_sentinel_tasks_Once (t : task) :
  unchained t = true -> reaches_try t = true -> single_sentinel t = true ->
  behaves once_post (run_task t).
Proof.
  destruct t; simpl; intros Hu Hr Hs.
  - apply upload_to_pixeldrain_Once.
  - now apply upload_to_4stream_Once.
  - now apply upload_to_gofile_Once.
  - apply upload_file_directly_to_pixeldrain_Once.
  - now apply encode_file_Once.
  - apply negb_true_iff, orb_false_iff in Hu as [-> ->].
    apply download_file_directly_Once.
  - apply negb_true_iff, orb_false_iff in Hu as [-> ->].
    apply andb_true_iff in Hs as [Hc Hl]. apply String.eqb_eq in Hc. subst.
    now apply download_and_convert_Once.
  - apply negb_true_iff, orb_false_iff in Hu as [Hu ->].
    apply orb_false_iff in Hu as [-> ->].
    now apply manual_merge_worker_Once.
  - discriminate.
Qed.

(** ** Percentages *)

Lemma time_percent_spec (h m s ms : Z) (duration : Q) :
  (time_percent h m s ms duration == spec_time_percent h m s ms duration)%Q.
Proof.
  unfold time_percent, spec_time_percent, elapsed_media_time.
  apply Q.min_compat; [reflexivity|].
  assert (E : (inject_Z (h * 3600 + m * 60 + s) + inject_Z ms / 100
               == 3600 * inject_Z h + 60 * inject_Z m + inject_Z s
                  + inject_Z ms / 100)%Q).
  { rewrite !inject_Z_plus, !inject_Z_mult. ring. }
  now rewrite E.
Qed.

Lemma Qltb_lt (x y : Q) : Qltb x y = true <-> (x < y)%Q.
Proof.
  unfold Qltb. rewrite negb_true_iff. split.
  - intros H. apply Qnot_le_lt. intros Hle. apply Qle_bool_iff in Hle. congruence.
  - intros H. destruct (Qle_bool y x) eqn:E; auto.
    apply Qle_bool_iff in E. exfalso. eapply Qlt_not_le; eauto.
Qed.

Lemma inject_Z_nonneg (z : Z) : (0 <= z)%Z -> (0 <= inject_Z z)%Q.
Proof. intros H. change 0%Q with (inject_Z 0). now rewrite <- Zle_Qle. Qed.

Lemma time_percent_range (h m s ms : Z) (duration : Q) :
  (0 <= h)%Z -> (0 <= m)%Z -> (0 <= s)%Z -> (0 <= ms)%Z -> (0 < duration)%Q ->
  (0 <= time_percent h m s ms duration <= 100)%Q.
Proof.
  intros Hh Hm Hs Hms Hd. unfold time_percent. split; [|apply Q.le_min_l].
  apply Q.min_glb; [discriminate|].
  apply Qmult_le_0_compat; [|discriminate].
  apply Qle_shift_div_l; [exact Hd|]. rewrite Qmult_0_l.
  apply (Qle_trans _ (0 + 0)); [discriminate|].
  apply Qplus_le_compat.
  - apply inject_Z_nonneg. lia.
  - apply Qle_shift_div_l; [reflexivity|]. rewrite Qmult_0_l.
    now apply inject_Z_nonneg.
Qed.

Lemma two_digits_range (s r : string) (v : Z) :
  Re.two_digits s = Some (v, r) -> (0 <= v <= 99)%Z.
Proof.
  unfold Re.two_digits. destruct s as [|a [|b t]]; try discriminate.
  destruct (PyStr.is_digit a) eqn:Ea; [|discriminate].
  destruct (PyStr.is_digit b) eqn:Eb; [|discriminate].
  simpl. intros [= <- _].
  unfold PyStr.is_digit in *. unfold PyStr.digit_val.
  apply andb_true_iff in Ea as [Ea1 Ea2]. apply andb_true_iff in Eb as [Eb1 Eb2].
  apply Nat.leb_le in Ea1, Ea2, Eb1, Eb2. lia.
Qed.

Lemma match_time_here_range (line : string) (h m s cs : Z) :
  Re.match_time_here line = Some (h, m, s, cs) ->
  (0 <= h <= 99 /\ 0 <= m <= 99 /\ 0 <= s <= 99 /\ 0 <= cs <= 99)%Z.
Proof.
  unfold Re.match_time_here.
  destruct (PyStr.drop_prefix "time=" line) as [s0|]; [|discriminate]. cbn [mbind option_bind].
  destruct (Re.two_digits s0) as [[h' s1]|] eqn:E1; [|discriminate]. cbn [mbind option_bind].
  destruct (Re.expect ":" s1) as [s2|]; [|discriminate]. cbn [mbind option_bind].
  destruct (Re.two_digits s2) as [[m' s3]|] eqn:E2; [|discriminate]. cbn [mbind option_bind].
  destruct (Re.expect ":" s3) as [s4|]; [|discriminate]. cbn [mbind option_bind].
  destruct (Re.two_digits s4) as [[sec' s5]|] eqn:E3; [|discriminate]. cbn [mbind option_bind].
  destruct (Re.expect "." s5) as [s6|]; [|discriminate]. cbn [mbind option_bind].
  destruct (Re.two_digits s6) as [[cs' s7]|] eqn:E4; [|discriminate]. cbn [mbind option_bind].
  intros [= <- <- <- <-].
  apply two_digits_range in E1, E2, E3, E4. auto.
Qed.

Lemma search_time_range (line : string) (h m s cs : Z) :
  Re.search_time line = Some (h, m, s, cs) ->
  (0 <= h <= 99 /\ 0 <= m <= 99 /\ 0 <= s <= 99 /\ 0 <= cs <= 99)%Z.
Proof.
  induction line as [|c line IH]; cbn [Re.search_time].
  - destruct (Re.match_time_here "") as [r|] eqn:E; [|discriminate].
    intros [= ->]. now apply match_time_here_range in E.
  - destruct (Re.match_time_here (String c line)) as [r|] eqn:E; [|exact IH].
    intros [= ->]. now apply match_time_here_range in E.
Qed.

Lemma behaves_emitted {A} (P : outcome A -> list msg -> Prop) (w : W A) :
  behaves P w -> forall s, P (ending w s) (emitted w s).
Proof.
  intros H s. destruct (H (fresh s)) as (evs & (Hp & _) & HP).
  unfold emitted, ending. simpl in Hp. now rewrite Hp.
Qed.

(** What one output line makes the encode loop push. *)
Lemma encode_line_pushes stage_msg duration vmaf line :
  behaves
    (fun r evs =>
       r = Normal tt /\
       (forall h m s cs, (0 < duration)%Q ->
          Re.search_time line = Some (h, m, s, cs) ->
          In (ev_progress stage_msg (time_percent h m s cs duration)) evs) /\
       Forall (fun e => forall p, percent e = Some p -> (0 <= p <= 100)%Q) evs)
    (encode_line stage_msg duration vmaf line).
Proof.
  intros st. unfold encode_line, when, mbind, W_bind, pass, mret, W_ret, q_put.
  destruct (Qltb 0 duration) eqn:Ed.
  - apply Qltb_lt in Ed.
    destruct (Re.search_time line) as [[[[h m] s] cs]|] eqn:Es.
    + pose proof (search_time_range _ _ _ _ _ Es) as (Hh & Hm & Hs & Hc).
      destruct vmaf; [destruct (Re.search_vmaf line)|]; simpl;
        eexists; (split; [unfold extends_by; simpl; rewrite <- ?app_assoc;
                          split; [reflexivity | split; [reflexivity | split; reflexivity]]|]);
        cbn [app];
        (split; [reflexivity|]);
        (split; [intros h' m' s' cs' _ [= <- <- <- <-]; simpl; tauto|]);
        repeat apply List.Forall_cons; try apply List.Forall_nil; simpl;
        try discriminate;
        intros p [= <-]; apply time_percent_range; lia || assumption.
    + destruct vmaf; [destruct (Re.search_vmaf line)|]; simpl;
        eexists; (split; [unfold extends_by; simpl; rewrite <- ?app_assoc;
                          split; [reflexivity | split; [reflexivity | split; reflexivity]]|]);
        cbn [app];
        (split; [reflexivity|]);
        (split; [intros h' m' s' cs' _ [=]|]);
        repeat apply List.Forall_cons; try apply List.Forall_nil; simpl; discriminate.
  - simpl. eexists; (split; [unfold extends_by; simpl;
                             split; [reflexivity | split; [reflexivity | split; reflexivity]]|]).
    split; [reflexivity|]. split.
    + intros h m s cs Hd. apply Qltb_lt in Hd. congruence.
    + repeat apply List.Forall_cons; try apply List.Forall_nil; simpl; discriminate.
Qed.

Lemma encode_lines_push stage_msg duration vmaf lines :
  behaves
    (fun r evs =>
       r = Normal tt /\
       (forall line h m s cs, In line lines -> (0 < duration)%Q ->
          Re.search_time line = Some (h, m, s, cs) ->
          In (ev_progress stage_msg (time_percent h m s cs duration)) evs) /\
       Forall (fun e => forall p, percent e = Some p -> (0 <= p <= 100)%Q) evs)
    (for_each lines (encode_line stage_msg duration vmaf)).
Proof.
  induction lines as [|l lines IH]; simpl.
  - apply behaves_ret. split; [reflexivity|]. split; [intros ? ? ? ? ? []|constructor].
  - eapply behaves_bind; [apply encode_line_pushes | intros; apply IH | | |].
    + intros [] e1 r e2 (_ & H1 & F1) (-> & H2 & F2). split; [reflexivity|]. split.
      * intros line h m s cs [<-|Hin] Hd Hs; apply in_or_app; eauto.
      * apply Forall_app; auto.
    + intros e1 (H & _). discriminate.
    + intros x e1 (H & _). discriminate.
Qed.

Lemma download_percent_range (received total_size : Z) :
  (0 < total_size)%Z -> (0 <= received)%Z ->
  (0 <= download_percent received total_size)%Q /\
  ((download_percent received total_size <= 100)%Q <-> (received <= total_size)%Z).
Proof.
  intros Ht Hr. unfold download_percent.
  assert (Hq : (0 < inject_Z total_size)%Q).
  { change 0%Q with (inject_Z 0). now rewrite <- Zlt_Qlt. }
  split.
  - apply Qmult_le_0_compat; [|discriminate].
    apply Qle_shift_div_l; [exact Hq|]. rewrite Qmult_0_l.
    now apply inject_Z_nonneg.
  - rewrite Zle_Qle. split.
    + intros H.
      apply (Qmult_le_r _ _ 100); [reflexivity|].
      apply (Qmult_le_r _ _ (/ inject_Z total_size)); [now apply Qinv_lt_0_compat|].
      assert (E : (inject_Z total_size * 100 * / inject_Z total_size == 100)%Q).
      { field. intros E. rewrite E in Hq. inversion Hq. }
      rewrite E.
      assert (E2 : (inject_Z received * 100 * / inject_Z total_size
                    == inject_Z received / inject_Z total_size * 100)%Q).
      { field. intros E'. rewrite E' in Hq. inversion Hq. }
      now rewrite E2.
    + intros H.
      assert (E : (100 == inject_Z total_size / inject_Z total_size * 100)%Q).
      { field. intros E. rewrite E in Hq. inversion Hq. }
      rewrite E at 2.
      apply Qmult_le_compat_r; [|discriminate].
      apply Qmult_le_compat_r; [exact H|].
      apply Qlt_le_weak. now apply Qinv_lt_0_compat.
Qed.

Lemma save_chunks_pushes (total_size downloaded_size : Z) (l : list nat) :
  behaves
    (fun r evs =>
       Forall (fun e => forall p, percent e = Some p ->
                 exists received,
                   (downloaded_size < received \/ downloaded_size = received)%Z /\
                   (0 < total_size)%Z /\
                   p = download_percent received total_size) evs)
    (save_chunks total_size downloaded_size l).
Proof.
  revert downloaded_size. induction l as [|n l IH]; intros d; simpl.
  - apply behaves_ret. constructor.
  - eapply behaves_bind with
      (P1 := fun r evs =>
               Forall (fun e => forall p, percent e = Some p ->
                         exists received,
                           (d < received \/ d = received)%Z /\
                           (0 < total_size)%Z /\
                           p = download_percent received total_size) evs).
    + destruct (0 <? total_size)%Z eqn:E; simpl.
      * apply behaves_put. constructor; [|constructor].
        simpl. intros p [= <-]. exists (d + Z.of_nat n)%Z.
        apply Z.ltb_lt in E. repeat split; auto. lia.
      * apply behaves_ret. constructor.
    + intros. apply IH.
    + intros _ e1 r e2 H1 H2. apply Forall_app. split; auto.
      eapply List.Forall_impl; [|exact H2]. simpl.
      intros e He p Hp. destruct (He p Hp) as (rc & Hrc & Ht & ->).
      exists rc. repeat split; auto. lia.
    + auto.
    + auto.
Qed.

Lemma generate_forwards (f : feed) (m : msg) :
  In (Data m) (fst (generate None f)) -> In m (map snd f).
Proof.
  induction f as [|[d e] f IH]; simpl; [tauto|].
  destruct (d <? 30)%nat; [|simpl; tauto].
  destruct (is_terminal e); simpl.
  - intros [[= <-]|[]]. now left.
  - destruct (generate None f) as [out unread]. simpl in *.
    intros [[= <-]|H]; [now left | right; auto].
Qed.

(** The generator is the loop of the source: pop with a timeout of 30
    seconds, send, stop after a terminal event or on [queue.Empty]. *)
Lemma generate_unfold (f : feed) :
  generate None f
  = match queue_get 30 f with
    | Some (m, rest) =>
        if is_terminal m then ([Data m], rest)
        else let '(out, unread) := generate None rest in (Data m :: out, unread)
    | None => ([], f)
    end.
Proof.
  destruct f as [|[d m] rest]; simpl; [reflexivity|].
  destruct (d <? 30)%nat; [|reflexivity].
  now rewrite orb_false_r.
Qed.

(** A well-formed token at the start of a line is found, with its digits. *)
Lemma match_time_here_token (a b c d e f g h : ascii) (rest : string) :
  forallb PyStr.is_digit [a; b; c; d; e; f; g; h] = true ->
  Re.match_time_here
    ("time=" +:+ String a (String b (String ":" (String c (String d
       (String ":" (String e (String f (String "." (String g (String h rest)))))))))))
  = Some ((10 * PyStr.digit_val a + PyStr.digit_val b)%Z,
          (10 * PyStr.digit_val c + PyStr.digit_val d)%Z,
          (10 * PyStr.digit_val e + PyStr.digit_val f)%Z,
          (10 * PyStr.digit_val g + PyStr.digit_val h)%Z).
Proof.
  cbn [forallb]. rewrite !andb_true_iff.
  intros (Ha & Hb & Hc & Hd & He & Hf & Hg & Hh & _).
  unfold Re.match_time_here, Re.two_digits, Re.expect.
  cbv [String.append].
  cbn -[PyStr.is_digit PyStr.digit_val Z.mul Z.add].
  rewrite Ha, Hb. cbn -[PyStr.is_digit PyStr.digit_val Z.mul Z.add].
  rewrite Hc, Hd. cbn -[PyStr.is_digit PyStr.digit_val Z.mul Z.add].
  rewrite He, Hf. cbn -[PyStr.is_digit PyStr.digit_val Z.mul Z.add].
  rewrite Hg, Hh. reflexivity.
Qed.

Lemma search_time_at_token (a b c d e f g h : ascii) (rest : string) :
  forallb PyStr.is_digit [a; b; c; d; e; f; g; h] = true ->
  Re.search_time
    ("time=" +:+ String a (String b (String ":" (String c (String d
       (String ":" (String e (String f (String "." (String g (String h rest)))))))))))
  = Some ((10 * PyStr.digit_val a + PyStr.digit_val b)%Z,
          (10 * PyStr.digit_val c + PyStr.digit_val d)%Z,
          (10 * PyStr.digit_val e + PyStr.digit_val f)%Z,
          (10 * PyStr.digit_val g + PyStr.digit_val h)%Z).
Proof.
  intros H. apply match_time_here_token with (rest := rest) in H.
  cbv [String.append] in *. cbn [Re.search_time]. now rewrite H.
Qed.

(** The ten-second run of the specification: the last percentage is 100. *)
Example ten_seconds_reach_100 :
  last (omap percent
          (emitted (for_each Scenario.ten_seconds
                      (encode_line "Encoding to AV1..." 10 false))
                   initial_state))
  = Some 100%Q.
Proof. vm_compute. reflexivity. Qed.

(** ** Workers that drain the queue first *)

Lemma Drained_shape {A} (body : W A) (handler : exn -> option (W A))
    (fin : W unit) :
  Framed body -> (forall e h, handler e = Some h -> Framed h) -> Framed fin ->
  Drained (try_finally (try_except (q_drain;; body) handler) fin).
Proof.
  intros Hb Hh Hf s.
  assert (HF : Framed (try_finally (try_except body handler) fin)).
  { apply Framed_try_finally; [apply Framed_try_except|]; auto. }
  destruct (HF (set_queue [] s)) as (evs & (H1 & H2 & H3 & H4) & _).
  exists evs.
  change (try_finally (try_except (q_drain;; body) handler) fin s)
    with (try_finally (try_except body handler) fin (set_queue [] s)).
  simpl in *. repeat split; auto. now apply suffix_app_r.
Qed.

Lemma Drained_bind_ok {A B} (a : A) (f : A -> W B) :
  Drained (f a) -> Drained (ext (Ok a) ≫= f).
Proof. intros H s. exact (H s). Qed.

Ltac framed_handler :=
  let e := fresh "e" in
  let h := fresh "h" in
  let E := fresh "E" in
  intros e h; cbv beta;
  repeat match goal with
         | |- match ?x with _ => _ end = _ -> _ => destruct x
         | |- (if ?c then _ else _) = _ -> _ => destruct c
         end;
  intros E; first [discriminate E | injection E as <-; framed_tac].

Lemma Drained_upload_file_directly_to_pixeldrain env url :
  Drained (upload_file_directly_to_pixeldrain env url).
Proof.
  unfold upload_file_directly_to_pixeldrain.
  apply Drained_shape; [framed_tac | framed_handler | framed_tac].
Qed.

Lemma Drained_encode_file env a :
  is_ok (ee_prepare env) = true -> Drained (encode_file env a).
Proof.
  intros Hp. unfold encode_file.
  destruct (ee_prepare env) as [[output_path safe_output]|]; [|discriminate].
  apply Drained_bind_ok.
  apply Drained_shape; [framed_tac | framed_handler | framed_tac].
Qed.

Lemma Drained_download_file_directly env url p g username password :
  Drained (download_file_directly env url p g username password).
Proof.
  unfold download_file_directly. generalize fallback_credentials as creds.
  intros creds.
  apply Drained_shape; [framed_tac | framed_handler | framed_tac].
Qed.

Lemma Drained_manual_merge_worker env url video_id audio_id filename p f g :
  is_ok (mm_prepare env) = true ->
  Drained (manual_merge_worker env url video_id audio_id filename p f g).
Proof.
  intros Hp. unfold manual_merge_worker.
  destruct (mm_prepare env) as [final_path|]; [|discriminate].
  apply Drained_bind_ok.
  apply Drained_shape; [framed_tac | framed_handler | framed_tac].
Qed.

Lemma Drained_download_and_convert env url video_id audio_id filename codec
    preset pass_mode bitrate crf audio_bitrate fps scale force_stereo is_muxed
    p g aq_mode variance_boost tiles enable_vmaf use_cookies :
  is_ok (dc_prepare env) = true ->
  Drained (download_and_convert env url video_id audio_id filename codec preset
             pass_mode bitrate crf audio_bitrate fps scale force_stereo is_muxed
             p g aq_mode variance_boost tiles enable_vmaf use_cookies).
Proof.
  intros Hp. unfold download_and_convert.
  destruct (dc_prepare env) as [final_path|]; [|discriminate].
  apply Drained_bind_ok.
  apply Drained_shape; [|framed_handler|framed_tac].
  do 5 (apply Framed_bind; [framed_tac | intros]).
  apply Framed_bind.
  - destruct (String.eqb codec "none"); [framed_tac|].
    apply Framed_call, Framed_encode_file.
  - intros. framed_tac.
Qed.

Lemma Drained_run_task (t : task) :
  drains_first t = true -> reaches_try t = true -> Drained (run_task t).
Proof.
  destruct t; simpl; intros Hd Hr; try discriminate.
  - apply Drained_upload_file_directly_to_pixeldrain.
  - now apply Drained_encode_file.
  - apply Drained_download_file_directly.
  - now apply Drained_download_and_convert.
  - now apply Drained_manual_merge_worker.
Qed.

(** A task that drains first leaves in the queue only events of its own:
    whatever a stream then delivers was pushed by this task. *)
Theorem draining_task_leaves_no_stale_event (t : task) (s : state) :
  drains_first t = true -> reaches_try t = true ->
  exists evs,
    pushed (start_task t s) = pushed s ++ evs /\
    forall m, In (Data m) (fst (progress_stream (start_task t s))) -> In m evs.
Proof.
  intros Hd Hr. unfold start_task, thread.
  destruct (Drained_run_task t Hd Hr
              (set_session (<["task_active" := SBool true]> (session s)) s))
    as (evs & (H1 & _) & Hq).
  exists evs. split; [exact H1|].
  intros m Hin. unfold progress_stream in Hin.
  destruct (generate None (queued _)) as [out unread] eqn:E.
  simpl in Hin.
  assert (Hm : In m (map snd (queued (progress_queue
             (run_task t (set_session (<["task_active" := SBool true]> (session s)) s)).2)))).
  { apply generate_forwards. now rewrite E. }
  unfold queued in Hm. rewrite map_map, map_id in Hm.
  apply list_elem_of_In. eapply elem_of_suffix; [|exact Hq].
  now apply list_elem_of_In.
Qed.

(** ** Workers with a [try] block let no exception out *)

Lemma Calm_shape {A} (body : W A) (handler : exn -> option (W A))
    (fin : W unit) :
  Framed body ->
  (forall e, exists h, handler e = Some h /\ Reports h) ->
  Calm fin ->
  Calm (try_finally (try_except body handler) fin).
Proof.
  intros Hb Hh Hf.
  apply behaves_try_finally with (P := calm_post) (F := calm_post).
  - apply behaves_try_except with (P := framed_post) (H := reports_post).
    + exact Hb.
    + intros e h E. destruct (Hh e) as (h' & E' & Hr).
      rewrite E in E'. injection E' as <-. exact Hr.
    + reflexivity.
    + reflexivity.
    + intros x evs E. destruct (Hh x) as (h' & E' & _). congruence.
    + unfold calm_post, reports_post. intros x e1 r e2 _ (_ & a & ->).
      reflexivity.
  - exact Hf.
  - unfold calm_post. auto.
  - unfold calm_post. reflexivity.
  - unfold calm_post. simpl. intros r x e1 e2 _ H. discriminate.
Qed.

Lemma Calm_put (m : msg) : Calm (q_put m).
Proof. now apply behaves_put. Qed.

Lemma Calm_when_put (c : bool) (m : msg) : Calm (when c (q_put m)).
Proof. destruct c; [apply Calm_put | now apply behaves_ret]. Qed.

Lemma Calm_encode_finally (c : bool) (m : msg) :
  Calm (assign_current_process None;; when c (q_put m)).
Proof.
  eapply behaves_bind with (P1 := calm_post) (P2 := calm_post).
  - now apply behaves_assign.
  - intros. apply Calm_when_put.
  - auto.
  - auto.
  - unfold calm_post. simpl. intros; discriminate.
Qed.

Lemma Calm_bind_ok {A B} (a : A) (f : A -> W B) :
  Calm (f a) -> Calm (ext (Ok a) ≫= f).
Proof. intros H s. exact (H s). Qed.

Theorem guarded_tasks_never_raise (t : task) (s : state) :
  reaches_try t = true -> is_raised (fst (run_task t s)) = false.
Proof.
  intros Hr.
  enough (H : Calm (run_task t)).
  { destruct (H s) as (evs & _ & Hc). exact Hc. }
  destruct t; simpl in *; try discriminate.
  - apply Calm_shape; [framed_tac | handler_tac | apply Calm_put].
  - apply Calm_shape; [framed_tac | handler_tac | apply Calm_put].
  - apply Calm_shape; [framed_tac | handler_tac | apply Calm_put].
  - apply Calm_shape; [framed_tac | handler_tac | apply Calm_put].
  - unfold encode_file.
    destruct (ee_prepare env) as [[output_path safe_output]|]; [|discriminate].
    apply Calm_bind_ok.
    apply Calm_shape; [framed_tac | handler_tac | apply Calm_encode_finally].
  - unfold download_file_directly. generalize fallback_credentials as creds.
    intros creds.
    apply Calm_shape; [framed_tac | handler_tac | apply Calm_when_put].
  - unfold download_and_convert.
    destruct (dc_prepare env) as [final_path|]; [|discriminate].
    apply Calm_bind_ok.
    apply Calm_shape; [|handler_tac|apply Calm_when_put].
    do 6 (apply Framed_bind; [framed_tac | intros]).
    apply Framed_bind.
    + match goal with
      | |- context [String.eqb ?c "none"] => destruct (String.eqb c "none")
      end; [framed_tac|].
      apply Framed_call, Framed_encode_file.
    + intros. framed_tac.
  - unfold manual_merge_worker.
    destruct (mm_prepare env) as [final_path|]; [|discriminate].
    apply Calm_bind_ok.
    apply Calm_shape; [framed_tac | handler_tac | apply Calm_when_put].
Qed.

(** ** Paths on which the sentinel is duplicated or missing *)

(** The early [return] of [upload_to_4stream] pushes [DONE], and the
    [finally] block pushes it again. *)
Example missing_key_pushes_DONE_twice :
  emitted (upload_to_4stream Scenario.fourstream_no_key "downloads/a.mkv" "a.mkv")
          initial_state
  = [ev_error "4stream API key not configured"; DONE; DONE].
Proof. reflexivity. Qed.

(** A file that is not media: one error event, then the sentinel. *)
Example rejected_file_pushes_error_then_DONE :
  emitted (encode_file Scenario.copy_env Scenario.encode_text_file) initial_state
  = [ev_progress "Initializing encoding..." 0;
     ev_error "File type cannot be encoded."; DONE].
Proof. reflexivity. Qed.

(** An encoder that exits with code 1: one error event, then the
    sentinel. *)
Example failed_encode_pushes_error_then_DONE :
  let evs := emitted (encode_file Scenario.failing_encoder Scenario.encode_av1)
                     initial_state in
  count_error evs = 1%nat /\ count_done evs = 1%nat /\ last evs = Some DONE.
Proof. vm_compute. auto. Qed.

(** [download_and_convert] with an encode: [encode_file] pushes its own
    sentinel, and the caller pushes a second one. *)
Example convert_with_encode_pushes_DONE_twice :
  count_done
    (emitted (download_and_convert Scenario.convert_av1 "https://v.example/w"
                "137" "140" "v.mkv" "av1" "7" "1-pass" "" "45" "32" "" ""
                true false false false "1" "1" "2x2" false true)
             initial_state)
  = 2%nat.
Proof. vm_compute. reflexivity. Qed.

(** [manual_merge_worker] with an upload requested and no file under the
    final path: the upload is skipped, the [finally] block stays silent,
    and no terminal event is pushed at all. *)
Example merge_without_file_pushes_no_terminal_event :
  count_terminal
    (emitted (manual_merge_worker Scenario.merge_without_file
                "https://v.example/w" "137" "140" "v.mkv" true false false)
             initial_state)
  = 0%nat.
Proof. vm_compute. reflexivity. Qed.

(* ================================================================== *)
(** * The claims *)
(* ================================================================== *)

(** C1, as stated, fails: a Pixeldrain upload whose POST fails pushes an
    error event and then the [DONE] sentinel, two terminal events. *)
Lemma failed_upload_pushes_error_and_DONE :
  let evs :=
    emitted (run_task (UploadToPixeldrain Scenario.pixeldrain_down
                         "downloads/a.mkv" "a.mkv")) initial_state in
  count_error evs = 1%nat /\ count_done evs = 1%nat /\ count_terminal evs <> 1%nat.
Proof. vm_compute. repeat split; discriminate. Qed.

(** C1, amended.  Every invocation of a worker that is not chained to an
    upload and that reaches its [try] block ends its events with the
    [DONE] sentinel, pushes at most one error event (which [DONE] then
    follows), and lets no exception escape; [DONE] is pushed exactly once
    when the worker has a single place that pushes it. *)
Theorem unchained_worker_discipline (t : task) (s : state) :
  unchained t = true -> reaches_try t = true ->
  let evs := emitted (run_task t) s in
  last evs = Some DONE /\
  (count_error evs <= 1)%nat /\
  is_raised (ending (run_task t) s) = false /\
  (single_sentinel t = true -> count_done evs = 1%nat).
Proof.
  intros Hu Hr evs.
  pose proof (behaves_emitted _ _ (unchained_tasks_Closed t Hu Hr) s)
    as (Hl & He & Hx).
  repeat split; auto.
  intros Hs.
  exact (behaves_emitted _ _ (single_sentinel_tasks_Once t Hu Hr Hs) s).
Qed.

(** The amended C1 at a Pixeldrain upload whose POST fails. *)
Lemma unchained_worker_discipline_witness :
  let t := UploadToPixeldrain Scenario.pixeldrain_down "downloads/a.mkv" "a.mkv" in
  unchained t = true /\ reaches_try t = true /\
  let evs := emitted (run_task t) initial_state in
  last evs = Some DONE /\
  (count_error evs <= 1)%nat /\
  is_raised (ending (run_task t) initial_state) = false /\
  (single_sentinel t = true -> count_done evs = 1%nat).
Proof.
  split; [reflexivity|]. split; [reflexivity|].
  apply (unchained_worker_discipline
           (UploadToPixeldrain Scenario.pixeldrain_down "downloads/a.mkv" "a.mkv")
           initial_state); reflexivity.
Defined.

(** C2 fails on the code: [ffmpeg_merge_with_progress] has no handler.
    When the encoder binary is missing, the exception of
    [subprocess.Popen] leaves the thread, no event is pushed, and the
    stream gets nothing before its timeout. *)
Theorem merge_thread_dies_without_terminal_event :
  let t := FfmpegMergeWithProgress Scenario.no_ffmpeg Scenario.merge_inputs
             "downloads/merged.mp4" in
  ending (run_task t) initial_state
  = Raised (Exn OtherException "[Errno 2] No such file or directory: 'ffmpeg'")
  /\ count_terminal (emitted (run_task t) initial_state) = 0%nat
  /\ fst (progress_stream (thread t initial_state)) = [].
Proof. vm_compute. auto. Qed.

(** C3 fails on the code: [encode_file] with the Pixeldrain and the
    Gofile upload both requested and succeeding pushes [DONE] twice, the
    first time between the two upload completion stages; the stream
    closes there and the Gofile events stay in the queue. *)
Theorem two_uploads_push_two_sentinels :
  let t := EncodeFile Scenario.copy_env Scenario.copy_two_uploads in
  let evs := emitted (run_task t) initial_state in
  count_done evs = 2%nat /\
  map (fun m => (stage m, log m)) evs
  = [(Some "Initializing encoding...", None);
     (Some "✅ Copied!", None);
     (Some "Uploading 'out.mkv' to Pixeldrain...", None);
     (Some "Sending data...", None);
     (Some "✅ Pixeldrain Upload Complete!", None);
     (None, Some "Success! Link: https://pixeldrain.com/u/abc");
     (None, Some "DONE");
     (Some "Getting Gofile upload server...", None);
     (Some "Got server 'store1', uploading file...", None);
     (None, Some "Gofile Raw Result: {...}");
     (None, Some "Captured File ID: id1");
     (None, Some "Constructed Gofile link: https://store1.gofile.io/download/web/id1/out.mkv");
     (Some "✅ Gofile Upload Complete!", None);
     (None, Some "Success! File uploaded to Gofile: out.mkv");
     (None, Some "DONE")] /\
  events (fst (progress_stream (start_task t initial_state))) = firstn 7 evs /\
  progress_queue (snd (progress_stream (start_task t initial_state)))
  = skipn 7 evs.
Proof. vm_compute. auto. Qed.

(** C4 fails on the code: [upload_to_pixeldrain], the task that
    [upload_direct] starts, does not drain the queue.  The [DONE] a
    failed upload leaves unread is the first and only frame of the next
    upload's stream. *)
Theorem stale_sentinel_reaches_next_stream :
  let first := UploadToPixeldrain Scenario.pixeldrain_down "downloads/a.mkv" "a.mkv" in
  let second := UploadToPixeldrain Scenario.pixeldrain_up "downloads/b.mkv" "b.mkv" in
  let after_first := snd (progress_stream (start_task first initial_state)) in
  progress_queue after_first = [DONE] /\
  fst (progress_stream (start_task second after_first)) = [Data DONE].
Proof. vm_compute. auto. Qed.

(** C5 fails on the code: [download_file_directly] pushes
    [(downloaded_size / total_size) * 100] as it is, where the encode
    loop bounds its percentage by [min(100, ...)].  A direct download
    that receives 80 bytes against a content-length of 40 pushes the
    percentage 200, and the stream delivers it as it is. *)
Theorem percent_above_100_is_delivered :
  In (Data (ev_progress "Downloading..." (download_percent 80 40)))
     (fst (progress_stream (start_task Scenario.long_download initial_state)))
  /\ ~ (download_percent 80 40 <= 100)%Q.
Proof.
  split.
  - vm_compute. tauto.
  - vm_compute. intros H. apply H. reflexivity.
Qed.

(** The sibling path: every percentage the encode loop pushes lies in
    [0, 100]. *)
Lemma encode_percent_stays_in_range stage_msg duration vmaf line s m p :
  In m (emitted (encode_line stage_msg duration vmaf line) s) ->
  percent m = Some p -> (0 <= p <= 100)%Q.
Proof.
  intros Hin Hp.
  pose proof (behaves_emitted _ _
                (encode_line_pushes stage_msg duration vmaf line) s)
    as (_ & _ & HF).
  rewrite List.Forall_forall in HF. eauto.
Qed.

(** The percentages of a direct download follow the bytes received: with
    a positive content-length the loop pushes, after each chunk, the
    bytes received so far over the content-length, times 100, and
    nothing else. *)
Lemma save_chunks_pushed (total_size downloaded_size : Z) (l : list nat)
    (s : state) :
  (0 < total_size)%Z ->
  pushed (snd (save_chunks total_size downloaded_size l s))
  = pushed s
    ++ map (fun k =>
              ev_progress "Downloading..."
                (download_percent
                   (downloaded_size + Z.of_nat (list_sum (firstn k l)))
                   total_size))
           (seq 1 (length l)).
Proof.
  intros Ht. revert downloaded_size s.
  induction l as [|n l IH]; intros d s.
  - cbn. now rewrite app_nil_r.
  - cbn [save_chunks length seq map].
    apply Z.ltb_lt in Ht. rewrite Ht. apply Z.ltb_lt in Ht.
    unfold when, mbind, W_bind, q_put. cbn [fst snd].
    rewrite IH. cbn [pushed set_pushed set_queue].
    rewrite <- app_assoc. cbn [app]. f_equal. f_equal.
    + do 2 f_equal. simpl. lia.
    + rewrite <- (seq_shift (length l) 1), map_map. apply map_ext. intros k.
      do 2 f_equal. simpl. lia.
Qed.

Lemma save_chunks_emits (total_size : Z) (l : list nat) (s : state) :
  (0 < total_size)%Z ->
  emitted (save_chunks total_size 0 l) s
  = map (fun k =>
           ev_progress "Downloading..."
             (download_percent (Z.of_nat (list_sum (firstn k l))) total_size))
        (seq 1 (length l)).
Proof.
  intros Ht. unfold emitted. rewrite (save_chunks_pushed _ _ _ _ Ht).
  reflexivity.
Qed.

(** So a direct download pushes a percentage above 100 as soon as the
    bytes received exceed the content-length. *)
Lemma download_percent_overshoots (total_size : Z) (l : list nat) (s : state)
    (k : nat) :
  (0 < total_size)%Z -> (1 <= k <= length l)%nat ->
  (total_size < Z.of_nat (list_sum (firstn k l)))%Z ->
  exists m p,
    In m (emitted (save_chunks total_size 0 l) s) /\
    percent m = Some p /\ ~ (p <= 100)%Q.
Proof.
  intros Ht Hk Hover. rewrite (save_chunks_emits _ _ _ Ht).
  set (received := Z.of_nat (list_sum (firstn k l))) in *.
  exists (ev_progress "Downloading..." (download_percent received total_size)),
         (download_percent received total_size).
  split; [|split; [reflexivity|]].
  - apply in_map_iff. exists k. split; [reflexivity|].
    apply in_seq. lia.
  - intros H.
    apply (download_percent_range _ _ Ht) in H; lia.
Qed.

(** C6.  When a process is registered and still alive, the stop endpoint
    sends it SIGKILL (never SIGTERM), waits for its exit with a timeout of
    two seconds once the kill went through, clears the handle and answers
    success; a stop that follows at once answers "nothing to stop". *)
Theorem stop_kills_and_clears (env : stop_env) (s : state) (p : popen) :
  current_process s = Some p -> returncode p = None ->
  let '(r, s') := stop_encode env s in
  r = Reply "success" "Encoding process stopped." 200 /\
  os_log s'
  = os_log s ++ SendSignal (pid p) SIGKILL
                :: (if is_ok (kill_result env) then [WaitExit (pid p) 2] else []) /\
  current_process s' = None /\
  forall env', fst (stop_encode env' s')
               = Reply "error" "No active encoding process to stop." 400.
Proof.
  intros Hc Hr. unfold stop_encode. rewrite Hc, Hr.
  unfold try_finally, try_except, os_call, mbind, W_bind, assign_current_process,
    session_pop, pass, mret, W_ret.
  destruct (kill_result env), (wait_result env); simpl;
    rewrite <- ?app_assoc; auto.
Qed.

(** C6 at a registered process that is running, with a kill that works. *)
Lemma stop_kills_and_clears_witness :
  let s := set_current_process (Some Scenario.live_process) initial_state in
  current_process s = Some Scenario.live_process /\
  returncode Scenario.live_process = None /\
  let '(r, s') := stop_encode Scenario.kill_works s in
  r = Reply "success" "Encoding process stopped." 200 /\
  os_log s'
  = os_log s ++ SendSignal (pid Scenario.live_process) SIGKILL
                :: (if is_ok (kill_result Scenario.kill_works)
                    then [WaitExit (pid Scenario.live_process) 2] else []) /\
  current_process s' = None /\
  forall env', fst (stop_encode env' s')
               = Reply "error" "No active encoding process to stop." 400.
Proof.
  split; [reflexivity|]. split; [reflexivity|].
  apply (stop_kills_and_clears Scenario.kill_works
           (set_current_process (Some Scenario.live_process) initial_state)
           Scenario.live_process); reflexivity.
Defined.

(** C7.  When no process is registered, or the registered one has
    already exited, the stop endpoint answers the "nothing to stop"
    failure (status 400) and changes nothing. *)
Theorem stop_without_process (env : stop_env) (s : state) :
  current_process s = None \/
  (exists p code, current_process s = Some p /\ returncode p = Some code) ->
  stop_encode env s
  = (Reply "error" "No active encoding process to stop." 400, s).
Proof.
  intros [H | (p & code & Hp & Hc)]; unfold stop_encode.
  - now rewrite H.
  - now rewrite Hp, Hc.
Qed.

(** C7 at the initial state, where no process is registered. *)
Lemma stop_without_process_witness :
  (current_process initial_state = None \/
   (exists p code, current_process initial_state = Some p
                   /\ returncode p = Some code)) /\
  stop_encode Scenario.kill_works initial_state
  = (Reply "error" "No active encoding process to stop." 400, initial_state).
Proof.
  split; [left; reflexivity|].
  apply (stop_without_process Scenario.kill_works initial_state).
  left. reflexivity.
Defined.

(** A registered process that has already exited is not stopped again. *)
Example stop_after_exit :
  stop_encode Scenario.kill_works
    (set_current_process (Some Scenario.dead_process) initial_state)
  = (Reply "error" "No active encoding process to stop." 400,
     set_current_process (Some Scenario.dead_process) initial_state).
Proof. reflexivity. Qed.

(** C8.  The stream sends, in order, the events that arrive within 30
    seconds of each pop; it sends nothing after a terminal event, and it
    closes either right after a terminal event or on a pop that times
    out. *)
Theorem stream_relays_until_terminal_or_timeout (f : feed) :
  let '(out, unread) := generate None f in
  exists sent : feed,
    f = sent ++ unread /\
    out = map (fun dm => Data (snd dm)) sent /\
    Forall (fun dm => (fst dm < 30)%nat) sent /\
    Forall (fun m => is_terminal m = false) (removelast (map snd sent)) /\
    ((exists m, last (map snd sent) = Some m /\ is_terminal m = true)
     \/ queue_get 30 unread = None).
Proof.
  induction f as [|[d m] f IH]; simpl.
  - exists []. repeat split; auto.
  - destruct (d <? 30)%nat eqn:Ed.
    + apply Nat.ltb_lt in Ed. rewrite orb_false_r.
      destruct (is_terminal m) eqn:Et.
      * exists [(d, m)]. simpl. repeat split; auto.
        left. exists m. auto.
      * destruct (generate None f) as [out unread].
        destruct IH as (sent & -> & -> & Hd & Hn & Hc).
        exists ((d, m) :: sent). simpl. repeat split; auto.
        -- destruct (map snd sent) as [|m0 l]; constructor; auto.
        -- destruct Hc as [(m' & Hl & Ht)|Hq]; [left|right; exact Hq].
           exists m'. split; auto.
           destruct (map snd sent) as [|m0 l]; [discriminate Hl|exact Hl].
    + exists []. simpl. repeat split; auto. right. now rewrite Ed.
Qed.

(** C9.  In an encode with a positive total duration, every output line
    in which the first token [time=HH:MM:SS.cc] reads [HH], [MM], [SS],
    [cc] makes the loop push a progress event whose percentage is
    [min(100, (3600*HH + 60*MM + SS + cc/100) / total_duration * 100)]. *)
Theorem time_percent_follows_spec (stage_msg : string) (duration : Q)
    (vmaf : bool) (lines : list string) (line : string) (HH MM SS cc : Z)
    (st : state) :
  (0 < duration)%Q ->
  In line lines ->
  Re.search_time line = Some (HH, MM, SS, cc) ->
  exists p,
    In (ev_progress stage_msg p)
       (emitted (for_each lines (encode_line stage_msg duration vmaf)) st) /\
    (p == spec_time_percent HH MM SS cc duration)%Q /\
    (p <= 100)%Q.
Proof.
  intros Hd Hin Hs.
  pose proof (behaves_emitted _ _
                (encode_lines_push stage_msg duration vmaf lines) st)
    as (_ & H & _).
  exists (time_percent HH MM SS cc duration). split; [eauto|]. split.
  - apply time_percent_spec.
  - apply Q.le_min_l.
Qed.

(** C9 at the fifth line of the ten-second run: 50 percent. *)
Lemma time_percent_follows_spec_witness :
  (0 < 10)%Q /\
  In "time=00:00:05.00" Scenario.ten_seconds /\
  Re.search_time "time=00:00:05.00" = Some (0, 0, 5, 0)%Z /\
  exists p,
    In (ev_progress "Encoding to AV1..." p)
       (emitted (for_each Scenario.ten_seconds
                   (encode_line "Encoding to AV1..." 10 false)) initial_state) /\
    (p == spec_time_percent 0 0 5 0 10)%Q /\
    (p <= 100)%Q.
Proof.
  split; [reflexivity|]. split; [simpl; tauto|]. split; [reflexivity|].
  apply (time_percent_follows_spec "Encoding to AV1..." 10 false
           Scenario.ten_seconds "time=00:00:05.00" 0 0 5 0 initial_state).
  - reflexivity.
  - simpl. tauto.
  - reflexivity.
Defined.

(** C10.  [start_task] sets the session flag [task_active] to true.  A
    stop that kills a live process removes that flag from the session; a
    stop that finds nothing to stop leaves the session as it is. *)
Theorem stop_drops_task_active (env : stop_env) (s : state) (t : task) :
  session (start_task t s) !! "task_active" = Some (SBool true) /\
  (forall p, current_process s = Some p -> returncode p = None ->
     session (snd (stop_encode env s)) = delete "task_active" (session s) /\
     session (snd (stop_encode env s)) !! "task_active" = None) /\
  (current_process s = None \/
   (exists p code, current_process s = Some p /\ returncode p = Some code) ->
   session (snd (stop_encode env s)) = session s).
Proof.
  split; [|split].
  - unfold start_task. rewrite thread_keeps_session. simpl.
    apply lookup_insert_eq.
  - intros p Hc Hr. unfold stop_encode. rewrite Hc, Hr.
    unfold try_finally, try_except, os_call, mbind, W_bind,
      assign_current_process, session_pop, pass, mret, W_ret.
    destruct (kill_result env), (wait_result env); simpl;
      (split; [reflexivity | apply lookup_delete_eq]).
  - intros [H | (p & code & Hp & Hc)]; unfold stop_encode.
    + now rewrite H.
    + now rewrite Hp, Hc.
Qed.

(** C10 at a task that was started and whose process is stopped. *)
Lemma stop_drops_task_active_witness :
  let t := UploadToPixeldrain Scenario.pixeldrain_up "downloads/a.mkv" "a.mkv" in
  let s := set_current_process (Some Scenario.live_process)
             (start_task t initial_state) in
  current_process s = Some Scenario.live_process /\
  returncode Scenario.live_process = None /\
  session s !! "task_active" = Some (SBool true) /\
  session (snd (stop_encode Scenario.kill_works s)) !! "task_active" = None.
Proof.
  split; [reflexivity|]. split; [reflexivity|]. split; [vm_compute; reflexivity|].
  apply (proj1 (proj2 (stop_drops_task_active Scenario.kill_works
           (set_current_process (Some Scenario.live_process)
              (start_task (UploadToPixeldrain Scenario.pixeldrain_up
                             "downloads/a.mkv" "a.mkv") initial_state))
           (UploadToPixeldrain Scenario.pixeldrain_up "downloads/a.mkv" "a.mkv")))
         Scenario.live_process); reflexivity.
Defined.

(* ================================================================== *)
(** * Further properties of the code *)
(* ================================================================== *)

Import Names OsPath Files History Routes MergeFiles.

(** ** Facts about texts *)

(** The section keeps the import of [PyStr] to these facts. *)
Section StringFacts.
Import PyStr.

Lemma str_app_cons c (a b : string) : String c a +:+ b = String c (a +:+ b).
Proof. reflexivity. Qed.

Lemma str_app_nil (b : string) : EmptyString +:+ b = b.
Proof. reflexivity. Qed.

Lemma every_app f a b : every f (a +:+ b) = every f a && every f b.
Proof.
  induction a as [|c a IH]; [reflexivity|].
  rewrite str_app_cons. simpl. now rewrite IH, andb_assoc.
Qed.

Lemma every_impl (f g : ascii -> bool) s :
  (forall c, f c = true -> g c = true) -> every f s = true -> every g s = true.
Proof.
  intros H. induction s as [|c s IH]; simpl; [reflexivity|].
  rewrite !andb_true_iff. intros [? ?]. auto.
Qed.

Lemma str_rev_cons c r : rev (String c r) = rev r +:+ String c EmptyString.
Proof.
  unfold rev. simpl.
  induction (List.rev (list_ascii_of_string r)) as [|x l IH]; [reflexivity|].
  simpl. now rewrite str_app_cons, IH.
Qed.

Lemma str_app_nil_r s : s +:+ EmptyString = s.
Proof. induction s as [|c s IH]; [reflexivity|]. now rewrite str_app_cons, IH. Qed.

Lemma str_app_assoc (a b c : string) : (a +:+ b) +:+ c = a +:+ (b +:+ c).
Proof. induction a as [|x a IH]; [reflexivity|]. now rewrite !str_app_cons, IH. Qed.

Lemma str_rev_app a b : rev (a +:+ b) = rev b +:+ rev a.
Proof.
  induction a as [|c a IH].
  - change (rev b = rev b +:+ EmptyString). now rewrite str_app_nil_r.
  - change (rev (String c (a +:+ b)) = rev b +:+ rev (String c a)).
    rewrite !str_rev_cons, IH. now rewrite str_app_assoc.
Qed.

Lemma str_rev_involutive s : rev (rev s) = s.
Proof.
  induction s as [|c s IH]; [reflexivity|].
  rewrite str_rev_cons, str_rev_app, IH. reflexivity.
Qed.

Lemma every_rev f s : every f (rev s) = every f s.
Proof.
  induction s as [|c s IH]; [reflexivity|].
  rewrite str_rev_cons, every_app, IH. simpl. rewrite andb_true_r. apply andb_comm.
Qed.

Lemma lstrip_all_space s : every is_space s = true -> lstrip s = EmptyString.
Proof.
  induction s as [|c s IH]; simpl; [reflexivity|].
  rewrite andb_true_iff. intros [-> ?]. auto.
Qed.

Lemma lstrip_app a b :
  lstrip (a +:+ b) = if every is_space a then lstrip b else lstrip a +:+ b.
Proof.
  induction a as [|c a IH]; [reflexivity|].
  rewrite str_app_cons. simpl.
  destruct (is_space c); simpl; [exact IH | reflexivity].
Qed.

Lemma rstrip_empty s : rstrip s = EmptyString <-> every is_space s = true.
Proof.
  induction s as [|c s IH]; simpl; [tauto|].
  destruct (rstrip s) eqn:E.
  - destruct (is_space c); simpl; [tauto | split; discriminate].
  - split; [discriminate|]. rewrite andb_true_iff. intros [_ H].
    apply IH in H. discriminate.
Qed.

Lemma rev_lstrip_rev s : rev (lstrip (rev s)) = rstrip s.
Proof.
  induction s as [|c s IH]; [reflexivity|].
  rewrite str_rev_cons, lstrip_app, every_rev. simpl.
  destruct (every is_space s) eqn:E.
  - apply rstrip_empty in E. rewrite E. now destruct (is_space c).
  - rewrite str_rev_app, IH. simpl.
    destruct (rstrip s) eqn:E'; [|reflexivity].
    assert (every is_space s = true) by now apply rstrip_empty.
    congruence.
Qed.

Lemma strip_split s : strip s = rstrip (lstrip s).
Proof. unfold strip. apply rev_lstrip_rev. Qed.

Lemma every_lstrip f s : every f s = true -> every f (lstrip s) = true.
Proof.
  induction s as [|c s IH]; simpl; [reflexivity|].
  rewrite andb_true_iff. intros [Hc Hs].
  destruct (is_space c); simpl; [auto | now rewrite Hc, Hs].
Qed.

Lemma every_rstrip f s : every f s = true -> every f (rstrip s) = true.
Proof.
  induction s as [|c s IH]; simpl; [reflexivity|].
  rewrite andb_true_iff. intros [Hc Hs]. specialize (IH Hs).
  destruct (rstrip s).
  - destruct (is_space c); simpl; [reflexivity | now rewrite Hc].
  - change (f c && every f (String a s0) = true). now rewrite Hc.
Qed.

Lemma every_strip f s : every f s = true -> every f (strip s) = true.
Proof. intros. rewrite strip_split. now apply every_rstrip, every_lstrip. Qed.

Lemma every_squeeze f b s :
  f " "%char = true -> every f s = true -> every f (squeeze b s) = true.
Proof.
  intros Hsp. revert b. induction s as [|c s IH]; intros b; simpl; [reflexivity|].
  rewrite andb_true_iff. intros [Hc Hs].
  destruct (is_space c); [destruct b|]; simpl; rewrite ?Hsp, ?Hc; simpl; auto.
Qed.

Lemma every_replace_reserved f s :
  f "_"%char = true -> every f s = true -> every f (replace_reserved s) = true.
Proof.
  intros Hu. induction s as [|c s IH]; simpl; [reflexivity|].
  rewrite andb_true_iff. intros [Hc Hs].
  destruct (is_reserved c); rewrite ?Hu, ?Hc; simpl; auto.
Qed.

Lemma replace_reserved_clean s :
  every (fun c => negb (is_reserved c)) (replace_reserved s) = true.
Proof.
  induction s as [|c s IH]; simpl; [reflexivity|].
  destruct (is_reserved c) eqn:E; simpl; [exact IH|]. now rewrite E.
Qed.

Lemma every_concat f sep parts :
  every f sep = true -> Forall (fun p => every f p = true) parts ->
  every f (String.concat sep parts) = true.
Proof.
  intros Hs H. induction H as [|p l Hp Hl IH]; [reflexivity|].
  simpl. destruct l as [|q l]; [exact Hp|].
  change (every f (p +:+ sep +:+ String.concat sep (q :: l)) = true).
  now rewrite !every_app, Hp, Hs, IH.
Qed.

Lemma split_nonempty sep s : Path.split sep s <> [].
Proof.
  destruct s as [|c s]; simpl; [discriminate|].
  destruct (Ascii.eqb c sep); [discriminate|].
  destruct (Path.split sep s); discriminate.
Qed.

Lemma every_split f sep s :
  every f s = true -> Forall (fun p => every f p = true) (Path.split sep s).
Proof.
  induction s as [|c s IH]; simpl.
  - intros _. now constructor.
  - rewrite andb_true_iff. intros [Hc Hs]. specialize (IH Hs).
    destruct (Ascii.eqb c sep).
    + now constructor.
    + destruct (Path.split sep s) as [|p ps].
      * constructor; [simpl; now rewrite Hc | constructor].
      * inversion IH as [|? ? Hp Hps]; subst.
        constructor; [simpl; now rewrite Hc, Hp | exact Hps].
Qed.

(** The parts of a split never hold the separator. *)
Lemma split_parts sep s :
  Forall (fun p => every (fun c => negb (Ascii.eqb c sep)) p = true)
         (Path.split sep s).
Proof.
  induction s as [|c s IH]; simpl.
  - now constructor.
  - destruct (Ascii.eqb c sep) eqn:E.
    + now constructor.
    + destruct (Path.split sep s) as [|p ps].
      * constructor; [simpl; now rewrite E | constructor].
      * inversion IH as [|? ? Hp Hps]; subst.
        constructor; [simpl; now rewrite E, Hp | exact Hps].
Qed.

Lemma concat_split (sep : ascii) s :
  String.concat (String sep EmptyString) (Path.split sep s) = s.
Proof.
  induction s as [|c s IH]; [reflexivity|]. simpl.
  pose proof (split_nonempty sep s) as Hne.
  destruct (Ascii.eqb c sep) eqn:E.
  - apply Ascii.eqb_eq in E as ->.
    destruct (Path.split sep s) as [|p ps]; [contradiction|].
    change (String.concat (String sep "") ("" :: p :: ps))
      with (String sep (String.concat (String sep "") (p :: ps))).
    now rewrite IH.
  - destruct (Path.split sep s) as [|p ps]; [contradiction|].
    destruct ps as [|q ps]; simpl in *; now rewrite <- IH.
Qed.

Lemma split_concat (sep : ascii) parts :
  parts <> [] ->
  Forall (fun p => every (fun c => negb (Ascii.eqb c sep)) p = true) parts ->
  Path.split sep (String.concat (String sep EmptyString) parts) = parts.
Proof.
  intros Hne H. induction H as [|p l Hp Hl IH]; [contradiction|].
  destruct l as [|q l].
  - clear IH Hne. simpl. induction p as [|c p IHp]; [reflexivity|].
    simpl in *. apply andb_true_iff in Hp as [Hc Hp].
    apply negb_true_iff in Hc. rewrite Hc, (IHp Hp). reflexivity.
  - specialize (IH ltac:(discriminate)).
    change (String.concat (String sep "") (p :: q :: l))
      with (p +:+ String sep (String.concat (String sep "") (q :: l))).
    clear Hne. induction p as [|c p IHp].
    + rewrite str_app_nil. cbn [Path.split]. rewrite Ascii.eqb_refl. now rewrite IH.
    + rewrite str_app_cons. cbn [Path.split every] in *.
      apply andb_true_iff in Hp as [Hc Hp].
      apply negb_true_iff in Hc. rewrite Hc, (IHp Hp). reflexivity.
Qed.

Lemma spaced_squeeze b s : spaced b (squeeze b s) = true.
Proof.
  revert b. induction s as [|c s IH]; intros b; [reflexivity|]. simpl.
  destruct (is_space c) eqn:E.
  - destruct b; [apply IH|]. simpl. now rewrite IH.
  - simpl. rewrite E. apply IH.
Qed.

Lemma squeeze_spaced b s : spaced b s = true -> squeeze b s = s.
Proof.
  revert b. induction s as [|c s IH]; intros b; [reflexivity|]. simpl.
  destruct (is_space c).
  - rewrite !andb_true_iff. intros [[Hb Hc] Hs].
    apply negb_true_iff in Hb as ->. apply Ascii.eqb_eq in Hc as ->.
    now rewrite (IH _ Hs).
  - intros Hs. now rewrite (IH _ Hs).
Qed.

Lemma spaced_weaken s : spaced true s = true -> spaced false s = true.
Proof. destruct s as [|c s]; [reflexivity|]. simpl. now destruct (is_space c). Qed.

Lemma spaced_lstrip s : spaced false s = true -> spaced false (lstrip s) = true.
Proof.
  destruct s as [|c s]; [reflexivity|]. simpl.
  destruct (is_space c) eqn:E; [|simpl; now rewrite E].
  rewrite !andb_true_iff. intros [_ Hs].
  destruct s as [|d s]; [reflexivity|]. simpl in *.
  destruct (is_space d) eqn:E'; [discriminate|]. simpl. now rewrite E'.
Qed.

Lemma spaced_rstrip b s : spaced b s = true -> spaced b (rstrip s) = true.
Proof.
  revert b. induction s as [|c s IH]; intros b; [reflexivity|].
  cbn [spaced rstrip]. destruct (is_space c) eqn:E.
  - rewrite !andb_true_iff. intros [[Hb Hc] Hs]. specialize (IH _ Hs).
    destruct (rstrip s); [reflexivity|].
    cbn [spaced]. rewrite E, Hb, Hc. exact IH.
  - intros Hs. specialize (IH _ Hs).
    destruct (rstrip s); cbn [spaced]; now rewrite E.
Qed.

Lemma rstrip_rstrip s : rstrip (rstrip s) = rstrip s.
Proof.
  induction s as [|c s IH]; [reflexivity|]. cbn [rstrip].
  destruct (rstrip s) as [|d r] eqn:E.
  - destruct (is_space c) eqn:E'; [reflexivity|]. cbn [rstrip]. now rewrite E'.
  - cbn [rstrip]. cbn [rstrip] in IH. now rewrite IH.
Qed.

Lemma lstrip_starts_clean s : starts_clean (lstrip s) = true.
Proof.
  induction s as [|c s IH]; [reflexivity|]. simpl.
  destruct (is_space c) eqn:E; [exact IH|]. simpl. now rewrite E.
Qed.

Lemma lstrip_clean s : starts_clean s = true -> lstrip s = s.
Proof.
  destruct s as [|c s]; [reflexivity|]. simpl. now destruct (is_space c).
Qed.

Lemma rstrip_starts_clean s :
  starts_clean s = true -> starts_clean (rstrip s) = true.
Proof.
  destruct s as [|c s]; [reflexivity|]. cbn [rstrip starts_clean].
  intros H. destruct (rstrip s); [|exact H].
  destruct (is_space c) eqn:E; [discriminate|]. simpl. now rewrite E.
Qed.

Lemma strip_strip s : strip (strip s) = strip s.
Proof.
  rewrite !strip_split.
  rewrite (lstrip_clean (rstrip (lstrip s))).
  - apply rstrip_rstrip.
  - apply rstrip_starts_clean, lstrip_starts_clean.
Qed.

Lemma replace_reserved_fix s :
  every (fun c => negb (is_reserved c)) s = true -> replace_reserved s = s.
Proof.
  induction s as [|c s IH]; [reflexivity|]. simpl.
  rewrite andb_true_iff. intros [Hc Hs]. apply negb_true_iff in Hc.
  now rewrite Hc, (IH Hs).
Qed.

Lemma get_safe_filename_parts name :
  get_safe_filename name
  = String.concat "/" (map safe_part (Path.split "/" name)).
Proof. unfold get_safe_filename. now rewrite map_map. Qed.

Lemma safe_part_every f part :
  f "_"%char = true -> f " "%char = true ->
  every f part = true -> every f (safe_part part) = true.
Proof.
  intros. unfold safe_part.
  now apply every_strip, every_squeeze, every_replace_reserved.
Qed.

Lemma safe_part_clean part :
  every (fun c => negb (is_reserved c)) (safe_part part) = true.
Proof.
  unfold safe_part. apply every_strip, every_squeeze; [reflexivity|].
  apply replace_reserved_clean.
Qed.

Lemma safe_part_safe_part part : safe_part (safe_part part) = safe_part part.
Proof.
  unfold safe_part at 1.
  rewrite (replace_reserved_fix _ (safe_part_clean part)).
  assert (spaced false (safe_part part) = true) as H.
  { unfold safe_part. rewrite strip_split.
    apply spaced_rstrip, spaced_lstrip, spaced_squeeze. }
  rewrite (squeeze_spaced _ _ H). unfold safe_part. apply strip_strip.
Qed.

Lemma safe_part_plain part :
  every plain_char part = true -> safe_part part = part.
Proof.
  intros H. unfold safe_part.
  rewrite replace_reserved_fix
    by (revert H; apply every_impl; unfold plain_char; intros c;
        rewrite andb_true_iff; tauto).
  assert (every (fun c => negb (is_space c)) part = true) as Hs
    by (revert H; apply every_impl; unfold plain_char; intros c;
        rewrite andb_true_iff; tauto).
  clear H.
  assert (forall b, squeeze b part = part) as ->.
  { induction part as [|c p IH]; intros b; [reflexivity|]. simpl in *.
    apply andb_true_iff in Hs as [Hc Hp]. apply negb_true_iff in Hc.
    now rewrite Hc, IH. }
  rewrite strip_split.
  assert (lstrip part = part) as ->.
  { destruct part as [|c p]; [reflexivity|]. simpl in *.
    apply andb_true_iff in Hs as [Hc _]. apply negb_true_iff in Hc.
    now rewrite Hc. }
  induction part as [|c p IH]; [reflexivity|]. cbn [rstrip every] in *.
  apply andb_true_iff in Hs as [Hc Hp]. apply negb_true_iff in Hc.
  rewrite (IH Hp), Hc. now destruct p.
Qed.

End StringFacts.

(** ** Safe file names *)

Lemma safe_parts_plain (name : string) :
  every plain_char name = true ->
  map safe_part (Path.split "/" name) = Path.split "/" name.
Proof.
  intros H. rewrite <- (map_id (Path.split "/" name)) at 2.
  apply map_ext_in. intros part Hin. apply safe_part_plain.
  pose proof (every_split plain_char "/" name H) as Hall.
  rewrite List.Forall_forall in Hall. now apply Hall.
Qed.

(** X1.  Whatever the name, the result of [get_safe_filename] holds none
    of the eight characters its first substitution replaces (backslash,
    star, question mark, colon, double quote, angle brackets, bar). *)
Theorem get_safe_filename_has_no_reserved_character (name : string) :
  every (fun c => negb (is_reserved c)) (get_safe_filename name) = true.
Proof.
  rewrite get_safe_filename_parts. apply every_concat; [reflexivity|].
  apply List.Forall_map, List.Forall_forall. intros part _.
  apply safe_part_clean.
Qed.

(** X2.  [get_safe_filename] gives back unchanged every name that holds
    neither a reserved character nor white space: slashes, dots and so
    the components [..] pass through it as they are. *)
Theorem get_safe_filename_keeps_plain_names (name : string) :
  every plain_char name = true -> get_safe_filename name = name.
Proof.
  intros H. rewrite get_safe_filename_parts, (safe_parts_plain name H).
  apply concat_split.
Qed.

Lemma get_safe_filename_keeps_plain_names_witness :
  get_safe_filename "../../etc/passwd" = "../../etc/passwd".
Proof. apply get_safe_filename_keeps_plain_names. reflexivity. Defined.

(** X3.  [get_safe_filename] is idempotent: a name it returned is
    returned unchanged when passed to it again. *)
Theorem get_safe_filename_idempotent (name : string) :
  get_safe_filename (get_safe_filename name) = get_safe_filename name.
Proof.
  rewrite (get_safe_filename_parts (get_safe_filename name)).
  rewrite (get_safe_filename_parts name).
  rewrite split_concat.
  - rewrite map_map. f_equal. apply map_ext. intros part.
    apply safe_part_safe_part.
  - pose proof (split_nonempty "/" name).
    destruct (Path.split "/" name); [contradiction | discriminate].
  - apply List.Forall_map.
    pose proof (split_parts "/" name) as Hparts.
    revert Hparts. apply List.Forall_impl. intros part.
    now apply safe_part_every.
Qed.

(** ** Unique file paths *)

Lemma str_app_inj_r (a b e : string) : a +:+ e = b +:+ e -> a = b.
Proof.
  intros H. apply (f_equal PyStr.rev) in H. rewrite !str_rev_app in H.
  apply String.app_inj in H. rewrite <- (str_rev_involutive a), H.
  apply str_rev_involutive.
Qed.

Lemma prefix_app_cons (a r r' : string) :
  String.prefix "/" (a +:+ "_" +:+ r) = String.prefix "/" (a +:+ "_" +:+ r').
Proof. destruct a as [|c a]; [reflexivity|]. rewrite !str_app_cons. simpl. now destruct a. Qed.

Lemma numbered_inj directory base ext : Inj (=) (=) (numbered directory base ext).
Proof.
  intros j k. unfold numbered, OsPath.join.
  rewrite (prefix_app_cons base (pretty j +:+ ext) (pretty k +:+ ext)).
  destruct (String.prefix "/" (base +:+ "_" +:+ pretty k +:+ ext));
    [|destruct (negb (truthy_str directory) || PyStr.endswith directory "/")];
    intros H; repeat apply String.app_inj in H;
    apply str_app_inj_r in H; now apply pretty_nat_inj in H.
Qed.

(** As many distinct paths as there are numbers from [from] on. *)
Lemma taken_bound (fs : gset string) directory base ext from n :
  (forall j, from <= j < from + n -> numbered directory base ext j ∈ fs) ->
  n <= size fs.
Proof.
  intros H.
  set (l := map (numbered directory base ext) (seq from n)).
  assert (NoDup l) as Hnd.
  { apply (NoDup_fmap_2 _ (Inj0 := numbered_inj directory base ext)).
    apply NoDup_ListNoDup, List.seq_NoDup. }
  assert (list_to_set l ⊆ fs) as Hsub.
  { intros x Hx. apply elem_of_list_to_set in Hx.
    apply list_elem_of_fmap in Hx as (j & -> & Hj).
    apply elem_of_seq in Hj. apply H. lia. }
  apply subseteq_size in Hsub. rewrite size_list_to_set in Hsub by exact Hnd.
  unfold l in Hsub. rewrite length_map, length_seq in Hsub. exact Hsub.
Qed.

Lemma first_free_spec fuel fs directory base ext from :
  (forall j, 1 <= j < from -> numbered directory base ext j ∈ fs) ->
  1 <= from ->
  size fs < from - 1 + fuel ->
  exists counter,
    from <= counter /\
    first_free fuel fs directory base ext from
    = Some (numbered directory base ext counter) /\
    (numbered directory base ext counter ∉ fs) /\
    forall j, 1 <= j < counter -> numbered directory base ext j ∈ fs.
Proof.
  revert from. induction fuel as [|k IH]; intros from Hbelow Hfrom Hsize.
  - exfalso.
    pose proof (taken_bound fs directory base ext 1 (from - 1)) as Hb.
    assert (from - 1 <= size fs) by (apply Hb; intros j Hj; apply Hbelow; lia).
    lia.
  - cbn [first_free]. unfold path_exists.
    destruct (bool_decide (numbered directory base ext from ∈ fs)) eqn:E.
    + apply bool_decide_eq_true in E.
      destruct (IH (S from)) as (c & Hc & Heq & Hfree & Hall).
      * intros j Hj. destruct (decide (j = from)) as [->|]; [exact E|].
        apply Hbelow. lia.
      * lia.
      * lia.
      * exists c. repeat split; auto. lia.
    + apply bool_decide_eq_false in E. exists from. repeat split; auto.
Qed.

(** X4.  When fewer paths exist than the loop may test, the search of
    [get_unique_filepath] ends, the path it returns does not exist, and
    it is the target itself when the target does not exist. *)
Theorem get_unique_filepath_is_fresh (fuel : nat) (fs : gset string)
    (target_path : string) :
  size fs < fuel ->
  exists p, get_unique_filepath fuel fs target_path = Some p /\
            (p ∉ fs) /\ (target_path ∉ fs -> p = target_path).
Proof.
  intros Hfuel. unfold get_unique_filepath, path_exists.
  destruct (bool_decide (target_path ∈ fs)) eqn:E; cbn [negb].
  - apply bool_decide_eq_true in E.
    destruct (OsPath.split target_path) as [directory filename].
    destruct (OsPath.splitext filename) as [base ext].
    destruct (first_free_spec fuel fs directory base ext 1)
      as (c & _ & Heq & Hfree & _); [intros; lia | lia | lia |].
    exists (numbered directory base ext c).
    split; [exact Heq|]. split; [exact Hfree|]. intros Hn. contradiction.
  - apply bool_decide_eq_false in E. exists target_path. auto.
Qed.

Lemma get_unique_filepath_is_fresh_witness :
  exists p, get_unique_filepath 3 {["downloads/a.mp4"; "downloads/a_1.mp4"]}
              "downloads/a.mp4" = Some p /\
            (p ∉ ({["downloads/a.mp4"; "downloads/a_1.mp4"]} : gset string)) /\
            ("downloads/a.mp4" ∉ ({["downloads/a.mp4"; "downloads/a_1.mp4"]} : gset string)
             -> p = "downloads/a.mp4").
Proof. apply get_unique_filepath_is_fresh. vm_compute. lia. Defined.

(** X5.  When the target exists, the path [get_unique_filepath] returns
    is the target with [_counter] put before its extension, for the
    smallest counter from 1 on whose path does not exist. *)
Theorem get_unique_filepath_takes_first_free_number (fuel : nat)
    (fs : gset string) (target_path p : string) :
  target_path ∈ fs ->
  get_unique_filepath fuel fs target_path = Some p ->
  let '(directory, filename) := OsPath.split target_path in
  let '(base, ext) := OsPath.splitext filename in
  exists counter,
    1 <= counter /\ p = numbered directory base ext counter /\ (p ∉ fs) /\
    forall j, 1 <= j < counter -> numbered directory base ext j ∈ fs.
Proof.
  intros Hin. unfold get_unique_filepath, path_exists.
  rewrite bool_decide_eq_true_2 by exact Hin. cbn [negb].
  destruct (OsPath.split target_path) as [directory filename].
  destruct (OsPath.splitext filename) as [base ext].
  assert (forall fuel from q,
    first_free fuel fs directory base ext from = Some q ->
    exists counter, from <= counter /\ q = numbered directory base ext counter /\
      (q ∉ fs) /\
      forall j, from <= j < counter -> numbered directory base ext j ∈ fs) as Hloop.
  { clear. induction fuel as [|k IH]; intros from q; [discriminate|].
    cbn [first_free]. unfold path_exists.
    destruct (bool_decide (numbered directory base ext from ∈ fs)) eqn:E.
    - apply bool_decide_eq_true in E. intros H.
      destruct (IH _ _ H) as (c & Hc & -> & Hfree & Hall).
      exists c. repeat split; auto; [lia|].
      intros j Hj. destruct (decide (j = from)) as [->|]; [exact E|].
      apply Hall. lia.
    - apply bool_decide_eq_false in E. intros [= <-].
      exists from. repeat split; auto. intros; lia. }
  intros H. destruct (Hloop _ _ _ H) as (c & ? & ? & ? & ?). exists c. auto.
Qed.

Lemma get_unique_filepath_takes_first_free_number_witness :
  exists counter,
    1 <= counter /\
    "downloads/a_2.mp4" = numbered "downloads" "a" ".mp4" counter /\
    ("downloads/a_2.mp4"
       ∉ ({["downloads/a.mp4"; "downloads/a_1.mp4"]} : gset string)) /\
    forall j, 1 <= j < counter ->
      numbered "downloads" "a" ".mp4" j
        ∈ ({["downloads/a.mp4"; "downloads/a_1.mp4"]} : gset string).
Proof.
  apply (get_unique_filepath_takes_first_free_number 3
           {["downloads/a.mp4"; "downloads/a_1.mp4"]}
           "downloads/a.mp4" "downloads/a_2.mp4").
  - apply (bool_decide_unpack _). vm_compute. exact I.
  - vm_compute. reflexivity.
Defined.

(** ** Readable sizes *)

(** X6.  For a size other than zero [human_size] prints, to two decimals,
    the size divided by a power of 1024 and the label of that power, from
    [B] to [TiB]: the value printed is below 1024 unless the unit is
    [TiB], and at least 1 unless the unit is [B]. *)
Theorem human_size_picks_the_unit (x : Q) :
  ~ (x == 0)%Q ->
  exists (v : Q) (n : nat),
    human_size (Some x) = format_2f v +:+ " " +:+ nth n power_labels "" /\
    (n <= 4)%nat /\
    (x == v * 1024 ^ Z.of_nat n)%Q /\
    ((n < 4)%nat -> (v < 1024)%Q) /\
    ((0 < n)%nat -> (1 <= v)%Q).
Proof.
  intros Hx. unfold human_size.
  destruct (Qeq_bool x 0) eqn:E; [apply Qeq_bool_iff in E; contradiction|].
  clear E Hx. cbn [human_size_loop power_labels length Nat.sub Nat.ltb Nat.leb andb].
  repeat match goal with
  | |- context [Qle_bool 1024 ?y] =>
      let H := fresh "H" in
      destruct (Qle_bool 1024 y) eqn:H;
      [apply Qle_bool_iff in H | apply not_true_iff_false in H; rewrite Qle_bool_iff in H];
      cbn [andb]
  end.
  all: eexists _, _; split; [reflexivity|].
  all: repeat split; try lia; intros; try (simpl; field); try lra.
  all: apply Qle_shift_div_l; [reflexivity|]; rewrite Qmult_1_l; assumption.
Qed.

Lemma human_size_picks_the_unit_witness :
  human_size (Some 1536%Q) = "1.50 KiB" /\
  exists (v : Q) (n : nat),
    human_size (Some 1536%Q) = format_2f v +:+ " " +:+ nth n power_labels "" /\
    (n <= 4)%nat /\
    (1536 == v * 1024 ^ Z.of_nat n)%Q /\
    ((n < 4)%nat -> (v < 1024)%Q) /\
    ((0 < n)%nat -> (1 <= v)%Q).
Proof.
  split; [vm_compute; reflexivity|].
  apply (human_size_picks_the_unit 1536%Q). vm_compute. discriminate.
Defined.

(** ** The upload history of Gofile *)

Lemma any_link_records download_page history links :
  mapM link_of history = Some links ->
  any_link download_page history = Ok (bool_decide (download_page ∈ links)).
Proof.
  revert links. induction history as [|item history IH]; intros links.
  - intros [= <-]. reflexivity.
  - rewrite mapM_Some. intros H. apply Forall2_cons_inv_l in H as (l & rest & Hl & Hrest & ->).
    apply mapM_Some in Hrest. specialize (IH _ Hrest).
    destruct item as [| | | |?|d]; try discriminate. simpl in Hl. simpl.
    destruct (dict_get "link" d); try discriminate. injection Hl as ->.
    destruct (String.eqb l download_page) eqn:E.
    + apply String.eqb_eq in E as ->. rewrite bool_decide_eq_true_2; [reflexivity|].
      apply elem_of_cons. now left.
    + rewrite IH. f_equal. apply String.eqb_neq in E.
      apply bool_decide_ext. rewrite elem_of_cons. split; [tauto|].
      intros [Heq|?]; [congruence | assumption].
Qed.

(** X7.  [save_to_gofile_history] keeps a history in order: if the file
    is missing or holds at most 100 records, each an object with a text
    under [link] and no link twice, the same is true afterwards, whether
    or not the record was added. *)
Theorem save_to_gofile_history_keeps_order (env : history_env)
    (file : history_file) (filename download_page : string) (size : Z)
    (file_id direct_link : option string) :
  orderly file ->
  orderly (save_to_gofile_history env file filename download_page size
             file_id direct_link).
Proof.
  assert (forall history links,
    length history <= 100 -> mapM link_of history = Some links -> NoDup links ->
    download_page ∉ links ->
    orderly (Holds (JArr (firstn 100
      (history_entry env filename download_page size file_id direct_link
       :: history))))) as Hnew.
  { intros history links Hlen Hlinks Hnd Hfresh. split.
    - rewrite length_firstn. lia.
    - exists (download_page :: firstn 99 links). split.
      + change (firstn 100 (?x :: history)) with (x :: firstn 99 history).
        apply mapM_Some. constructor; [reflexivity|].
        apply mapM_Some in Hlinks. now apply Forall2_take.
      + apply NoDup_cons. split.
        * intros Hin. apply Hfresh. now apply (subseteq_take 99 links).
        * eapply sublist_NoDup; [exact Hnd | apply sublist_take]. }
  destruct file as [| |j]; cbn [save_to_gofile_history orderly]; try tauto.
  - intros _. destruct (gh_open_w env); [|exact I].
    apply (Hnew [] []); [simpl; lia | reflexivity | constructor | apply not_elem_of_nil].
  - destruct j as [| | | |history|]; try tauto.
    intros (Hlen & links & Hlinks & Hnd).
    rewrite (any_link_records _ _ _ Hlinks).
    destruct (bool_decide (download_page ∈ links)) eqn:E.
    + split; eauto.
    + apply bool_decide_eq_false in E.
      destruct (gh_open_w env); [|split; eauto].
      eapply Hnew; eauto.
Qed.

Lemma save_to_gofile_history_keeps_order_witness :
  orderly (save_to_gofile_history (HistoryEnv 1700000000 (Ok tt)) Missing
             "a.mp4" "https://gofile.io/d/AbCd" 1536 None None).
Proof. apply save_to_gofile_history_keeps_order. exact I. Defined.

(** X8.  Once a save went through (the file could be opened for
    writing), saving the same download page again, with whatever name,
    size, identifier or time, leaves the file as it is. *)
Theorem save_to_gofile_history_twice (env env' : history_env)
    (file : history_file) (filename filename' download_page : string)
    (size size' : Z) (file_id file_id' direct_link direct_link' : option string) :
  gh_open_w env = Ok tt ->
  save_to_gofile_history env'
    (save_to_gofile_history env file filename download_page size file_id
       direct_link)
    filename' download_page size' file_id' direct_link'
  = save_to_gofile_history env file filename download_page size file_id
      direct_link.
Proof.
  intros Hw.
  assert (forall history,
    save_to_gofile_history env'
      (Holds (JArr (firstn 100
         (history_entry env filename download_page size file_id direct_link
          :: history))))
      filename' download_page size' file_id' direct_link'
    = Holds (JArr (firstn 100
         (history_entry env filename download_page size file_id direct_link
          :: history)))) as Hnew.
  { intros history. cbn [save_to_gofile_history].
    change (firstn 100 (?x :: history)) with (x :: firstn 99 history).
    cbn [any_link history_entry dict_get String.eqb Ascii.eqb Bool.eqb].
    simpl. now rewrite String.eqb_refl. }
  destruct file as [| |j]; cbn [save_to_gofile_history].
  - cbn [any_link]. rewrite Hw. apply Hnew.
  - reflexivity.
  - destruct j as [| | | |history|]; try reflexivity.
    destruct (any_link download_page history) as [[|]|e] eqn:E.
    + cbn [save_to_gofile_history]. now rewrite E.
    + rewrite Hw. apply Hnew.
    + cbn [save_to_gofile_history]. now rewrite E.
Qed.

Lemma save_to_gofile_history_twice_witness :
  save_to_gofile_history (HistoryEnv 1700000060 (Ok tt))
    (save_to_gofile_history (HistoryEnv 1700000000 (Ok tt)) Missing
       "a.mp4" "https://gofile.io/d/AbCd" 1536 None None)
    "renamed.mp4" "https://gofile.io/d/AbCd" 2048 (Some "AbCd") None
  = save_to_gofile_history (HistoryEnv 1700000000 (Ok tt)) Missing
      "a.mp4" "https://gofile.io/d/AbCd" 1536 None None.
Proof. apply save_to_gofile_history_twice. reflexivity. Defined.

(** ** The alternate upload workers *)

(** X9.  [upload_to_pixeldrain_alt] and [upload_to_4stream_alt] let no
    exception escape, push at most one error event, and the last event
    they push is the [DONE] sentinel.  The Pixeldrain worker pushes it
    exactly once; the 4stream worker called without a key pushes it
    twice, before its [return] and in its [finally]. *)
Theorem alternate_uploads_close_their_stream (s : state) :
  (forall env file_path filename api_key,
     let w := upload_to_pixeldrain_alt env file_path filename api_key in
     last (emitted w s) = Some DONE /\
     count_done (emitted w s) = 1%nat /\
     (count_error (emitted w s) <= 1)%nat /\
     is_raised (ending w s) = false) /\
  (forall env file_path filename api_key,
     let w := upload_to_4stream_alt env file_path filename api_key in
     last (emitted w s) = Some DONE /\
     (count_error (emitted w s) <= 1)%nat /\
     is_raised (ending w s) = false /\
     (truthy_str api_key = false -> count_done (emitted w s) = 2%nat)).
Proof.
  split; intros env file_path filename api_key w.
  - assert (Closed w) as Hc.
    { unfold w, upload_to_pixeldrain_alt.
      apply Closed_try_finally; [|apply sentinel_put_DONE].
      apply Settled_try_except; [tail_tac | handler_tac]. }
    assert (behaves once_post w) as Ho.
    { unfold w, upload_to_pixeldrain_alt.
      apply Once_try_finally; [mute_tac | apply sentinel_put_DONE]. }
    pose proof (behaves_emitted _ _ Hc s) as (Hl & He & Hx).
    pose proof (behaves_emitted _ _ Ho s) as Hd.
    repeat split; assumption.
  - assert (Closed w) as Hc.
    { unfold w, upload_to_4stream_alt.
      apply Closed_try_finally; [|apply sentinel_put_DONE].
      apply Settled_try_except; [tail_tac | handler_tac]. }
    pose proof (behaves_emitted _ _ Hc s) as (Hl & He & Hx).
    repeat split; try assumption.
    intros Hkey. destruct api_key; [|discriminate]. reflexivity.
Qed.

Lemma alternate_uploads_close_their_stream_witness :
  count_done
    (emitted (upload_to_4stream_alt
                (FourstreamAltEnv (Ok (FourstreamServer true ""))
                                  (Ok (FourstreamUpload true "fc1" "")))
                "downloads/a.mkv" "a.mkv" "")
             initial_state) = 2%nat.
Proof.
  apply (alternate_uploads_close_their_stream initial_state). reflexivity.
Defined.

(** ** Batch uploads *)

Lemma push_all_nil s : push_all [] s = s.
Proof. destruct s. unfold push_all, set_pushed, set_queue. simpl. now rewrite !app_nil_r. Qed.

Lemma push_all_app e1 e2 s : push_all e2 (push_all e1 s) = push_all (e1 ++ e2) s.
Proof. destruct s. unfold push_all, set_pushed, set_queue. simpl. now rewrite !app_assoc. Qed.

Lemma upload_to_pixeldrain_puts env file_path filename s :
  exists evs,
    upload_to_pixeldrain env file_path filename s = (Normal tt, push_all evs s) /\
    count_done evs = 1%nat.
Proof.
  destruct env as [[[]|e1] [[[] i m]|e2]]; eexists;
    (split; [unfold upload_to_pixeldrain; cbv -[String.append pushed progress_queue app push_all];
             destruct s; unfold push_all, set_pushed, set_queue; cbn; rewrite <- ?app_assoc; reflexivity
            | reflexivity]).
Qed.

Lemma batch_upload_worker_puts st files s :
  exists evs,
    batch_upload_worker st files s = (Normal tt, push_all evs s) /\
    count_done evs = length (List.filter (fun f => uploadable st (fst f)) files).
Proof.
  revert s. induction files as [|[filepath env] files IH]; intros s.
  - exists []. now rewrite push_all_nil.
  - unfold batch_upload_worker. cbn [for_each]. fold (batch_upload_worker st files).
    cbn [List.filter fst]. unfold uploadable at 1.
    unfold mbind, W_bind.
    destruct (under_download_folder st _) eqn:Eu; cbn [negb andb].
    2: { cbv [pass mret W_ret].
         destruct (IH s) as (evs & -> & Hc). exists evs. now split. }
    destruct (path_exists (disk st) _) eqn:Ee; cbn [negb].
    2: { cbv [pass mret W_ret].
         destruct (IH s) as (evs & -> & Hc). exists evs. now split. }
    unfold try_except, call, q_put at 1.
    match goal with
    | |- context [upload_to_pixeldrain ?e ?f ?n ?s0] =>
        destruct (upload_to_pixeldrain_puts e f n s0) as (e1 & -> & H1)
    end.
    match goal with
    | |- context [batch_upload_worker st files ?s0] =>
        destruct (IH s0) as (e2 & -> & H2)
    end.
    exists (ev_log ("Uploading: " +:+ Path.basename filepath) :: e1 ++ e2).
    split.
    + f_equal. change (set_pushed _ (set_queue _ s)) with (push_all [ev_log ("Uploading: " +:+ Path.basename filepath)] s).
      now rewrite !push_all_app.
    + change (?m :: e1 ++ e2) with ([m] ++ e1 ++ e2).
      rewrite !count_done_app, H1, H2. reflexivity.
Qed.

Lemma generate_queued (q : list msg) :
  let '(out, unread) := generate None (queued q) in
  events out ++ map snd unread = q /\ (count_done (events out) <= 1)%nat.
Proof.
  induction q as [|m q IH]; [split; [reflexivity | cbv; lia]|].
  cbn [queued map generate Nat.ltb Nat.leb]. fold (queued q).
  rewrite orb_false_r. destruct (is_terminal m) eqn:Et.
  - cbn [events map app]. split.
    + f_equal. unfold queued. rewrite map_map. cbn [snd]. apply map_id.
    + unfold count_done. cbn [List.filter]. destruct (is_done m); simpl; lia.
  - change (Nat.pred <$> None) with (@None nat).
    destruct (generate None (queued q)) as [out unread].
    destruct IH as [IH1 IH2]. cbn [events map app]. split.
    + f_equal. exact IH1.
    + fold (events out).
      change (m :: events out) with ([m] ++ events out).
      rewrite count_done_app.
      assert (count_done [m] = 0%nat) as ->; [|exact IH2].
      unfold is_terminal in Et. apply orb_false_iff in Et as [Ed _].
      unfold count_done. cbn [List.filter]. now rewrite Ed.
Qed.

(** X10.  The thread of a batch upload to Pixeldrain ends normally and
    pushes the [DONE] sentinel once for every selected path that passes
    the folder test and exists: as many sentinels as files uploaded, not
    one for the batch. *)
Theorem batch_upload_pushes_a_sentinel_per_file (st : site)
    (files : list (string * pixeldrain_env)) (s : state) :
  count_done (emitted (batch_upload_worker st files) s)
  = length (List.filter (fun f => uploadable st (fst f)) files) /\
  ending (batch_upload_worker st files) s = Normal tt.
Proof.
  unfold emitted, ending.
  destruct (batch_upload_worker_puts st files (fresh s)) as (evs & -> & Hc).
  cbn [fst snd]. split; [|reflexivity].
  unfold push_all, fresh. cbn. exact Hc.
Qed.

(** X11.  When a batch uploads two files or more, one request of the
    streaming endpoint relays only a first part of what the thread
    pushed: the rest stays in the queue, a [DONE] sentinel included. *)
Theorem one_stream_cannot_relay_a_batch (st : site)
    (files : list (string * pixeldrain_env)) (s : state) :
  (2 <= length (List.filter (fun f => uploadable st (fst f)) files))%nat ->
  let after := snd (batch_upload_worker st files s) in
  let '(out, rest) := progress_stream after in
  events out ++ progress_queue rest = progress_queue after /\
  (1 <= count_done (progress_queue rest))%nat.
Proof.
  intros Hn.
  destruct (batch_upload_worker_puts st files s) as (evs & -> & Hc).
  cbn [snd]. unfold progress_stream.
  pose proof (generate_queued (progress_queue (push_all evs s))) as Hg.
  destruct (generate None (queued (progress_queue (push_all evs s))))
    as [out unread].
  destruct Hg as [Hsplit Hone]. cbn [progress_queue set_queue].
  split; [exact Hsplit|].
  assert (count_done (progress_queue (push_all evs s))
          = (count_done (progress_queue s) + count_done evs)%nat) as Hall.
  { unfold push_all. cbn. apply count_done_app. }
  rewrite <- Hsplit, count_done_app in Hall. lia.
Qed.

Lemma one_stream_cannot_relay_a_batch_witness :
  let after :=
    snd (batch_upload_worker Sample.server Sample.two_files initial_state) in
  let '(out, rest) := progress_stream after in
  events out ++ progress_queue rest = progress_queue after /\
  (1 <= count_done (progress_queue rest))%nat.
Proof.
  apply (one_stream_cannot_relay_a_batch Sample.server Sample.two_files
           initial_state).
  vm_compute. lia.
Defined.

(** ** The folder test of the file routes *)

Lemma str_concat_app (l1 l2 : list string) :
  l1 <> [] -> l2 <> [] ->
  String.concat "/" (l1 ++ l2)
  = String.concat "/" l1 +:+ "/" +:+ String.concat "/" l2.
Proof.
  intros H1 H2. induction l1 as [|a l1 IH]; [contradiction|].
  destruct l1 as [|b l1].
  - destruct l2; [contradiction | reflexivity].
  - change (String.concat "/" ((a :: b :: l1) ++ l2))
      with (a +:+ "/" +:+ String.concat "/" ((b :: l1) ++ l2)).
    rewrite IH by discriminate.
    change (String.concat "/" (a :: b :: l1))
      with (a +:+ "/" +:+ String.concat "/" (b :: l1)).
    now rewrite !str_app_assoc.
Qed.

Lemma str_rev_empty s : PyStr.rev s = EmptyString -> s = EmptyString.
Proof. intros H. rewrite <- (str_rev_involutive s), H. reflexivity. Qed.

Lemma endswith_sep_app (p d : string) :
  d <> EmptyString -> every (fun c => negb (OsPath.is_sep c)) d = true ->
  PyStr.endswith (p +:+ d) "/" = false.
Proof.
  intros Hne Hd. unfold PyStr.endswith. rewrite str_rev_app.
  rewrite <- every_rev in Hd.
  destruct (PyStr.rev d) as [|c r] eqn:E; [apply str_rev_empty in E; contradiction|].
  cbn [every] in Hd. apply andb_true_iff in Hd as [Hc _].
  rewrite str_app_cons. change (PyStr.rev "/") with "/". cbn [String.prefix].
  unfold OsPath.is_sep in Hc. apply negb_true_iff in Hc.
  destruct (ascii_dec "/" c) as [<-|Hn]; [|reflexivity].
  now rewrite Ascii.eqb_refl in Hc.
Qed.

Lemma str_prefix_empty s : String.prefix EmptyString s = true.
Proof. now destruct s. Qed.

Lemma component_parts d :
  component d = true ->
  d <> EmptyString /\ String.eqb d "." = false /\ String.eqb d ".." = false /\
  every (fun c => negb (OsPath.is_sep c)) d = true.
Proof.
  unfold component. rewrite !andb_true_iff, !negb_true_iff.
  intros [[[H1 H2] H3] H4]. repeat split; auto.
  intros ->. discriminate.
Qed.

Lemma str_concat_snoc (l : list string) :
  exists p, forall d, String.concat "/" (l ++ [d]) = p +:+ d.
Proof.
  destruct l as [|a l].
  - exists EmptyString. reflexivity.
  - exists (String.concat "/" (a :: l) +:+ "/"). intros d.
    rewrite str_concat_app by discriminate. now rewrite str_app_assoc.
Qed.

Lemma rooted_endswith dirs :
  dirs <> [] -> Forall (fun d => component d = true) dirs ->
  PyStr.endswith (rooted dirs) "/" = false.
Proof.
  intros Hne Hall. destruct dirs as [|a l] using rev_ind; [contradiction|].
  clear IHl Hne. apply Forall_app in Hall as [_ Ha].
  apply Forall_inv in Ha. apply component_parts in Ha as (Hn & _ & _ & Hs).
  destruct (str_concat_snoc l) as [p Hp]. unfold rooted. rewrite Hp.
  rewrite <- str_app_assoc. now apply endswith_sep_app.
Qed.

Lemma rooted_truthy dirs : truthy_str (rooted dirs) = true.
Proof. reflexivity. Qed.

(** Joining a relative path, given by its components, to a rooted one. *)
Lemma join_rooted dirs more :
  Forall (fun d => component d = true) dirs ->
  more <> [] ->
  String.prefix "/" (String.concat "/" more) = false ->
  OsPath.join (rooted dirs) (String.concat "/" more) = rooted (dirs ++ more).
Proof.
  intros Hall Hne Hrel. unfold OsPath.join. rewrite Hrel.
  destruct dirs as [|a l].
  - reflexivity.
  - rewrite rooted_endswith by (auto; discriminate).
    rewrite rooted_truthy. cbn [negb orb]. unfold rooted.
    rewrite str_concat_app by (auto; discriminate). now rewrite !str_app_assoc.
Qed.

Lemma normpath_steps_push (stack dirs : list string) :
  Forall (fun d => component d = true) dirs ->
  fold_left (normpath_step 1) dirs stack = List.rev dirs ++ stack.
Proof.
  revert stack. induction dirs as [|d dirs IH]; intros stack Hall; [reflexivity|].
  apply Forall_cons in Hall as [Hd Hall].
  apply component_parts in Hd as (Hn & H1 & H2 & _).
  cbn [fold_left List.rev]. rewrite IH by exact Hall.
  rewrite <- app_assoc. f_equal. unfold normpath_step.
  assert (String.eqb d "" = false) as -> by (now apply String.eqb_neq).
  now rewrite H1, H2.
Qed.

(** [normpath] of a rooted path whose first component is not empty. *)
Lemma normpath_rooted (comps : list string) (first : ascii) (tail : string)
    (others : list string) :
  comps = String first tail :: others ->
  Forall (fun d => every (fun c => negb (OsPath.is_sep c)) d = true) comps ->
  normpath (rooted comps)
  = rooted (List.rev (fold_left (normpath_step 1) comps [])).
Proof.
  intros -> Hall. unfold normpath.
  assert (OsPath.is_sep first = false) as Hf.
  { apply Forall_inv in Hall. cbn [every] in Hall.
    apply andb_true_iff in Hall as [H _]. now apply negb_true_iff in H. }
  assert (String.prefix "//" (rooted (String first tail :: others)) = false) as Hdouble.
  { unfold rooted. destruct others; cbn [String.concat];
      rewrite ?str_app_cons, ?str_app_nil; cbn [String.prefix];
      unfold OsPath.is_sep in Hf;
      (destruct (ascii_dec "/" "/"); [|contradiction]);
      (destruct (ascii_dec "/" first) as [<-|]; [discriminate | reflexivity]). }
  rewrite Hdouble. cbn [andb].
  change (String.eqb (rooted _) "") with false.
  assert (String.prefix "/" (rooted (String first tail :: others)) = true) as ->.
  { unfold rooted. rewrite str_app_cons. cbn [String.prefix].
    destruct (ascii_dec "/" "/"); [apply str_prefix_empty | contradiction]. }
  cbv iota. cbn [slashes].
  assert (Path.split "/" (rooted (String first tail :: others))
          = EmptyString :: String first tail :: others) as ->.
  { change (rooted (String first tail :: others))
      with (String.concat "/" (EmptyString :: String first tail :: others)).
    apply split_concat; [discriminate|]. constructor; [reflexivity | exact Hall]. }
  cbn [fold_left]. change (normpath_step 1 [] "") with (@nil string).
  reflexivity.
Qed.

Lemma prefix_refl_app (a n : string) : String.prefix a (a +:+ n) = true.
Proof.
  induction a as [|c a IH]; [apply str_prefix_empty|].
  rewrite str_app_cons. cbn [String.prefix].
  destruct (ascii_dec c c); [exact IH | contradiction].
Qed.

Lemma prefix_app_same (u a b : string) :
  String.prefix (u +:+ a) (u +:+ b) = String.prefix a b.
Proof.
  induction u as [|c u IH]; [reflexivity|].
  rewrite !str_app_cons. cbn [String.prefix].
  destruct (ascii_dec c c); [exact IH | contradiction].
Qed.

Lemma component_no_sep dirs :
  Forall (fun d => component d = true) dirs ->
  Forall (fun d => every (fun c => negb (OsPath.is_sep c)) d = true) dirs.
Proof. apply List.Forall_impl. intros d H. now apply component_parts in H. Qed.

Lemma starts_with_component dirs rest :
  Forall (fun d => component d = true) dirs ->
  exists first tail others, dirs ++ "downloads" :: rest = String first tail :: others.
Proof.
  intros H. destruct dirs as [|d dirs].
  - now exists "d"%char, "ownloads", rest.
  - apply Forall_inv in H. apply component_parts in H as (Hn & _).
    destruct d as [|c t]; [contradiction|]. now exists c, t, (dirs ++ "downloads" :: rest).
Qed.

Lemma rooted_is_absolute dirs : String.prefix "/" (rooted dirs) = true.
Proof.
  unfold rooted. rewrite str_app_cons. cbn [String.prefix].
  destruct (ascii_dec "/" "/"); [apply str_prefix_empty | contradiction].
Qed.

Lemma relative_components comps :
  Forall (fun d => component d = true) comps ->
  String.prefix "/" (String.concat "/" comps) = false.
Proof.
  intros H. destruct comps as [|d comps]; [reflexivity|].
  apply Forall_inv in H. apply component_parts in H as (Hn & _ & _ & Hs).
  destruct d as [|c t]; [contradiction|].
  cbn [every] in Hs. apply andb_true_iff in Hs as [Hc _].
  unfold OsPath.is_sep in Hc. apply negb_true_iff in Hc.
  destruct comps; cbn [String.concat]; rewrite ?str_app_cons; cbn [String.prefix];
    (destruct (ascii_dec "/" c) as [<-|]; [discriminate | reflexivity]).
Qed.

Section FolderCheck.

Variable st : site.
Variable dirs : list string.
Hypothesis cwd_is_rooted : getcwd st = rooted dirs.
Hypothesis dirs_are_components : Forall (fun d => component d = true) dirs.

Lemma DOWNLOAD_FOLDER_rooted : DOWNLOAD_FOLDER st = rooted (dirs ++ ["downloads"]).
Proof.
  unfold DOWNLOAD_FOLDER. rewrite cwd_is_rooted.
  apply (join_rooted dirs ["downloads"]); auto; discriminate.
Qed.

Lemma home_components :
  Forall (fun d => component d = true) (dirs ++ ["downloads"]).
Proof. apply Forall_app. split; [exact dirs_are_components | now repeat constructor]. Qed.

Lemma abspath_rooted_components comps :
  Forall (fun d => component d = true) comps ->
  abspath (getcwd st) (rooted (dirs ++ "downloads" :: comps))
  = rooted (dirs ++ "downloads" :: comps).
Proof.
  intros Hc. unfold abspath. rewrite rooted_is_absolute.
  destruct (starts_with_component dirs comps dirs_are_components)
    as (first & tail & others & E).
  assert (Forall (fun d => component d = true) (dirs ++ "downloads" :: comps)) as Hall.
  { apply Forall_app. split; [exact dirs_are_components|].
    constructor; [reflexivity | exact Hc]. }
  rewrite (normpath_rooted _ first tail others E).
  - rewrite normpath_steps_push by exact Hall.
    now rewrite app_nil_r, List.rev_involutive.
  - now apply component_no_sep.
Qed.

Lemma abspath_DOWNLOAD_FOLDER :
  abspath (getcwd st) (DOWNLOAD_FOLDER st) = rooted (dirs ++ ["downloads"]).
Proof.
  rewrite DOWNLOAD_FOLDER_rooted. now apply (abspath_rooted_components []).
Qed.

(** A path made of plain components, taken below the folder. *)
Lemma inside_full_path comps :
  comps <> [] -> Forall (fun d => component d = true) comps ->
  OsPath.join (DOWNLOAD_FOLDER st) (String.concat "/" comps)
  = rooted (dirs ++ "downloads" :: comps).
Proof.
  intros Hne Hc. rewrite DOWNLOAD_FOLDER_rooted.
  rewrite join_rooted; auto using home_components, relative_components.
  now rewrite <- app_assoc.
Qed.

Variable x : string.
Hypothesis x_is_component : component x = true.

Lemma sibling_full_path :
  OsPath.join (DOWNLOAD_FOLDER st) ("../" +:+ x)
  = rooted (dirs ++ ["downloads"; ".."; x]).
Proof.
  rewrite DOWNLOAD_FOLDER_rooted.
  change ("../" +:+ x) with (String.concat "/" [".."; x]).
  rewrite join_rooted.
  - now rewrite <- app_assoc.
  - exact home_components.
  - discriminate.
  - reflexivity.
Qed.

Lemma abspath_sibling :
  abspath (getcwd st) (OsPath.join (DOWNLOAD_FOLDER st) ("../" +:+ x))
  = rooted (dirs ++ [x]).
Proof.
  rewrite sibling_full_path. unfold abspath. rewrite rooted_is_absolute.
  destruct (starts_with_component dirs [".."; x] dirs_are_components)
    as (first & tail & others & E).
  pose proof (component_parts x x_is_component) as (Hn & H1 & H2 & Hs).
  rewrite (normpath_rooted _ first tail others E).
  - f_equal.
    change (dirs ++ ["downloads"; ".."; x])
      with (dirs ++ ["downloads"] ++ [".."; x]).
    rewrite app_assoc, fold_left_app.
    rewrite (normpath_steps_push [] (dirs ++ ["downloads"]))
      by exact home_components.
    rewrite app_nil_r, rev_app_distr. cbn [List.rev app fold_left].
    change (normpath_step 1 ("downloads" :: List.rev dirs) "..")
      with (List.rev dirs).
    assert (normpath_step 1 (List.rev dirs) x = x :: List.rev dirs) as ->.
    { unfold normpath_step.
      assert (String.eqb x "" = false) as -> by (now apply String.eqb_neq).
      now rewrite H1, H2. }
    cbn [List.rev]. now rewrite List.rev_involutive.
  - apply Forall_app. split; [now apply component_no_sep|].
    now repeat constructor.
Qed.

Lemma sibling_in_cwd : OsPath.join (getcwd st) x = rooted (dirs ++ [x]).
Proof.
  rewrite cwd_is_rooted.
  apply (join_rooted dirs [x]); auto; try discriminate.
  apply (relative_components [x]). now repeat constructor.
Qed.

End FolderCheck.

Lemma folder_check_inside (st : site) (dirs comps : list string) :
  getcwd st = rooted dirs ->
  Forall (fun d => component d = true) dirs ->
  comps <> [] -> Forall (fun d => component d = true) comps ->
  under_download_folder st
    (OsPath.join (DOWNLOAD_FOLDER st) (String.concat "/" comps)) = true.
Proof.
  intros Hcwd Hdirs Hne Hc. unfold under_download_folder.
  rewrite (abspath_DOWNLOAD_FOLDER st dirs Hcwd Hdirs).
  rewrite (inside_full_path st dirs Hcwd Hdirs comps Hne Hc).
  rewrite (abspath_rooted_components st dirs Hdirs comps Hc).
  unfold rooted. rewrite prefix_app_same.
  change (dirs ++ "downloads" :: comps) with (dirs ++ ["downloads"] ++ comps).
  rewrite app_assoc, (str_concat_app (dirs ++ ["downloads"]) comps);
    [apply prefix_refl_app | | exact Hne].
  destruct dirs; discriminate.
Qed.

Lemma folder_check_sibling (st : site) (dirs : list string) (x : string) :
  getcwd st = rooted dirs ->
  Forall (fun d => component d = true) dirs ->
  component x = true ->
  under_download_folder st (OsPath.join (DOWNLOAD_FOLDER st) ("../" +:+ x))
  = String.prefix "downloads" x.
Proof.
  intros Hcwd Hdirs Hx. unfold under_download_folder.
  rewrite (abspath_DOWNLOAD_FOLDER st dirs Hcwd Hdirs).
  rewrite (abspath_sibling st dirs Hcwd Hdirs x Hx).
  unfold rooted. destruct (str_concat_snoc dirs) as [p Hp]. rewrite !Hp.
  now rewrite !prefix_app_same.
Qed.

(** X12.  The test [abspath(full_path).startswith(abspath(DOWNLOAD_FOLDER))]
    of the file routes compares texts.  With the program started in an
    absolute directory, it accepts every path made of plain names below
    the download folder; it accepts a path [../x] out of the folder
    exactly when the name [x] begins with [downloads]. *)
Theorem folder_check_compares_text (st : site) (dirs : list string) :
  getcwd st = rooted dirs ->
  Forall (fun d => component d = true) dirs ->
  (forall comps, comps <> [] -> Forall (fun d => component d = true) comps ->
     under_download_folder st
       (OsPath.join (DOWNLOAD_FOLDER st) (String.concat "/" comps)) = true) /\
  (forall x, component x = true ->
     under_download_folder st (OsPath.join (DOWNLOAD_FOLDER st) ("../" +:+ x))
     = String.prefix "downloads" x).
Proof.
  intros Hcwd Hdirs. split.
  - intros comps. now apply folder_check_inside with (dirs := dirs).
  - intros x. now apply folder_check_sibling with (dirs := dirs).
Qed.

Lemma folder_check_compares_text_witness :
  under_download_folder Sample.server
    (OsPath.join (DOWNLOAD_FOLDER Sample.server) "series/e01.mp4") = true /\
  under_download_folder Sample.server
    (OsPath.join (DOWNLOAD_FOLDER Sample.server) "../downloads_old") = true /\
  under_download_folder Sample.server
    (OsPath.join (DOWNLOAD_FOLDER Sample.server) "../secrets") = false.
Proof.
  assert (getcwd Sample.server = rooted Sample.home) as Hcwd
    by reflexivity.
  assert (Forall (fun d => component d = true) Sample.home) as Hdirs
    by (repeat constructor).
  destruct (folder_check_compares_text Sample.server Sample.home Hcwd Hdirs)
    as [Hin Hout].
  split; [|split].
  - apply (Hin ["series"; "e01.mp4"]); [discriminate | repeat constructor].
  - apply (Hout "downloads_old"). reflexivity.
  - apply (Hout "secrets"). reflexivity.
Defined.

(** X13.  [delete_file] called with the path [../x], for a name [x] that
    begins with [downloads], passes the folder test: when the path
    exists the route asks the operating system to remove it, and what it
    names is the entry [x] of the directory the program was started in,
    outside the download folder. *)
Theorem delete_file_reaches_sibling_folders (st : site) (removal : answer unit)
    (dirs : list string) (x : string) :
  getcwd st = rooted dirs ->
  Forall (fun d => component d = true) dirs ->
  component x = true ->
  String.prefix "downloads" x = true ->
  let filepath := "../" +:+ x in
  let full_path := OsPath.join (DOWNLOAD_FOLDER st) filepath in
  full_path ∈ disk st ->
  del_request (delete_file st removal filepath)
  = Some (if bool_decide (full_path ∈ folders st)
          then Rmtree full_path else Remove full_path) /\
  abspath (getcwd st) full_path = OsPath.join (getcwd st) x.
Proof.
  intros Hcwd Hdirs Hx Hpre filepath full_path Hin. split.
  - unfold delete_file. fold filepath. fold full_path.
    assert (under_download_folder st full_path = true) as ->.
    { unfold full_path, filepath.
      rewrite (folder_check_sibling st dirs x Hcwd Hdirs Hx).
      exact Hpre. }
    cbn [negb]. unfold path_exists. rewrite bool_decide_eq_true_2 by exact Hin.
    now destruct removal.
  - unfold full_path, filepath.
    rewrite (abspath_sibling st dirs Hcwd Hdirs x Hx).
    now rewrite (sibling_in_cwd st dirs Hcwd Hdirs x Hx).
Qed.

Lemma delete_file_reaches_sibling_folders_witness :
  del_request (delete_file Sample.server (Ok tt) "../downloads_old")
  = Some (Rmtree Sample.old_copy) /\
  abspath (getcwd Sample.server) Sample.old_copy
  = "/home/runner/app/downloads_old".
Proof.
  apply (delete_file_reaches_sibling_folders Sample.server (Ok tt)
           Sample.home "downloads_old").
  - reflexivity.
  - repeat constructor.
  - reflexivity.
  - reflexivity.
  - apply (bool_decide_unpack _). vm_compute. exact I.
Defined.

(** ** After an encode *)

Lemma finally_clears_current_process {A} (body : W A) (c : bool) (m : msg)
    (s : state) :
  current_process
    (snd (try_finally body (assign_current_process None;; when c (q_put m)) s))
  = None.
Proof.
  unfold try_finally. destruct (body s) as [r s1].
  unfold mbind, W_bind, assign_current_process. destruct c; reflexivity.
Qed.

(** X14.  Once the thread of [encode_file] has ended, having reached its
    [try] block, no process is registered, whatever happened in between:
    the stop endpoint then answers that there is nothing to stop and
    changes nothing. *)
Theorem encode_file_leaves_nothing_to_stop (env : encode_env) (a : encode_args)
    (senv : stop_env) (s : state) :
  is_ok (ee_prepare env) = true ->
  let after := thread (EncodeFile env a) s in
  current_process after = None /\
  stop_encode senv after
  = (Reply "error" "No active encoding process to stop." 400, after).
Proof.
  intros Hok after.
  assert (current_process after = None) as Hnone.
  { unfold after, thread, run_task, encode_file.
    destruct (ee_prepare env) as [[output_path safe_output]|e]; [|discriminate].
    unfold mbind at 1, W_bind at 1. cbn [ext]. unfold mret at 1, W_ret at 1.
    apply finally_clears_current_process. }
  split; [exact Hnone|]. unfold stop_encode. now rewrite Hnone.
Qed.

Lemma encode_file_leaves_nothing_to_stop_witness :
  let after :=
    thread (EncodeFile Scenario.copy_env Scenario.copy_two_uploads)
           initial_state in
  current_process after = None /\
  stop_encode Scenario.kill_works after
  = (Reply "error" "No active encoding process to stop." 400, after).
Proof.
  apply (encode_file_leaves_nothing_to_stop Scenario.copy_env
           Scenario.copy_two_uploads Scenario.kill_works initial_state).
  reflexivity.
Defined.

(** X15.  For a positive duration the time-based percentage of the
    encode loop never goes back while the time the encoder reports goes
    on: a later [time=] token gives a percentage at least as large. *)
Theorem time_percent_never_goes_back (h m s ms h' m' s' ms' : Z) (duration : Q) :
  (0 < duration)%Q ->
  (inject_Z (h * 3600 + m * 60 + s) + inject_Z ms / 100
   <= inject_Z (h' * 3600 + m' * 60 + s') + inject_Z ms' / 100)%Q ->
  (time_percent h m s ms duration <= time_percent h' m' s' ms' duration)%Q.
Proof.
  intros Hd Hle. unfold time_percent.
  apply Q.min_le_compat_l.
  apply Qmult_le_compat_r; [|discriminate].
  unfold Qdiv. apply Qmult_le_compat_r; [exact Hle|].
  apply Qlt_le_weak, Qinv_lt_0_compat, Hd.
Qed.

Lemma time_percent_never_goes_back_witness :
  (time_percent 0 0 5 0 10 <= time_percent 0 0 7 50 10)%Q.
Proof.
  apply time_percent_never_goes_back.
  - reflexivity.
  - vm_compute. discriminate.
Defined.

(** ** Merging files *)

(** X16.  [POST /merge_files] starts the merge exactly when at least two
    of the selected paths, joined to the download folder, are existing
    files, and then with those files only; otherwise it answers 400 and
    changes nothing.  In neither case does it touch the session. *)
Theorem merge_files_route_needs_two_files (st : site) (env : concat_env)
    (files : list string) (output : string) (s : state) :
  let existing :=
    List.filter (path_isfile st) (map (OsPath.join (DOWNLOAD_FOLDER st)) files) in
  let '(reply, after) := merge_files_route st env files output s in
  session after = session s /\
  ((length existing < 2)%nat ->
     after = s /\ exists error, reply = MergeRefused error 400) /\
  ((2 <= length existing)%nat ->
     reply = MergeStarted /\
     after = thread (FfmpegMergeWithProgress env existing
                       (OsPath.join (DOWNLOAD_FOLDER st) output)) s).
Proof.
  intros existing. unfold merge_files_route. fold existing.
  assert (length existing <= length files)%nat as Hle.
  { unfold existing. etransitivity; [apply List.filter_length_le|].
    now rewrite length_map. }
  destruct (length files <? 2)%nat eqn:E1.
  - apply Nat.ltb_lt in E1. repeat split; eauto; lia.
  - destruct (length existing <? 2)%nat eqn:E2.
    + apply Nat.ltb_lt in E2. repeat split; eauto; lia.
    + apply Nat.ltb_ge in E2. split; [apply thread_keeps_session|].
      split; [lia | auto].
Qed.

Lemma merge_files_route_needs_two_files_witness :
  let '(reply, after) :=
    merge_files_route Sample.server Scenario.no_ffmpeg
      ["a.mp4"; "missing.mp4"] "merged.mp4" initial_state in
  after = initial_state /\ exists error, reply = MergeRefused error 400.
Proof.
  pose proof (merge_files_route_needs_two_files Sample.server
                Scenario.no_ffmpeg ["a.mp4"; "missing.mp4"] "merged.mp4"
                initial_state) as H.
  cbv zeta in H.
  destruct (merge_files_route Sample.server Scenario.no_ffmpeg
              ["a.mp4"; "missing.mp4"] "merged.mp4" initial_state)
    as [reply after].
  apply H. vm_compute. lia.
Defined.

(** X17.  [POST /merge_files] applies no folder test: selected paths that
    are absolute and are existing files, wherever they lie, are handed to
    the merge as they are. *)
Theorem merge_files_route_takes_absolute_paths (st : site) (env : concat_env)
    (files : list string) (output : string) (s : state) :
  (2 <= length files)%nat ->
  Forall (fun f => String.prefix "/" f = true /\ path_isfile st f = true) files ->
  merge_files_route st env files output s
  = (MergeStarted,
     thread (FfmpegMergeWithProgress env files
               (OsPath.join (DOWNLOAD_FOLDER st) output)) s).
Proof.
  intros Hlen Hall. unfold merge_files_route.
  assert (List.filter (path_isfile st)
            (map (OsPath.join (DOWNLOAD_FOLDER st)) files) = files) as ->.
  { clear Hlen. induction Hall as [|f l [Habs Hfile] _ IH]; [reflexivity|].
    cbn [map List.filter].
    assert (OsPath.join (DOWNLOAD_FOLDER st) f = f) as ->
      by (unfold OsPath.join; now rewrite Habs).
    now rewrite Hfile, IH. }
  destruct (length files <? 2)%nat eqn:E; [apply Nat.ltb_lt in E; lia|].
  reflexivity.
Qed.

Lemma merge_files_route_takes_absolute_paths_witness :
  merge_files_route Sample.server Scenario.no_ffmpeg
    ["/etc/hostname"; "/etc/hosts"] "merged.mp4" initial_state
  = (MergeStarted,
     thread (FfmpegMergeWithProgress Scenario.no_ffmpeg
               ["/etc/hostname"; "/etc/hosts"]
               (OsPath.join (DOWNLOAD_FOLDER Sample.server) "merged.mp4"))
            initial_state).
Proof.
  apply merge_files_route_takes_absolute_paths.
  - simpl. lia.
  - repeat constructor; vm_compute; reflexivity.
Defined.

(** ** Uploads from the browser *)

(** X18.  [upload_direct] never overwrites: when fewer paths exist than
    the search may test, a file sent with a name is saved at a path that
    did not exist, and the upload of that path to Pixeldrain is started
    under the title that carries the sanitised name. *)
Theorem upload_direct_never_overwrites (fuel : nat) (st : site)
    (env : pixeldrain_env) (file_filename : string) (s : state) :
  size (disk st) < fuel ->
  truthy_str file_filename = true ->
  exists save_path,
    (save_path ∉ disk st) /\
    upload_direct fuel st env (Some file_filename) (Ok tt) s
    = Some (UploadResult
              (UploadStarted
                 ("Uploading: " +:+ get_safe_filename file_filename))
              (Some save_path)
              (start_task
                 (UploadToPixeldrain env save_path (Path.basename save_path))
                 s)).
Proof.
  intros Hfuel Hname. unfold upload_direct. rewrite Hname.
  set (target := OsPath.join (DOWNLOAD_FOLDER st)
                   (get_safe_filename file_filename)).
  unfold get_unique_filepath, path_exists.
  destruct (bool_decide (target ∈ disk st)) eqn:E; cbn [negb].
  - destruct (OsPath.split target) as [directory filename].
    destruct (OsPath.splitext filename) as [base ext].
    destruct (first_free_spec fuel (disk st) directory base ext 1)
      as (c & _ & -> & Hfree & _); [intros; lia | lia | lia |].
    now exists (numbered directory base ext c).
  - apply bool_decide_eq_false in E. now exists target.
Qed.

Lemma upload_direct_never_overwrites_witness :
  exists save_path,
    (save_path ∉ disk Sample.server) /\
    upload_direct 6 Sample.server Scenario.pixeldrain_up (Some "a.mp4")
      (Ok tt) initial_state
    = Some (UploadResult
              (UploadStarted ("Uploading: " +:+ get_safe_filename "a.mp4"))
              (Some save_path)
              (start_task
                 (UploadToPixeldrain Scenario.pixeldrain_up save_path
                    (Path.basename save_path))
                 initial_state)).
Proof.
  apply upload_direct_never_overwrites.
  - vm_compute. lia.
  - reflexivity.
Defined.

(** X19.  [upload_direct] applies no folder test: a file sent under an
    absolute name without reserved characters and white space, which
    does not exist yet, is saved at that very path, wherever it lies,
    and not below the download folder. *)
Theorem upload_direct_follows_an_absolute_name (fuel : nat) (st : site)
    (env : pixeldrain_env) (file_filename : string) (s : state) :
  every plain_char file_filename = true ->
  String.prefix "/" file_filename = true ->
  file_filename ∉ disk st ->
  upload_direct fuel st env (Some file_filename) (Ok tt) s
  = Some (UploadResult
            (UploadStarted ("Uploading: " +:+ file_filename))
            (Some file_filename)
            (start_task
               (UploadToPixeldrain env file_filename
                  (Path.basename file_filename))
               s)).
Proof.
  intros Hplain Habs Hnew. unfold upload_direct.
  assert (truthy_str file_filename = true) as ->
    by (destruct file_filename; [discriminate | reflexivity]).
  rewrite get_safe_filename_parts, (safe_parts_plain _ Hplain), concat_split.
  assert (OsPath.join (DOWNLOAD_FOLDER st) file_filename = file_filename)
    as -> by (unfold OsPath.join; now rewrite Habs).
  unfold get_unique_filepath, path_exists.
  now rewrite bool_decide_eq_false_2 by exact Hnew.
Qed.

Lemma upload_direct_follows_an_absolute_name_witness :
  upload_direct 0 Sample.server Scenario.pixeldrain_up
    (Some "/home/runner/.ssh/authorized_keys") (Ok tt) initial_state
  = Some (UploadResult
            (UploadStarted "Uploading: /home/runner/.ssh/authorized_keys")
            (Some "/home/runner/.ssh/authorized_keys")
            (start_task
               (UploadToPixeldrain Scenario.pixeldrain_up
                  "/home/runner/.ssh/authorized_keys"
                  (Path.basename "/home/runner/.ssh/authorized_keys"))
               initial_state)).
Proof.
  apply upload_direct_follows_an_absolute_name.
  - reflexivity.
  - reflexivity.
  - apply (bool_decide_unpack _). vm_compute. exact I.
Defined.

(** X20.  Whenever [ffmpeg_merge_with_progress] launches its re-encode
    fallback, the list file the command reads its inputs from does not
    exist: [run] has removed it at the end of the copy merge. *)
Theorem merge_fallback_finds_no_list_file (env : disk_env)
    (list_file output_path : string) (disk before : gset string) :
  In (CmdReencode, before)
     (mg_launched (ffmpeg_merge_on_disk env list_file output_path disk)) ->
  list_file ∉ before.
Proof.
  unfold ffmpeg_merge_on_disk.
  destruct (md_open_list env) as [[]|e]; [|intros []].
  destruct (md_copy env) as [process|e]; [|intros []].
  set (d1 := if md_copy_writes env then _ else _).
  unfold path_exists at 1.
  destruct (bool_decide (list_file ∈ d1)) eqn:E.
  - destruct (md_remove env) as [[]|e]; cbn [mg_launched].
    + destruct (negb _ || negb _); cbn [mg_launched].
      * intros [[=]|[[= <-]|[]]]. apply not_elem_of_difference. right.
        now apply elem_of_singleton.
      * intros [[=]|[]].
    + intros [[=]|[]].
  - apply bool_decide_eq_false in E.
    destruct (negb _ || negb _); cbn [mg_launched].
    + intros [[=]|[[= <-]|[]]]. exact E.
    + intros [[=]|[]].
Qed.

Lemma merge_fallback_finds_no_list_file_witness :
  "downloads/merge_list.txt"
    ∉ (({["downloads/merge_list.txt"]} ∪ {["downloads/a.mp4"]})
         ∖ {["downloads/merge_list.txt"]} : gset string).
Proof.
  apply (merge_fallback_finds_no_list_file Sample.failing_copy
           "downloads/merge_list.txt" "downloads/merged.mp4"
           {["downloads/a.mp4"]}).
  vm_compute. right. left. reflexivity.
Defined.

(** ** What a direct download depends on *)

Lemma same_run_refl {A} (w : W A) : same_run w w.
Proof. now intros s. Qed.

Lemma same_run_bind {A B} (w w' : W A) (f f' : A -> W B) :
  same_run w w' -> (forall a, same_run (f a) (f' a)) ->
  same_run (w ≫= f) (w' ≫= f').
Proof.
  intros Hw Hf s. unfold mbind, W_bind. rewrite Hw.
  destruct (w' s) as [[a| |e] s1]; auto. apply Hf.
Qed.

Lemma same_run_try_except {A} (w w' : W A) (h h' : exn -> option (W A)) :
  same_run w w' ->
  (forall e, match h e, h' e with
             | Some k, Some k' => same_run k k'
             | None, None => True
             | _, _ => False
             end) ->
  same_run (try_except w h) (try_except w' h').
Proof.
  intros Hw Hh s. unfold try_except. rewrite Hw.
  destruct (w' s) as [[a| |e] s1]; auto.
  specialize (Hh e). destruct (h e), (h' e); try contradiction; auto.
Qed.

Lemma same_run_try_finally {A} (w w' : W A) (fin : W unit) :
  same_run w w' -> same_run (try_finally w fin) (try_finally w' fin).
Proof. intros Hw s. unfold try_finally. now rewrite Hw. Qed.

Lemma redirect_loop_same_fallback env fallback remaining jump current_url response :
  same_run (redirect_loop env remaining jump current_url response)
           (redirect_loop (with_fallback_get env fallback) remaining jump
              current_url response).
Proof.
  revert jump current_url response.
  induction remaining as [|k IH]; intros jump current_url response;
    [apply same_run_refl|].
  cbn [redirect_loop]. apply same_run_bind; [apply same_run_refl|]. intros host.
  apply same_run_bind; [apply same_run_refl|]. intros [].
  cbn [df_get with_fallback_get].
  apply same_run_bind; [apply same_run_refl|]. intros r.
  destruct (is_redirect (status_code r)); [|apply same_run_refl].
  destruct (location r) as [loc|]; [|apply same_run_refl].
  destruct (truthy_str loc); [|apply same_run_refl].
  apply same_run_bind; [apply same_run_refl|]. intros []. apply IH.
Qed.

(** X21.  When the caller supplies a user name or a password,
    [download_file_directly] never tries the built-in fallback
    credentials: its result and everything it pushes are the same
    whatever those requests would have met. *)
Theorem supplied_credentials_exclude_the_fallback_list (env : direct_env)
    (fallback : nat -> answer http_response) (url : string)
    (upload_pixeldrain_direct upload_gofile_direct : bool)
    (username password : string) (s : state) :
  truthy_str username || truthy_str password = true ->
  download_file_directly (with_fallback_get env fallback) url
    upload_pixeldrain_direct upload_gofile_direct username password s
  = download_file_directly env url upload_pixeldrain_direct
      upload_gofile_direct username password s.
Proof.
  intros Hcred. symmetry. revert s.
  change (same_run
    (download_file_directly env url upload_pixeldrain_direct
       upload_gofile_direct username password)
    (download_file_directly (with_fallback_get env fallback) url
       upload_pixeldrain_direct upload_gofile_direct username password)).
  unfold download_file_directly. rewrite Hcred. cbn [negb andb].
  apply same_run_try_finally.
  apply same_run_try_except; [|intros e; destruct (cls e); try destruct (_ =? _)%Z; apply same_run_refl].
  apply same_run_bind; [apply same_run_refl|]. intros [].
  apply same_run_bind; [apply same_run_refl|]. intros [].
  apply same_run_bind; [apply same_run_refl|]. intros [].
  apply same_run_bind; [|intros; apply same_run_refl].
  apply same_run_try_except.
  - apply same_run_bind; [apply same_run_refl|]. intros [].
    apply same_run_bind; [apply redirect_loop_same_fallback|].
    intros; apply same_run_refl.
  - intros e. destruct (cls e); try exact I.
    rewrite andb_false_r. apply same_run_refl.
Qed.

Lemma supplied_credentials_exclude_the_fallback_list_witness :
  download_file_directly
    (with_fallback_get Sample.guarded_env
       (fun _ => Fail (Exn RequestException "Connection refused")))
    "http://files.example/f.bin" false false "user" "secret" initial_state
  = download_file_directly Sample.guarded_env
      "http://files.example/f.bin" false false "user" "secret" initial_state.
Proof.
  apply supplied_credentials_exclude_the_fallback_list. reflexivity.
Defined.

Lemma redirect_loop_same_get env get remaining jump current_url response :
  (forall j, (jump <= j < jump + remaining)%nat -> get j = df_get env j) ->
  same_run (redirect_loop env remaining jump current_url response)
           (redirect_loop (with_get env get) remaining jump current_url response).
Proof.
  revert jump current_url response.
  induction remaining as [|k IH]; intros jump current_url response Hget;
    [apply same_run_refl|].
  cbn [redirect_loop]. apply same_run_bind; [apply same_run_refl|]. intros host.
  apply same_run_bind; [apply same_run_refl|]. intros [].
  cbn [df_get with_get]. rewrite (Hget jump) by lia.
  apply same_run_bind; [apply same_run_refl|]. intros r.
  destruct (is_redirect (status_code r)); [|apply same_run_refl].
  destruct (location r) as [loc|]; [|apply same_run_refl].
  destruct (truthy_str loc); [|apply same_run_refl].
  apply same_run_bind; [apply same_run_refl|]. intros [].
  apply IH. intros j Hj. apply Hget. lia.
Qed.

Lemma try_fallbacks_same_get env get creds idx :
  same_run (try_fallbacks env creds idx) (try_fallbacks (with_get env get) creds idx).
Proof.
  revert idx. induction creds as [|[u p] creds IH]; intros idx;
    [apply same_run_refl|].
  cbn [try_fallbacks]. apply same_run_bind; [apply same_run_refl|].
  intros [names|]; [apply same_run_refl | apply IH].
Qed.

(** X22.  The redirect chain of [download_file_directly] sends five
    requests at most: what a sixth or later request would meet has no
    influence on the result or on the events pushed. *)
Theorem redirect_chain_stops_after_five_requests (env : direct_env)
    (get : nat -> answer http_response) (url : string)
    (upload_pixeldrain_direct upload_gofile_direct : bool)
    (username password : string) (s : state) :
  (forall j, (j < 5)%nat -> get j = df_get env j) ->
  download_file_directly (with_get env get) url
    upload_pixeldrain_direct upload_gofile_direct username password s
  = download_file_directly env url upload_pixeldrain_direct
      upload_gofile_direct username password s.
Proof.
  intros Hget. symmetry. revert s.
  change (same_run
    (download_file_directly env url upload_pixeldrain_direct
       upload_gofile_direct username password)
    (download_file_directly (with_get env get) url
       upload_pixeldrain_direct upload_gofile_direct username password)).
  generalize fallback_credentials as creds. intros creds.
  unfold download_file_directly.
  apply same_run_try_finally.
  apply same_run_try_except; [|intros e; destruct (cls e); try destruct (_ =? _)%Z; apply same_run_refl].
  apply same_run_bind; [apply same_run_refl|]. intros [].
  apply same_run_bind; [apply same_run_refl|]. intros [].
  apply same_run_bind; [apply same_run_refl|]. intros [].
  apply same_run_bind; [|intros; apply same_run_refl].
  apply same_run_try_except.
  - apply same_run_bind; [apply same_run_refl|]. intros [].
    apply same_run_bind;
      [apply redirect_loop_same_get; intros j Hj; apply Hget; lia|].
    intros; apply same_run_refl.
  - intros e. destruct (cls e); try exact I.
    destruct ((_ =? 401)%Z && _); [|apply same_run_refl].
    apply same_run_bind; [apply try_fallbacks_same_get|].
    intros; apply same_run_refl.
Qed.

Lemma redirect_chain_stops_after_five_requests_witness :
  download_file_directly
    (with_get Scenario.long_body_env
       (fun j => if (j <? 5)%nat then df_get Scenario.long_body_env j
                 else Fail (Exn RequestException "Connection refused")))
    "http://files.example/f.bin" false false "" "" initial_state
  = download_file_directly Scenario.long_body_env
      "http://files.example/f.bin" false false "" "" initial_state.
Proof.
  apply redirect_chain_stops_after_five_requests.
  intros j Hj. destruct j as [|[|[|[|[|j]]]]]; [reflexivity..|lia].
Defined.

(** ** Settings read at start-up *)

Lemma split_from_nonempty skip sep s : Config.split_from skip sep s <> [].
Proof.
  revert skip. induction s as [|c s IH]; intros skip; [discriminate|].
  cbn [Config.split_from]. destruct skip; [|apply IH].
  destruct (String.prefix sep (String c s)); [discriminate|].
  destruct (Config.split_from 0 sep s); discriminate.
Qed.

Lemma single_piece sep s p : Config.split_from 0 sep s = [p] -> p = s.
Proof.
  revert p. induction s as [|c s IH]; intros p; [now intros [= <-]|].
  cbn [Config.split_from]. destruct (String.prefix sep (String c s)).
  - intros [= <- H]. now apply split_from_nonempty in H.
  - destruct (Config.split_from 0 sep s) as [|q qs] eqn:E.
    + now apply split_from_nonempty in E.
    + intros [= <- ->]. now rewrite (IH q eq_refl).
Qed.

Lemma last_piece_has_no_separator skip (sep s : string) :
  sep <> EmptyString ->
  PyStr.contains sep (List.last (Config.split_from skip sep s) EmptyString) = false.
Proof.
  intros Hsep. revert skip. induction s as [|c s IH]; intros skip.
  - destruct sep; [contradiction | reflexivity].
  - cbn [Config.split_from]. destruct skip; [|apply IH].
    destruct (String.prefix sep (String c s)) eqn:Ep.
    + specialize (IH (String.length sep - 1)%nat).
      pose proof (split_from_nonempty (String.length sep - 1) sep s).
      destruct (Config.split_from (String.length sep - 1) sep s); [contradiction|].
      exact IH.
    + specialize (IH 0%nat).
      destruct (Config.split_from 0 sep s) as [|p ps] eqn:E;
        [now apply split_from_nonempty in E|].
      destruct ps as [|q qs].
      * apply single_piece in E as ->. cbn [List.last] in *.
        cbn [PyStr.contains]. now rewrite Ep, IH.
      * exact IH.
Qed.

Lemma api_key_from_holds_no_key_prefix variable built_in :
  PyStr.contains "key=" (Config.api_key_from variable built_in) = false.
Proof.
  unfold Config.api_key_from.
  set (raw := match variable with
              | Some v => if truthy_str v then v else built_in
              | None => built_in
              end).
  destruct (PyStr.contains "key=" raw) eqn:E; [|exact E].
  now apply last_piece_has_no_separator.
Qed.

(** X23.  Whatever the environment holds, neither configured 4stream key
    contains the text [key=]: of a value pasted with it, only what
    follows its last occurrence is kept. *)
Theorem configured_4stream_keys_hold_no_key_prefix (variable : option string) :
  PyStr.contains "key=" (Config.UP4STREAM_API_KEY variable) = false /\
  PyStr.contains "key=" (Config.UP4STREAM_API_KEY_ALT variable) = false.
Proof. split; apply api_key_from_holds_no_key_prefix. Qed.

(** ** The pinger *)

Lemma slept_app l1 l2 : Ping.slept (l1 ++ l2) = (Ping.slept l1 + Ping.slept l2)%Z.
Proof.
  induction l1 as [|a l1 IH]; [reflexivity|]. simpl. rewrite IH.
  destruct a; lia.
Qed.

Lemma ping_loop_goes_on app_url net clock first rounds :
  (forall i, (first <= i < first + rounds)%nat ->
     Ping.reachable_or_request_error (net i) = true) ->
  let '(e, done) := Ping.ping_loop app_url net clock first rounds in
  e = None /\ length (List.filter Ping.is_print done) = rounds /\
  Ping.slept done = (300 * Z.of_nat rounds)%Z.
Proof.
  revert first. induction rounds as [|k IH]; intros first H.
  - now repeat split.
  - cbn [Ping.ping_loop].
    specialize (IH (S first) ltac:(intros i Hi; apply H; lia)).
    pose proof (H first ltac:(lia)) as H0.
    unfold Ping.ping_once.
    destruct (net first) as [code|e]; cbn [Ping.reachable_or_request_error] in H0.
    + destruct (Ping.ping_loop app_url net clock (S first) k) as [e' more].
      destruct IH as (-> & Hp & Hs). split; [reflexivity|].
      rewrite List.filter_app, length_app, slept_app, Hp, Hs.
      split; [reflexivity|]. cbn [Ping.slept fold_right app]. lia.
    + rewrite H0.
      destruct (Ping.ping_loop app_url net clock (S first) k) as [e' more].
      destruct IH as (-> & Hp & Hs). split; [reflexivity|].
      rewrite List.filter_app, length_app, slept_app, Hp, Hs.
      split; [reflexivity|]. cbn [Ping.slept fold_right app]. lia.
Qed.

(** X24.  As long as every request of the pinger gets a reply or fails
    with a request error, [ping_app] goes on: after any number of rounds
    no exception has left it, it has printed its first line and one line
    per round, and it has slept 300 seconds per round. *)
Theorem ping_app_survives_request_errors (port : option string)
    (net : nat -> answer Z) (clock : nat -> string) (rounds : nat) :
  (forall i, (i < rounds)%nat -> Ping.reachable_or_request_error (net i) = true) ->
  let '(e, done) := Ping.ping_app port net clock rounds in
  e = None /\
  length (List.filter Ping.is_print done) = S rounds /\
  Ping.slept done = (300 * Z.of_nat rounds)%Z.
Proof.
  intros H. unfold Ping.ping_app.
  pose proof (ping_loop_goes_on (Ping.APP_URL port) net clock 0 rounds
                ltac:(intros i Hi; apply H; lia)) as Hl.
  destruct (Ping.ping_loop (Ping.APP_URL port) net clock 0 rounds) as [e done].
  destruct Hl as (-> & Hp & Hs). split; [reflexivity|].
  cbn [List.filter Ping.is_print length Ping.slept fold_right].
  split; [now rewrite Hp | exact Hs].
Qed.

Lemma ping_app_survives_request_errors_witness :
  let '(e, done) :=
    Ping.ping_app None Sample.flaky (fun _ => "Fri Nov  6 12:00:00 2026") 3 in
  e = None /\
  length (List.filter Ping.is_print done) = 4%nat /\
  Ping.slept done = 900%Z.
Proof.
  apply (ping_app_survives_request_errors None Sample.flaky
           (fun _ => "Fri Nov  6 12:00:00 2026") 3).
  intros [|i] _; reflexivity.
Defined.

(** ** Signing in and out *)

Import Web.

(** X25.  A sign-in with the user name [admin] and the configured
    password opens every page behind [login_required]; any other request
    to [/login] leaves the session as it was; and after [/logout] a page
    behind [login_required] redirects to the sign-in page again. *)
Theorem login_opens_and_logout_closes (APP_PASSWORD : string) (f : handler)
    (r r' : request) (b : browser) :
  (method r = "POST" -> form_username r = Some "admin" ->
   form_password r = Some APP_PASSWORD ->
   login_required f r' (snd (login APP_PASSWORD r b))
   = f r' (snd (login APP_PASSWORD r b))) /\
  ((method r <> "POST" \/ form_username r <> Some "admin"
    \/ form_password r <> Some APP_PASSWORD) ->
   cookies (snd (login APP_PASSWORD r b)) = cookies b) /\
  login_required f r' (snd (logout r b))
  = (Redirect (UrlFor "login" [("next", url r')]), snd (logout r b)).
Proof.
  split; [|split].
  - intros Hm Hu Hp. unfold login. rewrite Hm, Hu, Hp.
    rewrite String.eqb_refl, !bool_decide_eq_true_2 by reflexivity.
    cbn [andb snd]. unfold login_required. cbn [cookies].
    rewrite lookup_insert_ne by discriminate.
    now rewrite lookup_insert_eq.
  - intros H. unfold login.
    destruct (String.eqb (method r) "POST") eqn:Em; [|reflexivity].
    apply String.eqb_eq in Em.
    destruct (bool_decide (form_username r = Some ADMIN_USERNAME)) eqn:Eu;
      [|reflexivity].
    destruct (bool_decide (form_password r = Some APP_PASSWORD)) eqn:Ep;
      [|reflexivity].
    apply bool_decide_eq_true in Eu, Ep. unfold ADMIN_USERNAME in Eu. tauto.
  - reflexivity.
Qed.

Lemma login_opens_and_logout_closes_witness :
  let f : handler := fun _ b => (Render "files" [], b) in
  login_required f Sample.visit (snd (login "1234" Sample.sign_in Sample.nobody))
  = f Sample.visit (snd (login "1234" Sample.sign_in Sample.nobody)).
Proof.
  intros f.
  apply (login_opens_and_logout_closes "1234" f Sample.sign_in Sample.visit
           Sample.nobody); reflexivity.
Defined.
